(** * engine262: assignment evaluation, realm construction, worker session

    A shallow embedding of three source files of the interpreter:
    - [src/runtime-semantics/AssignmentExpression.mjs]
      ([Evaluate_AssignmentExpression]),
    - the realm construction code ([CreateRealm], [CreateIntrinsics],
      [SetRealmGlobalObject], [OrdinaryObjectCreate], [MakeBasicObject],
      [NewGlobalEnvironment], [NewObjectEnvironment],
      [SetDefaultGlobalBindings]),
    - the web worker that drives one evaluation session.

    JavaScript is dynamically typed, so there is one universe of values
    ([Value]) and one heap of mutable objects ([Cell]).  Operations that the
    three files import from the rest of the engine are calls to a [Host]: an
    arbitrary function of the call, the heap and the host's own state.  Every
    such call is recorded, with the heap it was made in and the answer it
    gave, in the [log] of the [World]; the host cannot read or write the
    log.  Theorems quantify over every host.  In the worker the engine
    calls back while it runs: the rejection tracker, [print] and the
    console methods.  There the host is the engine at work
    ([Worker.session_host]), the answer to a call tells what happened
    during the call, and theorems quantify over every engine. *)

From Stdlib Require Import ZArith String List Bool Lia.
From Stdlib Require Import Floats.SpecFloat.
From stdpp Require Import gmap strings list.

Local Open Scope string_scope.
Local Open Scope list_scope.

(** ** Values *)

(** The [Type] field of a Completion Record. *)
Inductive CompletionType := normal | break | continue | return_ | throw.

(** Everything a JavaScript variable of the three files can hold.
    [js_undefined] is JavaScript's own [undefined] (an unset field, a
    function that ends without [return]); [Value_undefined] is the engine's
    [Value.undefined].  [js_string] is a JavaScript string such as
    ['rejected']; [StringValue] is the engine value [new Value('...')].
    [Ref l] is a reference to the mutable object at address [l] of the
    heap. *)
Inductive Value : Type :=
| js_undefined
| js_string (s : string)
| Value_undefined
| Value_null
| Value_true
| Value_false
| StringValue (s : string)
| NumberValue (n : spec_float)
| Ref (l : nat)
| Reference (BaseValue ReferencedName StrictReference : Value).

(** What an operation hands back: a value as it is, or a Completion
    Record.  The [Value] field of a completion is never itself a
    completion. *)
Inductive Result : Type :=
| Plain (v : Value)
| Completion (Type_ : CompletionType) (Value_ Target : Value).

Lemma CompletionType_eq_dec (x y : CompletionType) : {x = y} + {x <> y}.
Proof. decide equality. Defined.

Lemma spec_float_eq_dec (x y : spec_float) : {x = y} + {x <> y}.
Proof.
  decide equality;
    first [apply Z.eq_dec | apply Pos.eq_dec | apply Bool.bool_dec].
Defined.

Lemma Value_eq_dec (x y : Value) : {x = y} + {x <> y}.
Proof.
  revert y; induction x; intros y; destruct y;
    try (right; discriminate); try (left; reflexivity).
  - destruct (String.string_dec s s0); [left | right]; congruence.
  - destruct (String.string_dec s s0); [left | right]; congruence.
  - destruct (spec_float_eq_dec n n0); [left | right]; congruence.
  - destruct (Nat.eq_dec l l0); [left | right]; congruence.
  - destruct (IHx1 y1); [| right; congruence].
    destruct (IHx2 y2); [| right; congruence].
    destruct (IHx3 y3); [left | right]; congruence.
Defined.

#[export] Instance Value_eq_decision : EqDecision Value := Value_eq_dec.

(** [new Value(s)] for a JavaScript string [s]. *)
Definition NewValue (s : string) : Value := StringValue s.

(** [v === 's'] for a JavaScript string literal. *)
Definition strict_equal_string (v : Value) (s : string) : bool :=
  match v with
  | js_string s' => String.eqb s' s
  | _ => false
  end.

(** [x instanceof Completion] and [x instanceof AbruptCompletion]: a
    completion is abrupt when its type is not [normal]. *)
Definition isCompletion (x : Result) : bool :=
  match x with Completion _ _ _ => true | Plain _ => false end.

Definition isAbruptCompletion (x : Result) : bool :=
  match x with
  | Completion normal _ _ => false
  | Completion _ _ _ => true
  | Plain _ => false
  end.

(** What [Q] and [X] leave in the variable when they do not return: the
    [Value] field of a completion, anything else as it is. *)
Definition unwrap (x : Result) : Value :=
  match x with Completion _ v _ => v | Plain v => v end.

(** ** The heap *)

(** A Property Descriptor, as [Descriptor({...})] builds it: a field that
    is not given is [js_undefined]. *)
Record PropertyDescriptor := {
  desc_Value : Value;
  desc_Get : Value;
  desc_Set : Value;
  desc_Writable : Value;
  desc_Enumerable : Value;
  desc_Configurable : Value;
}.

Lemma PropertyDescriptor_eq_dec (x y : PropertyDescriptor) :
  {x = y} + {x <> y}.
Proof. decide equality; apply Value_eq_dec. Defined.

#[export] Instance PropertyDescriptor_eq_decision
  : EqDecision PropertyDescriptor := PropertyDescriptor_eq_dec.

(** A binding of a Declarative Environment Record. *)
Record Binding := {
  binding_value : Value;
  binding_mutable : bool;
  binding_initialized : bool;
}.

(** The mutable objects.  An [ObjectValue] has its internal slots (set as
    plain fields by [MakeBasicObject]) and its own properties, in insertion
    order.  [PlainObject] is [Object.create(null)] used as a dictionary. *)
Inductive Cell : Type :=
| ObjectValue (slots : gmap string Value)
              (properties : list (Value * PropertyDescriptor))
| PlainObject (fields : gmap string Value)
| Realm (Intrinsics GlobalObject GlobalEnv TemplateMap HostDefined
         randomState : Value)
| ObjectEnvironmentRecord (BindingObject IsWithEnvironment OuterEnv : Value)
| DeclarativeEnvironmentRecord (bindings : list (Value * Binding))
                               (OuterEnv : Value)
| GlobalEnvironmentRecord (ObjectRecord GlobalThisValue DeclarativeRecord
                           VarNames OuterEnv : Value)
| ArrayObject (elements : list Value).

(** [new C(...)]: the new object gets the first unused address. *)
Definition alloc (c : Cell) (h : list Cell) : nat * list Cell :=
  (List.length h, h ++ [c]).

(** The own properties of the object at [l]. *)
Definition own_properties (h : list Cell) (l : nat)
  : list (Value * PropertyDescriptor) :=
  match h !! l with
  | Some (ObjectValue _ props) => props
  | _ => []
  end.

(** ** Statements, calls to the rest of the engine, and the log *)

Section Machine.
Context {Call Resp Ext : Type}.

(** One call to an imported operation: the call, the heap it was made
    in, and what it returned. *)
Record Event := { ev_call : Call; ev_heap : list Cell; ev_resp : Resp }.

Record World := { heap : list Cell; ext : Ext; log : list Event }.

Definition Host : Type := Call -> list Cell -> Ext -> Resp * list Cell * Ext.

(** A statement goes on to the next one with a value ([Next]), leaves the
    enclosing function with [return v] ([Returned]), or raises a
    JavaScript exception of the host language ([Thrown]), such as the
    TypeError of reading a field of [undefined]. *)
Inductive Outcome (A : Type) : Type :=
| Next (a : A) (w : World)
| Returned (v : Result) (w : World)
| Thrown (w : World).
Arguments Next {A} a w.
Arguments Returned {A} v w.
Arguments Thrown {A} w.

Definition Stmt (A : Type) : Type := World -> Outcome A.

Definition ret {A} (a : A) : Stmt A := fun w => Next a w.

Definition bind {A B} (m : Stmt A) (k : A -> Stmt B) : Stmt B :=
  fun w =>
    match m w with
    | Next a w' => k a w'
    | Returned v w' => Returned v w'
    | Thrown w' => Thrown w'
    end.

Definition Return {A} (v : Result) : Stmt A := fun w => Returned v w.

Definition throwTypeError {A} : Stmt A := fun w => Thrown w.

(** A function call: the body runs to its [return], or to its end, where
    the call evaluates to [undefined]. *)
Definition function (body : Stmt unit) : Stmt Result :=
  fun w =>
    match body w with
    | Next _ w' => Next (Plain js_undefined) w'
    | Returned v w' => Next v w'
    | Thrown w' => Thrown w'
    end.

Definition world_of {A} (o : Outcome A) : World :=
  match o with Next _ w | Returned _ w | Thrown w => w end.

(** The value a statement went on with, if it did. *)
Definition value_of {A} (o : Outcome A) : option A :=
  match o with Next a _ => Some a | _ => None end.

Definition getHeap : Stmt (list Cell) := fun w => Next (heap w) w.

Definition setHeap (h : list Cell) : Stmt unit :=
  fun w => Next tt {| heap := h; ext := ext w; log := log w |}.

Variable host : Host.

(** A call to an imported operation. *)
Definition perform (c : Call) : Stmt Resp :=
  fun w =>
    let '(r, h, e) := host c (heap w) (ext w) in
    Next r {| heap := h; ext := e;
              log := log w ++ [{| ev_call := c; ev_heap := heap w;
                                  ev_resp := r |}] |}.

(** [array.forEach(callback)]: the callback is called on each element in
    turn and what it returns is dropped. *)
Fixpoint forEach {A} (array : list A) (callback : A -> Stmt unit)
  : Stmt unit :=
  match array with
  | [] => ret tt
  | x :: rest =>
      bind (function (callback x)) (fun _ => forEach rest callback)
  end.
End Machine.

Arguments Next {Call Resp Ext A} a w.
Arguments Returned {Call Resp Ext A} v w.
Arguments Thrown {Call Resp Ext A} w.
Arguments Event : clear implicits.
Arguments World : clear implicits.
Arguments Host : clear implicits.
Arguments Outcome : clear implicits.
Arguments Stmt : clear implicits.

Declare Scope stmt_scope.
Delimit Scope stmt_scope with stmt.
Notation "'let*' x ':=' m 'in' k" := (bind m (fun x => k))
  (at level 10, x name, m at level 100, k at level 200) : stmt_scope.
Notation "'do' m 'in' k" := (bind m (fun _ => k))
  (at level 10, m at level 100, k at level 200) : stmt_scope.
Local Open Scope stmt_scope.

(** ** Fields of heap objects *)

Section Fields.
Context {Call Resp Ext : Type}.
#[local] Abbreviation Stmt := (Stmt Call Resp Ext).

(** [c.name] for an object [c] of the heap: a field the object does not
    have reads as [undefined]. *)
Definition cell_field (c : Cell) (name : string) : Value :=
  match c with
  | ObjectValue slots _ => default js_undefined (slots !! name)
  | PlainObject fields => default js_undefined (fields !! name)
  | Realm i g e t hd r =>
      if String.eqb name "Intrinsics" then i
      else if String.eqb name "GlobalObject" then g
      else if String.eqb name "GlobalEnv" then e
      else if String.eqb name "TemplateMap" then t
      else if String.eqb name "HostDefined" then hd
      else if String.eqb name "randomState" then r
      else js_undefined
  | ObjectEnvironmentRecord b isw o =>
      if String.eqb name "BindingObject" then b
      else if String.eqb name "IsWithEnvironment" then isw
      else if String.eqb name "OuterEnv" then o
      else js_undefined
  | DeclarativeEnvironmentRecord _ o =>
      if String.eqb name "OuterEnv" then o else js_undefined
  | GlobalEnvironmentRecord orec this drec vars o =>
      if String.eqb name "ObjectRecord" then orec
      else if String.eqb name "GlobalThisValue" then this
      else if String.eqb name "DeclarativeRecord" then drec
      else if String.eqb name "VarNames" then vars
      else if String.eqb name "OuterEnv" then o
      else js_undefined
  | ArrayObject _ => js_undefined
  end.

(** [c.name = v].  Objects of the record classes take their declared
    fields only ([None] otherwise). *)
Definition cell_set_field (c : Cell) (name : string) (v : Value)
  : option Cell :=
  match c with
  | ObjectValue slots props => Some (ObjectValue (<[name := v]> slots) props)
  | PlainObject fields => Some (PlainObject (<[name := v]> fields))
  | Realm i g e t hd r =>
      if String.eqb name "Intrinsics" then Some (Realm v g e t hd r)
      else if String.eqb name "GlobalObject" then Some (Realm i v e t hd r)
      else if String.eqb name "GlobalEnv" then Some (Realm i g v t hd r)
      else if String.eqb name "TemplateMap" then Some (Realm i g e v hd r)
      else if String.eqb name "HostDefined" then Some (Realm i g e t v r)
      else if String.eqb name "randomState" then Some (Realm i g e t hd v)
      else None
  | ObjectEnvironmentRecord b isw o =>
      if String.eqb name "BindingObject"
      then Some (ObjectEnvironmentRecord v isw o)
      else if String.eqb name "IsWithEnvironment"
      then Some (ObjectEnvironmentRecord b v o)
      else if String.eqb name "OuterEnv"
      then Some (ObjectEnvironmentRecord b isw v)
      else None
  | DeclarativeEnvironmentRecord bs o =>
      if String.eqb name "OuterEnv"
      then Some (DeclarativeEnvironmentRecord bs v) else None
  | GlobalEnvironmentRecord orec this drec vars o =>
      if String.eqb name "ObjectRecord"
      then Some (GlobalEnvironmentRecord v this drec vars o)
      else if String.eqb name "GlobalThisValue"
      then Some (GlobalEnvironmentRecord orec v drec vars o)
      else if String.eqb name "DeclarativeRecord"
      then Some (GlobalEnvironmentRecord orec this v vars o)
      else if String.eqb name "VarNames"
      then Some (GlobalEnvironmentRecord orec this drec v o)
      else if String.eqb name "OuterEnv"
      then Some (GlobalEnvironmentRecord orec this drec vars v)
      else None
  | ArrayObject _ => None
  end.

(** [o.name] read in the heap [h]: [None] is the TypeError of reading a
    field of [undefined]; a primitive or an engine constant has no field of
    these names. *)
Definition field (h : list Cell) (o : Value) (name : string) : option Value :=
  match o with
  | js_undefined => None
  | Ref l => match h !! l with
             | Some c => Some (cell_field c name)
             | None => None
             end
  | _ => Some js_undefined
  end.

Definition get_field (o : Value) (name : string) : Stmt Value :=
  fun w =>
    match field (heap w) o name with
    | Some v => Next v w
    | None => Thrown w
    end.

Definition set_field (o : Value) (name : string) (v : Value) : Stmt unit :=
  fun w =>
    match o with
    | Ref l =>
        match heap w !! l with
        | Some c =>
            match cell_set_field c name v with
            | Some c' =>
                Next tt {| heap := <[l := c']> (heap w); ext := ext w;
                           log := log w |}
            | None => Thrown w
            end
        | None => Thrown w
        end
    | _ => Thrown w
    end.

(** [new C(...)] *)
Definition new (c : Cell) : Stmt Value :=
  fun w =>
    let '(l, h) := alloc c (heap w) in
    Next (Ref l) {| heap := h; ext := ext w; log := log w |}.
End Fields.

(** ** The completion macros

    [completion.mjs] is not among the sources.  Its macros expand to code
    where they are written, so the [return] of [Q] leaves the JavaScript
    function the macro is written in. *)
Section Macros.
Context {Call Ext : Type}.
#[local] Abbreviation Stmt := (Stmt Call Result Ext).

(** Modelled from the spec: the macro [ReturnIfAbrupt] (also written [Q])
    of [completion.mjs].  "Propagate-on-abrupt: given a Completion, if
    abrupt, immediately return it unchanged from the enclosing operation;
    otherwise unwrap to the Normal value and continue." *)
Definition ReturnIfAbrupt (x : Result) : Stmt Value :=
  if isAbruptCompletion x then Return x else ret (unwrap x).

(** [Q(call)]: the call, then [ReturnIfAbrupt] on what it returned. *)
Definition Q (m : Stmt Result) : Stmt Value := bind m ReturnIfAbrupt.

(** Modelled from the spec: the macro [X] of [completion.mjs].
    "Assert-normal: given a Completion known by invariant to never be
    abrupt, unwrap unconditionally; violation is a fatal
    internal-consistency error." *)
Definition X (m : Stmt Result) : Stmt Value :=
  bind m (fun x => if isAbruptCompletion x then throwTypeError
                   else ret (unwrap x)).
End Macros.

(** ** What a statement adds to the log *)

Section LogInvariant.
Context {Call Resp Ext : Type}.
#[local] Abbreviation Stmt := (Stmt Call Resp Ext).
Variable host : Host Call Resp Ext.
Variable P : Event Call Resp -> Prop.

(** Every event that [m] adds to the log satisfies [P], however [m]
    ends. *)
Definition logs_only {A} (m : Stmt A) : Prop :=
  forall w, exists evs,
    log (world_of (m w)) = log w ++ evs /\ Forall P evs.

Lemma logs_only_silent {A} (m : Stmt A) :
  (forall w, log (world_of (m w)) = log w) -> logs_only m.
Proof.
  intros H w. exists []. rewrite H, app_nil_r. split; [reflexivity | constructor].
Qed.

Lemma logs_only_ret {A} (a : A) : logs_only (ret a).
Proof. apply logs_only_silent. reflexivity. Qed.

Lemma logs_only_Return {A} (v : Result) : logs_only (@Return Call Resp Ext A v).
Proof. apply logs_only_silent. reflexivity. Qed.

Lemma logs_only_get_field (o : Value) (name : string) :
  logs_only (get_field o name).
Proof.
  apply logs_only_silent. intros w. unfold get_field.
  destruct (field (heap w) o name); reflexivity.
Qed.

Lemma logs_only_perform (c : Call) :
  (forall h r, P {| ev_call := c; ev_heap := h; ev_resp := r |}) ->
  logs_only (perform host c).
Proof.
  intros Hc w. unfold perform.
  destruct (host c (heap w) (ext w)) as [[r h] e].
  eexists. split; [reflexivity |]. repeat constructor. apply Hc.
Qed.

Lemma logs_only_bind {A B} (m : Stmt A) (k : A -> Stmt B) :
  logs_only m -> (forall a, logs_only (k a)) -> logs_only (bind m k).
Proof.
  intros Hm Hk w. unfold bind.
  destruct (Hm w) as (evs & Hlog & Hall).
  destruct (m w) as [a w1 | v w1 | w1]; cbn [world_of] in *.
  - destruct (Hk a w1) as (evs' & Hlog' & Hall').
    exists (evs ++ evs'). rewrite Hlog', Hlog, app_assoc.
    split; [reflexivity | apply Forall_app; split; assumption].
  - exists evs. split; assumption.
  - exists evs. split; assumption.
Qed.

Lemma logs_only_function (body : Stmt unit) :
  logs_only body -> logs_only (function body).
Proof.
  intros Hb w. unfold function.
  destruct (Hb w) as (evs & Hlog & Hall).
  exists evs. destruct (body w); cbn [world_of] in *; split; assumption.
Qed.

Lemma logs_only_forEach {A} (array : list A) (callback : A -> Stmt unit) :
  (forall x, logs_only (callback x)) -> logs_only (forEach array callback).
Proof.
  intros Hcb. induction array as [|x rest IH]; cbn [forEach].
  - apply logs_only_ret.
  - apply logs_only_bind; [apply logs_only_function, Hcb | intros _; exact IH].
Qed.

(** A [forEach] never leaves the enclosing function: what a callback
    returns stays in the callback. *)
Lemma forEach_does_not_return {A} (array : list A) (callback : A -> Stmt unit)
  (w : World Call Resp Ext) :
  (exists w', forEach array callback w = Next tt w') \/
  (exists w', forEach array callback w = Thrown w').
Proof.
  revert w. induction array as [|x rest IH]; intros w; cbn [forEach].
  - left. eexists. reflexivity.
  - unfold bind, function.
    destruct (callback x w) as [[] w1 | v w1 | w1];
      [apply IH | apply IH | right; eexists; reflexivity].
Qed.

(** A [forEach] whose callback, unless it throws, makes one call: when the
    loop runs to its end it has made one call per element, in order. *)
Lemma forEach_one_event {A} (R : A -> Event Call Resp -> Prop)
  (array : list A) (callback : A -> Stmt unit) :
  (forall x w,
     (exists w', callback x w = Thrown w') \/
     (exists e w',
        (callback x w = Next tt w' \/ exists v, callback x w = Returned v w') /\
        log w' = log w ++ [e] /\ R x e)) ->
  forall w w',
    forEach array callback w = Next tt w' ->
    exists evs, log w' = log w ++ evs /\ Forall2 R array evs.
Proof.
  intros Hcb. induction array as [|x rest IH]; intros w w' Hrun.
  - cbn [forEach] in Hrun. unfold ret in Hrun. injection Hrun as <-.
    exists []. rewrite app_nil_r. split; [reflexivity | constructor].
  - cbn [forEach] in Hrun. unfold bind, function in Hrun.
    destruct (Hcb x w) as [(w1 & E) | (e & w1 & E & L & Hr)].
    + rewrite E in Hrun. discriminate.
    + assert (Hrest : forEach rest callback w1 = Next tt w')
        by (destruct E as [E | (v & E)]; rewrite E in Hrun; exact Hrun).
      destruct (IH w1 w' Hrest) as (evs & L' & F).
      exists (e :: evs). split.
      * rewrite L', L, <- app_assoc. reflexivity.
      * constructor; assumption.
Qed.
End LogInvariant.

(** ** Runtime semantics of AssignmentExpression *)

Module Assignment.

Section Evaluator.
(** The parser's expression nodes are opaque here; the static-semantics
    predicates on them come from [ast.mjs] and [static-semantics], which
    are not among the sources. *)
Context {Node Ext : Type}.
Variable isObjectLiteral isArrayLiteral : Node -> bool.
Variable IsAnonymousFunctionDefinition IsIdentifierRef : Node -> bool.

(** An assignment node: [{ operator, left, right }]. *)
Record AssignmentExpressionNode := {
  operator : string;
  left : Node;
  right : Node;
}.

(** The operations imported from [abstract-ops] and [evaluator.mjs]. *)
Inductive Call : Type :=
| Evaluate_Expression (node : Node)
| GetValue (V : Value)
| PutValue (V W : Value)
| GetReferencedName (V : Value)
| SetFunctionName (F : Value) (name : Result)
| HasOwnProperty (O P : Value)
| EvaluateBinopValues (op : string) (lval rval : Value).

#[local] Abbreviation Stmt := (Stmt Call Result Ext).

Variable host : Host Call Result Ext.

(** [s.slice(0, -1)]: the string without its last character. *)
Definition slice_0_m1 (s : string) : string :=
  substring 0 (String.length s - 1) s.

(** [v.isFalse()], a method of the engine's boolean values. *)
Definition isFalse (v : Value) : Stmt bool :=
  match v with
  | Value_false => ret true
  | Value_true => ret false
  | _ => throwTypeError
  end.

Definition Evaluate_AssignmentExpression (node : AssignmentExpressionNode)
  : Stmt Result :=
  function (
    let LeftHandSideExpression := left node in
    let AssignmentExpression := right node in
    if String.eqb (operator node) "=" then
      if negb (isObjectLiteral LeftHandSideExpression)
         && negb (isArrayLiteral LeftHandSideExpression) then
        let* lref := Q (perform host (Evaluate_Expression LeftHandSideExpression)) in
        let* lref := ReturnIfAbrupt (Plain lref) in
        let* rref := Q (perform host (Evaluate_Expression AssignmentExpression)) in
        let* rval := Q (perform host (GetValue rref)) in
        do (if IsAnonymousFunctionDefinition AssignmentExpression
               && IsIdentifierRef LeftHandSideExpression then
              let* hasNameProperty :=
                Q (perform host (HasOwnProperty rval (NewValue "name"))) in
              let* no_name := isFalse hasNameProperty in
              if no_name : bool then
                let* name := perform host (GetReferencedName lref) in
                do perform host (SetFunctionName rval name) in
                ret tt
              else ret tt
            else ret tt) in
        do Q (perform host (PutValue lref rval)) in
        Return (Plain rval)
      else ret tt
    else
      let AssignmentOperator := operator node in
      let* lref := Q (perform host (Evaluate_Expression LeftHandSideExpression)) in
      let* lval := Q (perform host (GetValue lref)) in
      let* rref := Q (perform host (Evaluate_Expression AssignmentExpression)) in
      let* rval := Q (perform host (GetValue rref)) in
      let op := slice_0_m1 AssignmentOperator in
      let* r := Q (perform host (EvaluateBinopValues op lval rval)) in
      do Q (perform host (PutValue lref r)) in
      Return (Plain r)).

(** The sub-steps whose completion the evaluator checks with [Q] before
    it writes: evaluating an operand, GetValue, the binary operator, the
    HasOwnProperty check. *)
Definition is_checked_step (c : Call) : bool :=
  match c with
  | Evaluate_Expression _ | GetValue _ | HasOwnProperty _ _
  | EvaluateBinopValues _ _ _ => true
  | PutValue _ _ | GetReferencedName _ | SetFunctionName _ _ => false
  end.

(** The calls that change a binding or a property. *)
Definition is_write (c : Call) : bool :=
  match c with
  | PutValue _ _ | SetFunctionName _ _ => true
  | _ => false
  end.

(** A run in which no call that the evaluator checks with [Q] (every call
    but GetReferencedName and SetFunctionName) answered with an abrupt
    completion. *)
Definition checked_normal (evs : list (Event Call Result)) : Prop :=
Forall (fun e => match ev_call e with
                 | GetReferencedName _ | SetFunctionName _ _ => True
                 | _ => isAbruptCompletion (ev_resp e) = false
                 end) evs.

(** *** What the evaluator does, for every host *)

#[local] Abbreviation calls evs := (map ev_call evs).
#[local] Abbreviation responses evs := (map ev_resp evs).

(** The responses of a run in which no call answered with an abrupt
    completion. *)
Definition all_normal (evs : list (Event Call Result)) : Prop :=
Forall (fun e => isAbruptCompletion (ev_resp e) = false) evs.

Ltac unfold_evaluator :=
  cbv beta iota zeta delta
    [Evaluate_AssignmentExpression function bind Q ReturnIfAbrupt perform
     ret Return isFalse throwTypeError world_of].

Ltac host_step :=
  match goal with
  | |- context [host ?c ?h ?e] =>
      let x := fresh "x" in
      let h' := fresh "h" in
      let e' := fresh "e" in
      destruct (host c h e) as [[x h'] e'] eqn:?;
      cbn [heap ext log]
  end.

Ltac abrupt_or_not :=
  match goal with
  | |- context [isAbruptCompletion (Plain ?x)] =>
      change (isAbruptCompletion (Plain x)) with false
  | |- context [isAbruptCompletion ?x] =>
      let A := fresh "A" in
      destruct (isAbruptCompletion x) eqn:A
  end.

Lemma substring_prefix (s t : string) :
  substring 0 (String.length s) (String.append s t) = s.
Proof.
  induction s as [|a s IH]; simpl.
  - destruct t; reflexivity.
  - f_equal. exact IH.
Qed.

Lemma slice_0_m1_app (op : string) : slice_0_m1 (String.append op "=") = op.
Proof.
  unfold slice_0_m1.
  assert (L : String.length (String.append op "=") = S (String.length op))
    by (induction op as [|a op IH]; simpl; congruence).
  rewrite L. replace (S (String.length op) - 1) with (String.length op) by lia.
  apply substring_prefix.
Qed.

Lemma append_eq_not_plain (op : string) :
  op <> "" -> String.eqb (String.append op "=") "=" = false.
Proof.
  intros Hop. apply String.eqb_neq. intros E.
  destruct op as [|a [|b op]]; [congruence | discriminate | discriminate].
Qed.

(** C1. A compound assignment [target op= source] evaluates the target
    first and only once (the only other expression evaluated is the source,
    third); when no step is abrupt it makes exactly six calls: evaluate the
    target, GetValue of that reference, evaluate the source, GetValue of it,
    the binary operator [op] (the token without its last character [=]) on
    the two values, PutValue of the result into the reference that was read,
    and it returns the result. *)
Theorem compound_assignment_steps
  (node : AssignmentExpressionNode) (op : string) (w : World Call Result Ext) :
  operator node = String.append op "=" ->
  op <> "" ->
  exists v w' evs,
    Evaluate_AssignmentExpression node w = Next v w' /\
    log w' = log w ++ evs /\
    calls evs !! 0 = Some (Evaluate_Expression (left node)) /\
    (forall i n, calls evs !! i = Some (Evaluate_Expression n) ->
                 i = 0 \/ (i = 2 /\ n = right node)) /\
    (all_normal evs ->
     exists x1 x2 x3 x4 x5 x6,
       responses evs = [x1; x2; x3; x4; x5; x6] /\
       calls evs =
         [Evaluate_Expression (left node);
          GetValue (unwrap x1);
          Evaluate_Expression (right node);
          GetValue (unwrap x3);
          EvaluateBinopValues op (unwrap x2) (unwrap x4);
          PutValue (unwrap x1) (unwrap x5)] /\
       v = Plain (unwrap x5)).
Proof.
  intros Hnode Hop.
  unfold_evaluator.
  rewrite Hnode, (append_eq_not_plain op Hop), slice_0_m1_app.
  repeat (host_step; abrupt_or_not);
    do 2 eexists; eexists;
    (split; [reflexivity |]);
    (split; [rewrite <- ?app_assoc; reflexivity |]);
    cbn [app map ev_call ev_resp];
    (split; [reflexivity |]);
    (split;
     [intros i n Hi;
      repeat (destruct i as [|i]; cbn in Hi; try discriminate);
      first [left; reflexivity | right; split; [reflexivity | congruence]] |]);
    intros Hall; unfold all_normal in Hall; cbn [app] in Hall;
    repeat match goal with
      | H : Forall _ (_ :: _) |- _ => inversion H; subst; clear H
      end;
    cbn [ev_resp] in *; try congruence.
  all: do 6 eexists; repeat split.
Qed.

Ltac case_step :=
  first
    [ host_step
    | abrupt_or_not
    | match goal with
      | |- context [String.eqb ?a ?b] => destruct (String.eqb a b) eqn:?
      | |- context [isObjectLiteral ?n] => destruct (isObjectLiteral n) eqn:?
      | |- context [isArrayLiteral ?n] => destruct (isArrayLiteral n) eqn:?
      | |- context [IsAnonymousFunctionDefinition ?n] =>
          destruct (IsAnonymousFunctionDefinition n) eqn:?
      | |- context [IsIdentifierRef ?n] => destruct (IsIdentifierRef n) eqn:?
      | |- context [match unwrap ?x with _ => _ end] =>
          destruct (unwrap x) eqn:?
      end ];
  cbn [negb andb].

Ltac log_extension :=
  cbn [log];
  first [ symmetry; apply app_nil_r | rewrite <- ?app_assoc; reflexivity ].

(** C3. If a checked sub-step (evaluating the target or the source,
    GetValue on either, the binary operator, the HasOwnProperty check)
    answers with an abrupt completion, the evaluator returns that very
    completion, and the run contains no PutValue (and no SetFunctionName):
    nothing is written on the abrupt path. *)
Theorem abrupt_step_is_returned
  (node : AssignmentExpressionNode) (w : World Call Result Ext) :
  exists evs,
    log (world_of (Evaluate_AssignmentExpression node w)) = log w ++ evs /\
    forall e,
      In e evs ->
      is_checked_step (ev_call e) = true ->
      isAbruptCompletion (ev_resp e) = true ->
      Evaluate_AssignmentExpression node w
      = Next (ev_resp e) (world_of (Evaluate_AssignmentExpression node w)) /\
      Forall (fun e' => is_write (ev_call e') = false) evs.
Proof.
  unfold_evaluator.
  repeat case_step;
    (eexists; split; [log_extension |]);
    intros ev Hin Hc Ha; cbn [app In] in Hin;
    repeat match goal with
      | H : _ \/ _ |- _ => destruct H
      | H : False |- _ => destruct H
      end;
    subst; cbn [ev_call ev_resp is_checked_step] in *;
    try congruence;
    (split; [reflexivity | cbn [app]; repeat constructor]).
Qed.

(** C2. Plain [=] whose target is an identifier reference and whose source
    is an anonymous function definition, no step abrupt: after the target,
    the source and GetValue, the evaluator asks HasOwnProperty(value,
    "name").  On [false] it calls SetFunctionName(value,
    GetReferencedName(target reference)) and only then PutValue; on [true]
    it goes straight to PutValue and SetFunctionName is not called.  Both
    ways it returns the value. *)
Theorem anonymous_function_is_named
  (node : AssignmentExpressionNode) (w : World Call Result Ext) :
  operator node = "=" ->
  isObjectLiteral (left node) = false ->
  isArrayLiteral (left node) = false ->
  IsIdentifierRef (left node) = true ->
  IsAnonymousFunctionDefinition (right node) = true ->
  exists evs,
    log (world_of (Evaluate_AssignmentExpression node w)) = log w ++ evs /\
    (checked_normal evs ->
     exists x1 x2 x3 x4,
       firstn 4 (responses evs) = [x1; x2; x3; x4] /\
       firstn 4 (calls evs) =
         [Evaluate_Expression (left node);
          Evaluate_Expression (right node);
          GetValue (unwrap x2);
          HasOwnProperty (unwrap x3) (NewValue "name")] /\
       (unwrap x4 = Value_false ->
        exists name x6 x7,
          skipn 4 (responses evs) = [name; x6; x7] /\
          skipn 4 (calls evs) =
            [GetReferencedName (unwrap x1);
             SetFunctionName (unwrap x3) name;
             PutValue (unwrap x1) (unwrap x3)] /\
          Evaluate_AssignmentExpression node w
          = Next (Plain (unwrap x3))
              (world_of (Evaluate_AssignmentExpression node w))) /\
       (unwrap x4 = Value_true ->
        exists x5,
          skipn 4 (responses evs) = [x5] /\
          skipn 4 (calls evs) = [PutValue (unwrap x1) (unwrap x3)] /\
          Evaluate_AssignmentExpression node w
          = Next (Plain (unwrap x3))
              (world_of (Evaluate_AssignmentExpression node w)))).
Proof.
  intros Hop Hobj Harr Hid Hanon.
  unfold_evaluator.
  rewrite Hop, String.eqb_refl, Hobj, Harr, Hid, Hanon. cbn [negb andb].
  repeat case_step;
    (eexists; split; [log_extension |]);
    intros Hall; unfold checked_normal in Hall; cbn [app] in Hall;
    repeat match goal with
      | H : Forall _ (_ :: _) |- _ => inversion H; subst; clear H
      end;
    cbn [ev_call ev_resp] in *; try congruence;
    cbn [app map firstn skipn ev_call ev_resp];
    do 4 eexists;
    (split; [reflexivity |]); (split; [reflexivity |]);
    (split; intros Hx; try congruence).
  all: do 3 eexists; repeat split.
Qed.

(** Plain [=] to a target that is no object or array literal, where the
    name inference does not apply (the source is no anonymous function
    definition, or the target no identifier reference): the evaluator
    always returns; when no step is abrupt it makes exactly four calls:
    evaluate the target, evaluate the source, GetValue of the source's
    reference, PutValue of that value into the target's reference, and it
    returns the value. *)
Theorem plain_assignment_steps
  (node : AssignmentExpressionNode) (w : World Call Result Ext) :
  operator node = "=" ->
  isObjectLiteral (left node) = false ->
  isArrayLiteral (left node) = false ->
  IsAnonymousFunctionDefinition (right node) && IsIdentifierRef (left node)
  = false ->
  exists v w' evs,
    Evaluate_AssignmentExpression node w = Next v w' /\
    log w' = log w ++ evs /\
    (all_normal evs ->
     exists x1 x2 x3 x4,
       responses evs = [x1; x2; x3; x4] /\
       calls evs =
         [Evaluate_Expression (left node);
          Evaluate_Expression (right node);
          GetValue (unwrap x2);
          PutValue (unwrap x1) (unwrap x3)] /\
       v = Plain (unwrap x3)).
Proof.
  intros Hop Hobj Harr Hname.
  unfold_evaluator.
  rewrite Hop, String.eqb_refl, Hobj, Harr, Hname. cbn [negb andb].
  repeat case_step;
    do 2 eexists; eexists;
    (split; [reflexivity |]);
    (split; [rewrite <- ?app_assoc; reflexivity |]);
    cbn [app map ev_call ev_resp];
    intros Hall; unfold all_normal in Hall; cbn [app] in Hall;
    repeat match goal with
      | H : Forall _ (_ :: _) |- _ => inversion H; subst; clear H
      end;
    cbn [ev_resp] in *; try congruence.
  all: do 4 eexists; repeat split.
Qed.

(** The calls of the name inference. *)
Definition is_naming (c : Call) : bool :=
  match c with
  | HasOwnProperty _ _ | GetReferencedName _ | SetFunctionName _ _ => true
  | _ => false
  end.

(** In every run, for every operator: [PutValue] is called at most once and
    is the last call made; it writes into the reference that the target
    evaluated to (the answer of the first call); and the evaluator returns
    the value written, or, when [PutValue] answers with an abrupt
    completion, that completion.  Conversely a value is returned only after
    it was written: a run that returns something that is no completion
    either made no call at all (the literal target of a plain [=]) or ended
    with a [PutValue] of exactly that value, which did not answer
    abruptly. *)
Theorem assigned_value_is_returned
  (node : AssignmentExpressionNode) (w : World Call Result Ext) :
  exists evs,
    log (world_of (Evaluate_AssignmentExpression node w)) = log w ++ evs /\
    (forall i e V W,
       evs !! i = Some e ->
       ev_call e = PutValue V W ->
       S i = List.length evs /\
       (exists first,
          head evs = Some first /\
          ev_call first = Evaluate_Expression (left node) /\
          V = unwrap (ev_resp first)) /\
       Evaluate_AssignmentExpression node w
       = Next (if isAbruptCompletion (ev_resp e) then ev_resp e else Plain W)
           (world_of (Evaluate_AssignmentExpression node w))) /\
    (forall v w',
       Evaluate_AssignmentExpression node w = Next (Plain v) w' ->
       evs = [] \/
       exists e V,
         last evs = Some e /\ ev_call e = PutValue V v /\
         isAbruptCompletion (ev_resp e) = false).
Proof.
  unfold_evaluator.
  repeat case_step;
    (eexists; split; [log_extension |]);
    cbn [app];
    (split;
     [intros i ev V W Hi Hcall;
      repeat (destruct i as [|i]; cbn in Hi; try discriminate);
      injection Hi as <-; cbn [ev_call ev_resp] in *;
      try discriminate;
      injection Hcall as <- <-;
      (split; [reflexivity |]);
      (split; [eexists; repeat split |]);
      rewrite ?A, ?A0, ?A1, ?A2, ?A3, ?A4, ?A5; reflexivity
     |intros v w' Hrun; try discriminate;
      first [left; reflexivity
            | exfalso; injection Hrun as Hv _;
              match goal with
              | H : isAbruptCompletion ?x = true |- _ =>
                  rewrite Hv in H; discriminate H
              end
            | right; do 2 eexists; cbn [last app];
              injection Hrun as <- _;
              repeat split; cbn [ev_resp]; assumption]]).
Qed.

(** What a run never calls.  The name inference (HasOwnProperty,
    GetReferencedName, SetFunctionName) runs only for a plain [=] whose
    source is an anonymous function definition and whose target is an
    identifier reference, never for a compound operator.  A binary operator
    is applied only for a compound operator, and it is the operator token
    without its last character.  No expression other than the target and
    the source of the node is evaluated.  For a plain [=] the old value of
    the target is never read: GetValue is called at most once, third, on
    what the source evaluated to. *)
Theorem calls_by_operator
  (node : AssignmentExpressionNode) (w : World Call Result Ext) :
  exists evs,
    log (world_of (Evaluate_AssignmentExpression node w)) = log w ++ evs /\
    forall i e,
      evs !! i = Some e ->
      (is_naming (ev_call e) = true ->
       operator node = "=" /\
       IsAnonymousFunctionDefinition (right node) = true /\
       IsIdentifierRef (left node) = true) /\
      (forall op a b,
         ev_call e = EvaluateBinopValues op a b ->
         operator node <> "=" /\ op = slice_0_m1 (operator node)) /\
      (forall n,
         ev_call e = Evaluate_Expression n ->
         n = left node \/ n = right node) /\
      (forall V,
         ev_call e = GetValue V ->
         operator node = "=" ->
         i = 2 /\
         exists source,
           evs !! 1 = Some source /\
           ev_call source = Evaluate_Expression (right node) /\
           V = unwrap (ev_resp source)).
Proof.
  unfold_evaluator.
  repeat case_step;
    (eexists; split; [log_extension |]);
    cbn [app];
    intros i ev Hi;
    repeat (destruct i as [|i]; cbn in Hi; try discriminate);
    injection Hi as <-; cbn [ev_call ev_resp is_naming];
    repeat match goal with
      | H : String.eqb _ _ = true |- _ => apply String.eqb_eq in H
      | H : String.eqb _ _ = false |- _ => apply String.eqb_neq in H
      end;
    (split; [intros Hn;
             first [discriminate
                   | repeat split; first [assumption | reflexivity]] |]);
    (split; [intros op a b Hc;
             first [discriminate
                   | injection Hc as <- _ _;
                     split; [assumption | reflexivity]] |]);
    (split; [intros nd Hc;
             first [discriminate
                   | injection Hc as <-;
                     first [left; reflexivity | right; reflexivity]] |]);
    intros V Hc Hop;
    first [discriminate | contradiction
          | injection Hc as <-;
            split; [reflexivity |];
            eexists; repeat split].
Qed.

End Evaluator.

(** *** A small engine to run the evaluator against

    Expressions are identifiers, string literals, function expressions and
    array/object literals; variables live in one global store; [+] joins
    strings. *)

Inductive DemoNode : Type :=
| Identifier (name : string)
| StringLiteral (s : string)
| FunctionExpression (id : option string)
| ArrayExpression (elements : list string)
| ObjectExpression.

Definition demo_isObjectLiteral (n : DemoNode) : bool :=
  match n with ObjectExpression => true | _ => false end.

Definition demo_isArrayLiteral (n : DemoNode) : bool :=
  match n with ArrayExpression _ => true | _ => false end.

Definition demo_IsAnonymousFunctionDefinition (n : DemoNode) : bool :=
  match n with FunctionExpression None => true | _ => false end.

Definition demo_IsIdentifierRef (n : DemoNode) : bool :=
  match n with Identifier _ => true | _ => false end.

Definition NormalCompletion (v : Value) : Result :=
  Completion normal v js_undefined.

Definition ThrowCompletion (v : Value) : Result :=
  Completion throw v js_undefined.

Definition name_descriptor (name : Value) : PropertyDescriptor :=
  {| desc_Value := name; desc_Get := js_undefined; desc_Set := js_undefined;
     desc_Writable := Value_false; desc_Enumerable := Value_false;
     desc_Configurable := Value_true |}.

Fixpoint store_get (x : string) (store : list (string * Value))
  : option Value :=
  match store with
  | [] => None
  | (y, v) :: rest => if String.eqb x y then Some v else store_get x rest
  end.

Fixpoint has_key (P : Value) (props : list (Value * PropertyDescriptor))
  : bool :=
  match props with
  | [] => false
  | (k, _) :: rest => if Value_eq_dec P k then true else has_key P rest
  end.

Definition demo_host : Host (@Call DemoNode) Result (list (string * Value)) :=
  fun c h store =>
    match c with
    | Evaluate_Expression (Identifier x) =>
        (NormalCompletion (Reference (js_string "global") (StringValue x)
                             Value_false), h, store)
    | Evaluate_Expression (StringLiteral s) => (Plain (StringValue s), h, store)
    | Evaluate_Expression (FunctionExpression id) =>
        let props := match id with
                     | Some n => [(StringValue "name",
                                   name_descriptor (StringValue n))]
                     | None => []
                     end in
        let '(l, h') := alloc (ObjectValue ∅ props) h in
        (Plain (Ref l), h', store)
    | Evaluate_Expression _ =>
        (ThrowCompletion (StringValue "SyntaxError"), h, store)
    | GetValue (Reference _ (StringValue x) _) =>
        match store_get x store with
        | Some v => (NormalCompletion v, h, store)
        | None => (ThrowCompletion (StringValue "ReferenceError"), h, store)
        end
    | GetValue v => (Plain v, h, store)
    | PutValue (Reference _ (StringValue x) _) v =>
        (NormalCompletion Value_undefined, h, (x, v) :: store)
    | PutValue _ _ => (ThrowCompletion (StringValue "ReferenceError"), h, store)
    | GetReferencedName (Reference _ n _) => (Plain n, h, store)
    | GetReferencedName _ => (Plain js_undefined, h, store)
    | HasOwnProperty (Ref l) P =>
        match h !! l with
        | Some (ObjectValue _ props) =>
            (NormalCompletion (if has_key P props then Value_true
                               else Value_false), h, store)
        | _ => (ThrowCompletion (StringValue "TypeError"), h, store)
        end
    | HasOwnProperty _ _ => (ThrowCompletion (StringValue "TypeError"), h, store)
    | SetFunctionName (Ref l) (Plain name) =>
        match h !! l with
        | Some (ObjectValue slots props) =>
            (NormalCompletion Value_true,
             <[l := ObjectValue slots
                      (props ++ [(StringValue "name", name_descriptor name)])]> h,
             store)
        | _ => (ThrowCompletion (StringValue "TypeError"), h, store)
        end
    | SetFunctionName _ _ => (ThrowCompletion (StringValue "TypeError"), h, store)
    | EvaluateBinopValues "+" (StringValue a) (StringValue b) =>
        (NormalCompletion (StringValue (String.append a b)), h, store)
    | EvaluateBinopValues _ _ _ =>
        (ThrowCompletion (StringValue "TypeError"), h, store)
    end.

Definition demo_eval :=
  Evaluate_AssignmentExpression
    demo_isObjectLiteral demo_isArrayLiteral
    demo_IsAnonymousFunctionDefinition demo_IsIdentifierRef demo_host.

(** A world where [x] holds ["a"]. *)
Definition demo_world : World (@Call DemoNode) Result (list (string * Value)) :=
  {| heap := []; ext := [("x", StringValue "a")]; log := [] |}.

(** [x += "b"] *)
Definition x_plus_b : AssignmentExpressionNode :=
  {| operator := "+="; left := Identifier "x"; right := StringLiteral "b" |}.

(** [f = function () {}] *)
Definition f_gets_function : AssignmentExpressionNode :=
  {| operator := "="; left := Identifier "f";
     right := FunctionExpression None |}.

(** [[a, b] = "ab"] *)
Definition array_pattern_target : AssignmentExpressionNode :=
  {| operator := "=";
     left := ArrayExpression ["a"; "b"];
     right := StringLiteral "ab" |}.

(** The compound assignment theorem at [x += "b"] on the small engine. *)
Lemma compound_assignment_steps_witness :
  exists v w' evs,
    demo_eval x_plus_b demo_world = Next v w' /\
    log w' = log demo_world ++ evs /\
    map ev_call evs !! 0 = Some (Evaluate_Expression (left x_plus_b)) /\
    (forall i n, map ev_call evs !! i = Some (Evaluate_Expression n) ->
                 i = 0 \/ (i = 2 /\ n = right x_plus_b)) /\
    (all_normal evs ->
     exists x1 x2 x3 x4 x5 x6,
       map ev_resp evs = [x1; x2; x3; x4; x5; x6] /\
       map ev_call evs =
         [Evaluate_Expression (left x_plus_b);
          GetValue (unwrap x1);
          Evaluate_Expression (right x_plus_b);
          GetValue (unwrap x3);
          EvaluateBinopValues "+" (unwrap x2) (unwrap x4);
          PutValue (unwrap x1) (unwrap x5)] /\
       v = Plain (unwrap x5)).
Proof.
  apply (compound_assignment_steps
           demo_isObjectLiteral demo_isArrayLiteral
           demo_IsAnonymousFunctionDefinition demo_IsIdentifierRef
           demo_host x_plus_b "+" demo_world).
  - reflexivity.
  - discriminate.
Defined.

(** On the small engine [x += "b"] with [x = "a"] yields ["ab"], stores it
    in [x], and makes the six calls in order. *)
Example x_plus_b_runs :
  exists w',
    demo_eval x_plus_b demo_world = Next (Plain (StringValue "ab")) w' /\
    store_get "x" (ext w') = Some (StringValue "ab") /\
    map ev_call (log w') =
      [Evaluate_Expression (Identifier "x");
       GetValue (Reference (js_string "global") (StringValue "x") Value_false);
       Evaluate_Expression (StringLiteral "b");
       GetValue (StringValue "b");
       EvaluateBinopValues "+" (StringValue "a") (StringValue "b");
       PutValue (Reference (js_string "global") (StringValue "x") Value_false)
         (StringValue "ab")].
Proof. eexists. split; [reflexivity | split; reflexivity]. Qed.

(** The name inference theorem at [f = function () {}] on the small
    engine. *)
Lemma anonymous_function_is_named_witness :
  exists evs,
    log (world_of (demo_eval f_gets_function demo_world))
    = log demo_world ++ evs /\
    (checked_normal evs ->
     exists x1 x2 x3 x4,
       firstn 4 (map ev_resp evs) = [x1; x2; x3; x4] /\
       firstn 4 (map ev_call evs) =
         [Evaluate_Expression (left f_gets_function);
          Evaluate_Expression (right f_gets_function);
          GetValue (unwrap x2);
          HasOwnProperty (unwrap x3) (NewValue "name")] /\
       (unwrap x4 = Value_false ->
        exists name x6 x7,
          skipn 4 (map ev_resp evs) = [name; x6; x7] /\
          skipn 4 (map ev_call evs) =
            [GetReferencedName (unwrap x1);
             SetFunctionName (unwrap x3) name;
             PutValue (unwrap x1) (unwrap x3)] /\
          demo_eval f_gets_function demo_world
          = Next (Plain (unwrap x3))
              (world_of (demo_eval f_gets_function demo_world))) /\
       (unwrap x4 = Value_true ->
        exists x5,
          skipn 4 (map ev_resp evs) = [x5] /\
          skipn 4 (map ev_call evs) = [PutValue (unwrap x1) (unwrap x3)] /\
          demo_eval f_gets_function demo_world
          = Next (Plain (unwrap x3))
              (world_of (demo_eval f_gets_function demo_world)))).
Proof.
  apply (anonymous_function_is_named
           demo_isObjectLiteral demo_isArrayLiteral
           demo_IsAnonymousFunctionDefinition demo_IsIdentifierRef
           demo_host f_gets_function demo_world);
    reflexivity.
Defined.

(** On the small engine, [f = function () {}] names the function ["f"];
    [f = function named () {}] leaves the name ["named"]. *)
Example anonymous_function_named_f :
  exists w',
    demo_eval f_gets_function demo_world = Next (Plain (Ref 0)) w' /\
    store_get "f" (ext w') = Some (Ref 0) /\
    own_properties (heap w') 0
    = [(StringValue "name", name_descriptor (StringValue "f"))].
Proof. eexists. split; [reflexivity | split; reflexivity]. Qed.

Example named_function_keeps_name :
  exists w',
    demo_eval {| operator := "="; left := Identifier "f";
                 right := FunctionExpression (Some "named") |} demo_world
    = Next (Plain (Ref 0)) w' /\
    own_properties (heap w') 0
    = [(StringValue "name", name_descriptor (StringValue "named"))].
Proof. eexists. split; reflexivity. Qed.

(** [x = "b"] *)
Definition x_gets_b : AssignmentExpressionNode :=
  {| operator := "="; left := Identifier "x"; right := StringLiteral "b" |}.

(** The plain assignment theorem at [x = "b"] on the small engine. *)
Lemma plain_assignment_steps_witness :
  exists v w' evs,
    demo_eval x_gets_b demo_world = Next v w' /\
    log w' = log demo_world ++ evs /\
    (all_normal evs ->
     exists x1 x2 x3 x4,
       map ev_resp evs = [x1; x2; x3; x4] /\
       map ev_call evs =
         [Evaluate_Expression (left x_gets_b);
          Evaluate_Expression (right x_gets_b);
          GetValue (unwrap x2);
          PutValue (unwrap x1) (unwrap x3)] /\
       v = Plain (unwrap x3)).
Proof.
  apply (plain_assignment_steps
           demo_isObjectLiteral demo_isArrayLiteral
           demo_IsAnonymousFunctionDefinition demo_IsIdentifierRef
           demo_host x_gets_b demo_world);
    reflexivity.
Defined.

(** On the small engine [x = "b"] stores ["b"] in [x] and yields it. *)
Example x_gets_b_runs :
  exists w',
    demo_eval x_gets_b demo_world = Next (Plain (StringValue "b")) w' /\
    store_get "x" (ext w') = Some (StringValue "b").
Proof. eexists. split; reflexivity. Qed.

(** When the target of a plain [=] is an object or array literal the
    evaluator makes no call at all, and ends without a [return]: the call
    evaluates to JavaScript's [undefined], which is no Completion and no
    engine value.  (ECMAScript's DestructuringAssignmentEvaluation step is
    not there.) *)
Lemma pattern_target_makes_no_call
  {Node Ext : Type} (isObj isArr isAnon isId : Node -> bool)
  (host : Host (@Call Node) Result Ext)
  (node : AssignmentExpressionNode) (w : World (@Call Node) Result Ext) :
  operator node = "=" ->
  isObj (left node) || isArr (left node) = true ->
  Evaluate_AssignmentExpression isObj isArr isAnon isId host node w
  = Next (Plain js_undefined) w.
Proof.
  intros Hop Hlit.
  unfold Evaluate_AssignmentExpression, function.
  rewrite Hop, String.eqb_refl.
  destruct (isObj (left node)), (isArr (left node));
    try discriminate; reflexivity.
Qed.

(** C4 (the code at a destructuring target).  [[a, b] = "ab"]: nothing is
    evaluated, nothing is assigned, and the result is [undefined]. *)
Example array_pattern_target_not_delegated :
  demo_eval array_pattern_target demo_world
  = Next (Plain js_undefined) demo_world.
Proof. reflexivity. Qed.

End Assignment.

(** ** Realms *)

Module RealmRecord.

(** The routines that populate the intrinsics, one per built-in. *)
Inductive BootstrapRoutine : Type :=
| bootstrapFunctionPrototype
| bootstrapObjectPrototype
| bootstrapThrowTypeError
| bootstrapEval
| bootstrapIsFinite
| bootstrapIsNaN
| bootstrapParseFloat
| bootstrapParseInt
| bootstrapURIHandling
| bootstrapObject
| bootstrapErrorPrototype
| bootstrapError
| bootstrapNativeError
| bootstrapAggregateErrorPrototype
| bootstrapAggregateError
| bootstrapFunction
| bootstrapIteratorPrototype
| bootstrapAsyncIteratorPrototype
| bootstrapArrayIteratorPrototype
| bootstrapMapIteratorPrototype
| bootstrapSetIteratorPrototype
| bootstrapStringIteratorPrototype
| bootstrapRegExpStringIteratorPrototype
| bootstrapForInIteratorPrototype
| bootstrapStringPrototype
| bootstrapString
| bootstrapArrayPrototype
| bootstrapArray
| bootstrapBooleanPrototype
| bootstrapBoolean
| bootstrapNumberPrototype
| bootstrapNumber
| bootstrapBigIntPrototype
| bootstrapBigInt
| bootstrapSymbolPrototype
| bootstrapSymbol
| bootstrapPromisePrototype
| bootstrapPromise
| bootstrapProxy
| bootstrapReflect
| bootstrapMath
| bootstrapDatePrototype
| bootstrapDate
| bootstrapRegExpPrototype
| bootstrapRegExp
| bootstrapSetPrototype
| bootstrapSet
| bootstrapMapPrototype
| bootstrapMap
| bootstrapGeneratorFunctionPrototypePrototype
| bootstrapGeneratorFunctionPrototype
| bootstrapGeneratorFunction
| bootstrapAsyncFunctionPrototype
| bootstrapAsyncFunction
| bootstrapAsyncGeneratorFunctionPrototypePrototype
| bootstrapAsyncGeneratorFunctionPrototype
| bootstrapAsyncGeneratorFunction
| bootstrapAsyncFromSyncIteratorPrototype
| bootstrapArrayBufferPrototype
| bootstrapArrayBuffer
| bootstrapTypedArrayPrototype
| bootstrapTypedArray
| bootstrapTypedArrayPrototypes
| bootstrapTypedArrayConstructors
| bootstrapDataViewPrototype
| bootstrapDataView
| bootstrapJSON
| bootstrapWeakMapPrototype
| bootstrapWeakMap
| bootstrapWeakSetPrototype
| bootstrapWeakSet
| bootstrapWeakRefPrototype
| bootstrapWeakRef
| bootstrapFinalizationRegistryPrototype
| bootstrapFinalizationRegistry.

(** The operations imported from the rest of the engine. *)
Inductive Call : Type :=
| bootstrap (routine : BootstrapRoutine) (realmRec : Value)
| AddRestrictedFunctionProperties (F realm : Value)
| DefinePropertyOrThrow (O P : Value) (desc : PropertyDescriptor).

(** The families of built-ins in the documented construction order, as the
    documentation groups and orders them: "function/object primitives, global
    functions, Object constructor, Error family, Function, iterator family,
    primitive wrapper types, Promise, Proxy/Reflect, Math, Date/RegExp,
    collection types (Set, Map, WeakMap/WeakSet/WeakRef,
    FinalizationRegistry), generator/async-function families, typed-array
    family, DataView/JSON". *)
Inductive Family : Type :=
| FunctionObjectPrimitives
| GlobalFunctions
| ObjectConstructor
| ErrorFamily
| FunctionConstructor
| IteratorFamily
| PrimitiveWrappers
| PromiseFamily
| ProxyReflect
| MathObject
| DateRegExp
| CollectionTypes
| GeneratorAsyncFunctions
| TypedArrayFamily
| DataViewJSON.

Lemma Family_eq_dec (x y : Family) : {x = y} + {x <> y}.
Proof. decide equality. Defined.

(** The family of each routine.  The async-from-sync iterator prototype is
    counted with the async-function families and ArrayBuffer with the typed
    arrays, next to which they are built. *)
Definition family (b : BootstrapRoutine) : Family :=
  match b with
  | bootstrapFunctionPrototype | bootstrapObjectPrototype | bootstrapThrowTypeError => FunctionObjectPrimitives
  | bootstrapEval | bootstrapIsFinite | bootstrapIsNaN | bootstrapParseFloat
  | bootstrapParseInt | bootstrapURIHandling => GlobalFunctions
  | bootstrapObject => ObjectConstructor
  | bootstrapErrorPrototype | bootstrapError | bootstrapNativeError
  | bootstrapAggregateErrorPrototype | bootstrapAggregateError => ErrorFamily
  | bootstrapFunction => FunctionConstructor
  | bootstrapIteratorPrototype | bootstrapAsyncIteratorPrototype
  | bootstrapArrayIteratorPrototype | bootstrapMapIteratorPrototype
  | bootstrapSetIteratorPrototype | bootstrapStringIteratorPrototype
  | bootstrapRegExpStringIteratorPrototype | bootstrapForInIteratorPrototype => IteratorFamily
  | bootstrapStringPrototype | bootstrapString | bootstrapArrayPrototype
  | bootstrapArray | bootstrapBooleanPrototype | bootstrapBoolean
  | bootstrapNumberPrototype | bootstrapNumber | bootstrapBigIntPrototype
  | bootstrapBigInt | bootstrapSymbolPrototype | bootstrapSymbol => PrimitiveWrappers
  | bootstrapPromisePrototype | bootstrapPromise => PromiseFamily
  | bootstrapProxy | bootstrapReflect => ProxyReflect
  | bootstrapMath => MathObject
  | bootstrapDatePrototype | bootstrapDate | bootstrapRegExpPrototype
  | bootstrapRegExp => DateRegExp
  | bootstrapSetPrototype | bootstrapSet | bootstrapMapPrototype
  | bootstrapMap | bootstrapWeakMapPrototype | bootstrapWeakMap | bootstrapWeakSetPrototype
  | bootstrapWeakSet | bootstrapWeakRefPrototype | bootstrapWeakRef
  | bootstrapFinalizationRegistryPrototype | bootstrapFinalizationRegistry => CollectionTypes
  | bootstrapGeneratorFunctionPrototypePrototype | bootstrapGeneratorFunctionPrototype
  | bootstrapGeneratorFunction | bootstrapAsyncFunctionPrototype
  | bootstrapAsyncFunction | bootstrapAsyncGeneratorFunctionPrototypePrototype
  | bootstrapAsyncGeneratorFunctionPrototype | bootstrapAsyncGeneratorFunction
  | bootstrapAsyncFromSyncIteratorPrototype => GeneratorAsyncFunctions
  | bootstrapArrayBufferPrototype | bootstrapArrayBuffer | bootstrapTypedArrayPrototype
  | bootstrapTypedArray | bootstrapTypedArrayPrototypes | bootstrapTypedArrayConstructors => TypedArrayFamily
  | bootstrapDataViewPrototype | bootstrapDataView | bootstrapJSON => DataViewJSON
  end.

(** The documented order of the families. *)
Definition documented_order : list Family :=
  [FunctionObjectPrimitives; GlobalFunctions; ObjectConstructor; ErrorFamily;
   FunctionConstructor; IteratorFamily; PrimitiveWrappers; PromiseFamily;
   ProxyReflect; MathObject; DateRegExp; CollectionTypes;
   GeneratorAsyncFunctions; TypedArrayFamily; DataViewJSON].

(** The place of a family in the documented order. *)
Fixpoint index_of (f : Family) (l : list Family) : nat :=
  match l with
  | [] => 0
  | g :: rest => if Family_eq_dec f g then 0 else S (index_of f rest)
  end.

Definition rank (f : Family) : nat := index_of f documented_order.

(** A list of families with each run of equal neighbours written once. *)
Fixpoint runs (l : list Family) : list Family :=
  match l with
  | [] => []
  | f :: rest =>
      match rest with
      | g :: _ => if Family_eq_dec f g then runs rest else f :: runs rest
      | [] => [f]
      end
  end.

Section Construction.
Context {Ext : Type}.
#[local] Abbreviation Stmt := (Stmt Call Result Ext).
Variable host : Host Call Result Ext.

(** [a === b] on values. *)
Definition strict_equal (a b : Value) : bool :=
  if Value_eq_dec a b then true else false.

(** [new Realm()]: the constructor of the class [Realm] sets the six
    fields [Intrinsics], [GlobalObject], [GlobalEnv], [TemplateMap],
    [HostDefined] and [randomState] to [undefined]. *)
Definition new_Realm : Stmt Value :=
  new (Realm js_undefined js_undefined js_undefined js_undefined js_undefined
         js_undefined).

(** Modelled from the spec: [new ObjectValue(internalSlotsList)] of
    [value.mjs], which is not among the sources: an object with no slot set
    and no own property. *)
Definition new_ObjectValue (internalSlotsList : list string) : Stmt Value :=
  new (ObjectValue ∅ []).

(** Modelled from the spec: [new ObjectEnvironmentRecord()] of
    [environment.mjs], which is not among the sources: the fields
    [bindingObject], [isWithEnvironment] and the outer environment, unset. *)
Definition new_ObjectEnvironmentRecord : Stmt Value :=
  new (ObjectEnvironmentRecord js_undefined js_undefined js_undefined).

(** Modelled from the spec: [new DeclarativeEnvironmentRecord(outerEnv)] of
    [environment.mjs], which is not among the sources: "mapping from binding
    name to (value, mutable flag, initialized flag)", empty at first, and
    the outer environment given. *)
Definition new_DeclarativeEnvironmentRecord (outerEnv : Value) : Stmt Value :=
  new (DeclarativeEnvironmentRecord [] outerEnv).

(** Modelled from the spec: [new GlobalEnvironmentRecord()] of
    [environment.mjs], which is not among the sources: "owns one Declarative
    record and one Object record plus globalThisValue and the ordered list
    of declared var names", all unset. *)
Definition new_GlobalEnvironmentRecord : Stmt Value :=
  new (GlobalEnvironmentRecord js_undefined js_undefined js_undefined
         js_undefined js_undefined).

(** Modelled from the spec: [toNumberValue(x)] of [value.mjs], the engine's
    Number value of a JavaScript number. *)
Definition toNumberValue (x : spec_float) : Value := NumberValue x.

Definition Infinity : spec_float := S754_infinity false.
Definition NaN : spec_float := S754_nan.

(** Modelled from the spec: [Descriptor({ Value, Writable, Enumerable,
    Configurable })] of the engine, a data Property Descriptor with the four
    fields given and no accessor. *)
Definition Descriptor (Value_ Writable Enumerable Configurable : Value)
  : PropertyDescriptor :=
  {| desc_Value := Value_; desc_Get := js_undefined; desc_Set := js_undefined;
     desc_Writable := Writable; desc_Enumerable := Enumerable;
     desc_Configurable := Configurable |}.

Definition includes (l : list string) (s : string) : bool :=
  existsb (String.eqb s) l.

Definition MakeBasicObject (internalSlotsList : list string) : Stmt Value :=
  (* Assert(Array.isArray(internalSlotsList)) *)
  let* obj := new_ObjectValue internalSlotsList in
  do forEach internalSlotsList (fun s => set_field obj s Value_undefined) in
  do (if includes internalSlotsList "Extensible"
      then set_field obj "Extensible" Value_true
      else ret tt) in
  ret obj.

Definition OrdinaryObjectCreate
  (proto : Value) (additionalInternalSlotsList : option (list string))
  : Stmt Value :=
  let internalSlotsList := ["Prototype"; "Extensible"] in
  let internalSlotsList :=
    match additionalInternalSlotsList with
    | Some more => internalSlotsList ++ more
    | None => internalSlotsList
    end in
  let* O := X (let* obj := MakeBasicObject internalSlotsList in
               ret (Plain obj)) in
  do set_field O "Prototype" proto in
  ret O.

Definition CreateIntrinsics (realmRec : Value) : Stmt Value :=
  let* intrinsics := new (PlainObject ∅) in
  do set_field realmRec "Intrinsics" intrinsics in
  let* proto := OrdinaryObjectCreate Value_null None in
  do set_field intrinsics "%Object.prototype%" proto in
  do perform host (bootstrap bootstrapFunctionPrototype realmRec) in
  do perform host (bootstrap bootstrapObjectPrototype realmRec) in
  do perform host (bootstrap bootstrapThrowTypeError realmRec) in
  do perform host (bootstrap bootstrapEval realmRec) in
  do perform host (bootstrap bootstrapIsFinite realmRec) in
  do perform host (bootstrap bootstrapIsNaN realmRec) in
  do perform host (bootstrap bootstrapParseFloat realmRec) in
  do perform host (bootstrap bootstrapParseInt realmRec) in
  do perform host (bootstrap bootstrapURIHandling realmRec) in
  do perform host (bootstrap bootstrapObject realmRec) in
  do perform host (bootstrap bootstrapErrorPrototype realmRec) in
  do perform host (bootstrap bootstrapError realmRec) in
  do perform host (bootstrap bootstrapNativeError realmRec) in
  do perform host (bootstrap bootstrapAggregateErrorPrototype realmRec) in
  do perform host (bootstrap bootstrapAggregateError realmRec) in
  do perform host (bootstrap bootstrapFunction realmRec) in
  do perform host (bootstrap bootstrapIteratorPrototype realmRec) in
  do perform host (bootstrap bootstrapAsyncIteratorPrototype realmRec) in
  do perform host (bootstrap bootstrapArrayIteratorPrototype realmRec) in
  do perform host (bootstrap bootstrapMapIteratorPrototype realmRec) in
  do perform host (bootstrap bootstrapSetIteratorPrototype realmRec) in
  do perform host (bootstrap bootstrapStringIteratorPrototype realmRec) in
  do perform host (bootstrap bootstrapRegExpStringIteratorPrototype realmRec) in
  do perform host (bootstrap bootstrapForInIteratorPrototype realmRec) in
  do perform host (bootstrap bootstrapStringPrototype realmRec) in
  do perform host (bootstrap bootstrapString realmRec) in
  do perform host (bootstrap bootstrapArrayPrototype realmRec) in
  do perform host (bootstrap bootstrapArray realmRec) in
  do perform host (bootstrap bootstrapBooleanPrototype realmRec) in
  do perform host (bootstrap bootstrapBoolean realmRec) in
  do perform host (bootstrap bootstrapNumberPrototype realmRec) in
  do perform host (bootstrap bootstrapNumber realmRec) in
  do perform host (bootstrap bootstrapBigIntPrototype realmRec) in
  do perform host (bootstrap bootstrapBigInt realmRec) in
  do perform host (bootstrap bootstrapSymbolPrototype realmRec) in
  do perform host (bootstrap bootstrapSymbol realmRec) in
  do perform host (bootstrap bootstrapPromisePrototype realmRec) in
  do perform host (bootstrap bootstrapPromise realmRec) in
  do perform host (bootstrap bootstrapProxy realmRec) in
  do perform host (bootstrap bootstrapReflect realmRec) in
  do perform host (bootstrap bootstrapMath realmRec) in
  do perform host (bootstrap bootstrapDatePrototype realmRec) in
  do perform host (bootstrap bootstrapDate realmRec) in
  do perform host (bootstrap bootstrapRegExpPrototype realmRec) in
  do perform host (bootstrap bootstrapRegExp realmRec) in
  do perform host (bootstrap bootstrapSetPrototype realmRec) in
  do perform host (bootstrap bootstrapSet realmRec) in
  do perform host (bootstrap bootstrapMapPrototype realmRec) in
  do perform host (bootstrap bootstrapMap realmRec) in
  do perform host (bootstrap bootstrapGeneratorFunctionPrototypePrototype realmRec) in
  do perform host (bootstrap bootstrapGeneratorFunctionPrototype realmRec) in
  do perform host (bootstrap bootstrapGeneratorFunction realmRec) in
  do perform host (bootstrap bootstrapAsyncFunctionPrototype realmRec) in
  do perform host (bootstrap bootstrapAsyncFunction realmRec) in
  do perform host (bootstrap bootstrapAsyncGeneratorFunctionPrototypePrototype realmRec) in
  do perform host (bootstrap bootstrapAsyncGeneratorFunctionPrototype realmRec) in
  do perform host (bootstrap bootstrapAsyncGeneratorFunction realmRec) in
  do perform host (bootstrap bootstrapAsyncFromSyncIteratorPrototype realmRec) in
  do perform host (bootstrap bootstrapArrayBufferPrototype realmRec) in
  do perform host (bootstrap bootstrapArrayBuffer realmRec) in
  do perform host (bootstrap bootstrapTypedArrayPrototype realmRec) in
  do perform host (bootstrap bootstrapTypedArray realmRec) in
  do perform host (bootstrap bootstrapTypedArrayPrototypes realmRec) in
  do perform host (bootstrap bootstrapTypedArrayConstructors realmRec) in
  do perform host (bootstrap bootstrapDataViewPrototype realmRec) in
  do perform host (bootstrap bootstrapDataView realmRec) in
  do perform host (bootstrap bootstrapJSON realmRec) in
  do perform host (bootstrap bootstrapWeakMapPrototype realmRec) in
  do perform host (bootstrap bootstrapWeakMap realmRec) in
  do perform host (bootstrap bootstrapWeakSetPrototype realmRec) in
  do perform host (bootstrap bootstrapWeakSet realmRec) in
  do perform host (bootstrap bootstrapWeakRefPrototype realmRec) in
  do perform host (bootstrap bootstrapWeakRef realmRec) in
  do perform host (bootstrap bootstrapFinalizationRegistryPrototype realmRec) in
  do perform host (bootstrap bootstrapFinalizationRegistry realmRec) in
  let* F := get_field intrinsics "%Function.prototype%" in
  do perform host (AddRestrictedFunctionProperties F realmRec) in
  ret intrinsics.

Definition CreateRealm : Stmt Value :=
  let* realmRec := new_Realm in
  do CreateIntrinsics realmRec in
  do set_field realmRec "GlobalObject" Value_undefined in
  do set_field realmRec "GlobalEnv" Value_undefined in
  let* empty := new (ArrayObject []) in
  do set_field realmRec "TemplateMap" empty in
  ret realmRec.

Definition NewObjectEnvironment (BindingObject W OuterEnv : Value)
  : Stmt Value :=
  let* env := new_ObjectEnvironmentRecord in
  do set_field env "BindingObject" BindingObject in
  do set_field env "IsWithEnvironment" W in
  do set_field env "OuterEnv" OuterEnv in
  ret env.

Definition NewGlobalEnvironment (GlobalObject thisValue : Value)
  : Stmt Value :=
  let* objRec := NewObjectEnvironment GlobalObject Value_false Value_null in
  let* dclRec := new_DeclarativeEnvironmentRecord Value_null in
  let* env := new_GlobalEnvironmentRecord in
  do set_field env "ObjectRecord" objRec in
  do set_field env "GlobalThisValue" thisValue in
  do set_field env "DeclarativeRecord" dclRec in
  let* empty := new (ArrayObject []) in
  do set_field env "VarNames" empty in
  do set_field env "OuterEnv" Value_null in
  ret env.

Definition SetRealmGlobalObject (realmRec globalObj thisValue : Value)
  : Stmt Value :=
  let* intrinsics := get_field realmRec "Intrinsics" in
  let* globalObj :=
    if strict_equal globalObj Value_undefined then
      let* proto := get_field intrinsics "%Object.prototype%" in
      OrdinaryObjectCreate proto None
    else ret globalObj in
  let thisValue :=
    if strict_equal thisValue Value_undefined then globalObj
    else thisValue in
  do set_field realmRec "GlobalObject" globalObj in
  let* newGlobalEnv := NewGlobalEnvironment globalObj thisValue in
  do set_field realmRec "GlobalEnv" newGlobalEnv in
  ret realmRec.

(** The three lists of [SetDefaultGlobalBindings]. *)
Definition value_properties : list (string * Value) :=
  [("Infinity", toNumberValue Infinity);
   ("NaN", toNumberValue NaN);
   ("undefined", Value_undefined)].

Definition global_names : list string :=
  (* Function Properties of the Global Object *)
  ["eval"; "isFinite"; "isNaN"; "parseFloat";
   "parseInt"; "decodeURI"; "decodeURIComponent"; "encodeURI";
   "encodeURIComponent";
   (* Constructor Properties of the Global Object *)
   "AggregateError"; "Array"; "ArrayBuffer"; "Boolean";
   "BigInt"; "BigInt64Array"; "BigUint64Array"; "DataView";
   "Date"; "Error"; "EvalError"; "FinalizationRegistry";
   "Float32Array"; "Float64Array"; "Function"; "Int8Array";
   "Int16Array"; "Int32Array"; "Map"; "Number";
   "Object"; "Promise"; "Proxy"; "RangeError";
   "ReferenceError"; "RegExp"; "Set"; "String";
   "Symbol"; "SyntaxError"; "TypeError"; "Uint8Array";
   "Uint8ClampedArray"; "Uint16Array"; "Uint32Array"; "URIError";
   "WeakMap"; "WeakRef"; "WeakSet";
   (* Other Properties of the Global Object *)
   "JSON"; "Math"; "Reflect"].

Definition SetDefaultGlobalBindings (realmRec : Value) : Stmt Result :=
  function (
    let* global := get_field realmRec "GlobalObject" in
    (* Value Properties of the Global Object *)
    do forEach value_properties (fun '(name, value) =>
         do Q (perform host
                 (DefinePropertyOrThrow global (NewValue name)
                    (Descriptor value Value_false Value_false Value_false))) in
         ret tt) in
    let* GlobalEnv := get_field realmRec "GlobalEnv" in
    let* GlobalThisValue := get_field GlobalEnv "GlobalThisValue" in
    do Q (perform host
            (DefinePropertyOrThrow global (NewValue "globalThis")
               (Descriptor GlobalThisValue Value_true Value_false
                  Value_true))) in
    do forEach global_names (fun name =>
         let* Intrinsics := get_field realmRec "Intrinsics" in
         let* intrinsic :=
           get_field Intrinsics
             (String.append "%" (String.append name "%")) in
         do Q (perform host
                 (DefinePropertyOrThrow global (NewValue name)
                    (Descriptor intrinsic Value_true Value_false
                       Value_true))) in
         ret tt) in
    Return (Plain global)).

(** The bootstrap routines in the order [CreateIntrinsics] calls them. *)
Definition bootstrap_sequence : list BootstrapRoutine :=
  [bootstrapFunctionPrototype; bootstrapObjectPrototype;
   bootstrapThrowTypeError; bootstrapEval;
   bootstrapIsFinite; bootstrapIsNaN;
   bootstrapParseFloat; bootstrapParseInt;
   bootstrapURIHandling; bootstrapObject;
   bootstrapErrorPrototype; bootstrapError;
   bootstrapNativeError; bootstrapAggregateErrorPrototype;
   bootstrapAggregateError; bootstrapFunction;
   bootstrapIteratorPrototype; bootstrapAsyncIteratorPrototype;
   bootstrapArrayIteratorPrototype; bootstrapMapIteratorPrototype;
   bootstrapSetIteratorPrototype; bootstrapStringIteratorPrototype;
   bootstrapRegExpStringIteratorPrototype; bootstrapForInIteratorPrototype;
   bootstrapStringPrototype; bootstrapString;
   bootstrapArrayPrototype; bootstrapArray;
   bootstrapBooleanPrototype; bootstrapBoolean;
   bootstrapNumberPrototype; bootstrapNumber;
   bootstrapBigIntPrototype; bootstrapBigInt;
   bootstrapSymbolPrototype; bootstrapSymbol;
   bootstrapPromisePrototype; bootstrapPromise;
   bootstrapProxy; bootstrapReflect;
   bootstrapMath; bootstrapDatePrototype;
   bootstrapDate; bootstrapRegExpPrototype;
   bootstrapRegExp; bootstrapSetPrototype;
   bootstrapSet; bootstrapMapPrototype;
   bootstrapMap; bootstrapGeneratorFunctionPrototypePrototype;
   bootstrapGeneratorFunctionPrototype; bootstrapGeneratorFunction;
   bootstrapAsyncFunctionPrototype; bootstrapAsyncFunction;
   bootstrapAsyncGeneratorFunctionPrototypePrototype; bootstrapAsyncGeneratorFunctionPrototype;
   bootstrapAsyncGeneratorFunction; bootstrapAsyncFromSyncIteratorPrototype;
   bootstrapArrayBufferPrototype; bootstrapArrayBuffer;
   bootstrapTypedArrayPrototype; bootstrapTypedArray;
   bootstrapTypedArrayPrototypes; bootstrapTypedArrayConstructors;
   bootstrapDataViewPrototype; bootstrapDataView;
   bootstrapJSON; bootstrapWeakMapPrototype;
   bootstrapWeakMap; bootstrapWeakSetPrototype;
   bootstrapWeakSet; bootstrapWeakRefPrototype;
   bootstrapWeakRef; bootstrapFinalizationRegistryPrototype;
   bootstrapFinalizationRegistry].

(** *** Reading and writing the heap *)

#[local] Abbreviation World := (World Call Result Ext).

Lemma new_eq (c : Cell) (h : list Cell) (e : Ext) (lg : list (Event Call Result)) :
  new c {| heap := h; ext := e; log := lg |}
  = Next (Ref (List.length h)) {| heap := h ++ [c]; ext := e; log := lg |}.
Proof. reflexivity. Qed.

Lemma set_field_last (h : list Cell) (c c' : Cell) (name : string) (v : Value)
  (e : Ext) (lg : list (Event Call Result)) :
  cell_set_field c name v = Some c' ->
  set_field (Ref (List.length h)) name v
    {| heap := h ++ [c]; ext := e; log := lg |}
  = Next tt {| heap := h ++ [c']; ext := e; log := lg |}.
Proof.
  intros Hset. unfold set_field. cbn [heap ext log].
  rewrite list_lookup_middle by reflexivity. rewrite Hset.
  rewrite insert_app_r_alt by lia. rewrite Nat.sub_diag. reflexivity.
Qed.

Lemma set_field_before_last (h : list Cell) (n : nat) (c c' d : Cell)
  (name : string) (v : Value) (e : Ext) (lg : list (Event Call Result)) :
  n = List.length h ->
  cell_set_field c name v = Some c' ->
  set_field (Ref n) name v
    {| heap := (h ++ [c]) ++ [d]; ext := e; log := lg |}
  = Next tt {| heap := (h ++ [c']) ++ [d]; ext := e; log := lg |}.
Proof.
  intros -> Hset. unfold set_field. cbn [heap ext log].
  rewrite <- !app_assoc. cbn [app].
  rewrite list_lookup_middle by reflexivity. rewrite Hset.
  rewrite insert_app_r_alt by lia. rewrite Nat.sub_diag. reflexivity.
Qed.

Lemma set_field_old (h more : list Cell) (l : nat) (c c' : Cell)
  (name : string) (v : Value) (e : Ext) (lg : list (Event Call Result)) :
  h !! l = Some c ->
  cell_set_field c name v = Some c' ->
  set_field (Ref l) name v {| heap := h ++ more; ext := e; log := lg |}
  = Next tt {| heap := <[l := c']> h ++ more; ext := e; log := lg |}.
Proof.
  intros Hl Hset. unfold set_field. cbn [heap ext log].
  pose proof (lookup_lt_Some _ _ _ Hl) as Hlt.
  rewrite lookup_app_l by exact Hlt. rewrite Hl, Hset.
  rewrite insert_app_l by exact Hlt. reflexivity.
Qed.

Lemma set_field_at (h : list Cell) (l : nat) (c c' : Cell)
  (name : string) (v : Value) (e : Ext) (lg : list (Event Call Result)) :
  h !! l = Some c ->
  cell_set_field c name v = Some c' ->
  set_field (Ref l) name v {| heap := h; ext := e; log := lg |}
  = Next tt {| heap := <[l := c']> h; ext := e; log := lg |}.
Proof.
  intros Hl Hset. unfold set_field. cbn [heap ext log].
  rewrite Hl, Hset. reflexivity.
Qed.

(** The slots of an ordinary object with prototype [proto]. *)
Definition ordinary_slots (proto : Value) : gmap string Value :=
  <["Prototype" := proto]> (<["Extensible" := Value_true]> ∅).

Lemma OrdinaryObjectCreate_eq (proto : Value) (h : list Cell) (e : Ext)
  (lg : list (Event Call Result)) :
  OrdinaryObjectCreate proto None {| heap := h; ext := e; log := lg |}
  = Next (Ref (List.length h))
      {| heap := h ++ [ObjectValue (ordinary_slots proto) []];
         ext := e; log := lg |}.
Proof.
  unfold OrdinaryObjectCreate, MakeBasicObject, new_ObjectValue, X.
  unfold bind at 1. unfold bind at 1. unfold bind at 1. unfold bind at 1.
  rewrite new_eq.
  cbn [forEach]. unfold bind, function, ret.
  erewrite set_field_last by reflexivity.
  erewrite set_field_last by reflexivity.
  match goal with
  | |- context [includes ?l ?s] =>
      let b := eval vm_compute in (includes l s) in
      change (includes l s) with b
  end.
  cbv beta iota.
  erewrite set_field_last by reflexivity.
  cbn [isAbruptCompletion unwrap]. cbv beta iota.
  erewrite set_field_last by reflexivity.
  reflexivity.
Qed.

Lemma NewObjectEnvironment_eq (BindingObject W OuterEnv : Value)
  (h : list Cell) (e : Ext) (lg : list (Event Call Result)) :
  NewObjectEnvironment BindingObject W OuterEnv
    {| heap := h; ext := e; log := lg |}
  = Next (Ref (List.length h))
      {| heap := h ++ [ObjectEnvironmentRecord BindingObject W OuterEnv];
         ext := e; log := lg |}.
Proof.
  unfold NewObjectEnvironment, new_ObjectEnvironmentRecord, bind, ret.
  rewrite new_eq.
  do 3 (erewrite set_field_last by reflexivity).
  reflexivity.
Qed.

Lemma NewGlobalEnvironment_eq (GlobalObject thisValue : Value)
  (h : list Cell) (e : Ext) (lg : list (Event Call Result)) :
  NewGlobalEnvironment GlobalObject thisValue
    {| heap := h; ext := e; log := lg |}
  = Next (Ref (List.length h + 2))
      {| heap :=
           h ++ [ObjectEnvironmentRecord GlobalObject Value_false Value_null;
                 DeclarativeEnvironmentRecord [] Value_null;
                 GlobalEnvironmentRecord
                   (Ref (List.length h)) thisValue (Ref (List.length h + 1))
                   (Ref (List.length h + 3)) Value_null;
                 ArrayObject []];
         ext := e; log := lg |}.
Proof.
  unfold NewGlobalEnvironment, new_DeclarativeEnvironmentRecord,
    new_GlobalEnvironmentRecord.
  unfold bind, ret.
  rewrite NewObjectEnvironment_eq, !new_eq.
  do 3 (erewrite set_field_last by reflexivity).
  rewrite new_eq.
  do 2 (erewrite set_field_before_last by reflexivity).
  rewrite !length_app. cbn [List.length].
  rewrite <- !app_assoc. cbn [app].
  replace (List.length h + 1 + 1) with (List.length h + 2) by lia.
  replace (List.length h + 2 + 1) with (List.length h + 3) by lia.
  reflexivity.
Qed.

(** C6. On a realm whose intrinsics are built, [SetRealmGlobalObject]
    makes no call to the rest of the engine and returns the realm.  The
    global object is [globalObj], or, when that is [Value.undefined], a new
    object (at an address the heap did not have) with slots [Prototype] =
    [%Object.prototype%] and [Extensible] = true, and no own property.  The
    [this] value is [thisValue], or the global object when that is
    [Value.undefined].  Afterwards the realm's [GlobalObject] is the global
    object and its [GlobalEnv] is a new Global Environment Record whose
    Object record binds the global object with [IsWithEnvironment] false,
    whose Declarative record is new and has no binding, whose
    [GlobalThisValue] is the [this] value, whose [VarNames] is a new empty
    list and whose [OuterEnv] is null. *)
Theorem SetRealmGlobalObject_builds_global_environment
  (l : nat) (intrinsics proto globalObj thisValue : Value)
  (g0 e0 tm hd rs : Value) (w : World) :
  heap w !! l = Some (Realm intrinsics g0 e0 tm hd rs) ->
  field (heap w) intrinsics "%Object.prototype%" = Some proto ->
  let n := List.length (heap w) in
  let global :=
    if strict_equal globalObj Value_undefined then Ref n else globalObj in
  let this :=
    if strict_equal thisValue Value_undefined then global else thisValue in
  exists w' objRec dclRec env varNames,
    SetRealmGlobalObject (Ref l) globalObj thisValue w = Next (Ref l) w' /\
    log w' = log w /\
    (strict_equal globalObj Value_undefined = true ->
     heap w !! n = None /\
     heap w' !! n = Some (ObjectValue (ordinary_slots proto) [])) /\
    heap w' !! l = Some (Realm intrinsics global (Ref env) tm hd rs) /\
    heap w' !! env
    = Some (GlobalEnvironmentRecord (Ref objRec) this (Ref dclRec)
              (Ref varNames) Value_null) /\
    heap w' !! objRec
    = Some (ObjectEnvironmentRecord global Value_false Value_null) /\
    heap w' !! dclRec = Some (DeclarativeEnvironmentRecord [] Value_null) /\
    heap w' !! varNames = Some (ArrayObject []) /\
    heap w !! objRec = None /\ heap w !! dclRec = None /\
    heap w !! env = None /\ heap w !! varNames = None.
Proof.
  destruct w as [h e lg]. cbn [heap log].
  intros Hl Hproto.
  pose proof (lookup_lt_Some _ _ _ Hl) as Hlt.
  assert (Hfresh : forall k, h !! (List.length h + k) = None)
    by (intros k; apply lookup_ge_None; lia).
  assert (Hnew : forall (R : Cell) (more : list Cell) k c,
             more !! k = Some c ->
             (<[l := R]> h ++ more) !! (List.length h + k) = Some c).
  { intros R more k c Hk.
    rewrite lookup_app_r by (rewrite length_insert; lia).
    rewrite length_insert.
    replace (List.length h + k - List.length h) with k by lia. exact Hk. }
  assert (Hnew0 : forall (R : Cell) (more : list Cell) c,
             more !! 0 = Some c ->
             (<[l := R]> h ++ more) !! List.length h = Some c).
  { intros R more c Hk. rewrite <- (Nat.add_0_r (List.length h)).
    apply Hnew. exact Hk. }
  assert (Hfresh0 : h !! List.length h = None)
    by (apply lookup_ge_None; lia).
  assert (Hrealm : forall (R : Cell) (more : list Cell),
             (<[l := R]> h ++ more) !! l = Some R).
  { intros R more. rewrite lookup_app_l by (rewrite length_insert; lia).
    apply list_lookup_insert_eq. exact Hlt. }
  assert (Hi : field h (Ref l) "Intrinsics" = Some intrinsics)
    by (unfold field; rewrite Hl; reflexivity).
  unfold SetRealmGlobalObject, bind, ret, get_field.
  cbn [heap]. rewrite Hi.
  cbv beta iota.
  destruct (strict_equal globalObj Value_undefined) eqn:Hg.
  - cbn [heap]. rewrite Hproto. cbv beta iota.
    rewrite OrdinaryObjectCreate_eq.
    erewrite set_field_old by (first [eassumption | reflexivity]).
    rewrite NewGlobalEnvironment_eq.
    rewrite <- app_assoc.
    erewrite set_field_old
      by (first [apply list_lookup_insert_eq; exact Hlt | reflexivity]).
    rewrite list_insert_insert_eq.
    rewrite !length_app, !length_insert. cbn [List.length app].
    exists {| heap := <[l:=Realm intrinsics (Ref (List.length h))
                            (Ref (List.length h + 1 + 2)) tm hd rs]> h ++
                      [ObjectValue (ordinary_slots proto) [];
                       ObjectEnvironmentRecord (Ref (List.length h))
                         Value_false Value_null;
                       DeclarativeEnvironmentRecord [] Value_null;
                       GlobalEnvironmentRecord (Ref (List.length h + 1))
                         (if strict_equal thisValue Value_undefined
                          then Ref (List.length h) else thisValue)
                         (Ref (List.length h + 1 + 1))
                         (Ref (List.length h + 1 + 3)) Value_null;
                       ArrayObject []];
              ext := e; log := lg |},
      (List.length h + 1), (List.length h + 1 + 1),
      (List.length h + 1 + 2), (List.length h + 1 + 3).
    cbn [heap log].
    split; [reflexivity |]. split; [reflexivity |].
    split.
    { intros _. split; [exact Hfresh0 |]. apply Hnew0. reflexivity. }
    split; [apply Hrealm |].
    split.
    { replace (List.length h + 1 + 2) with (List.length h + 3) by lia.
      apply Hnew. reflexivity. }
    split; [apply Hnew; reflexivity |].
    split.
    { replace (List.length h + 1 + 1) with (List.length h + 2) by lia.
      apply Hnew. reflexivity. }
    split.
    { replace (List.length h + 1 + 3) with (List.length h + 4) by lia.
      apply Hnew. reflexivity. }
    repeat split;
      rewrite <- ?Nat.add_assoc; apply Hfresh.
  - cbv beta iota.
    erewrite set_field_at by (first [eassumption | reflexivity]).
    rewrite NewGlobalEnvironment_eq.
    erewrite set_field_old
      by (first [apply list_lookup_insert_eq; exact Hlt | reflexivity]).
    rewrite list_insert_insert_eq.
    rewrite !length_insert.
    eexists _, (List.length h), (List.length h + 1),
      (List.length h + 2), (List.length h + 3).
    cbn [heap log].
    split; [reflexivity |]. split; [reflexivity |].
    split; [intros; discriminate |].
    split; [apply Hrealm |].
    split; [apply Hnew; reflexivity |].
    split; [apply Hnew0; reflexivity |].
    split; [apply Hnew; reflexivity |].
    split; [apply Hnew; reflexivity |].
    repeat split; first [exact Hfresh0 | apply Hfresh].
Qed.

Ltac host_step Hkeep :=
  match goal with
  | |- context [host ?c ?h ?e] =>
      let x := fresh "x" in
      let h' := fresh "h" in
      let e' := fresh "e" in
      let K := fresh "K" in
      pose proof (Hkeep c h e) as K;
      destruct (host c h e) as [[x h'] e'] eqn:?;
      cbn [fst snd] in K;
      cbn [heap ext log]
  end.

(** C5 (amended).  [CreateIntrinsics] first makes the intrinsics record and
    [%Object.prototype%] (an ordinary object with prototype null): they are in
    the heap when the first routine is called.  Then it calls the 75
    bootstrap routines in the order of [bootstrap_sequence], each once, and
    last [AddRestrictedFunctionProperties] on the [%Function.prototype%]
    that the record holds at that moment; it returns the record.  The order
    is: function/object primitives, global functions, Object, the Error
    family, Function, the iterator family, the primitive wrappers, Promise,
    Proxy/Reflect, Math, Date/RegExp, then Set and Map, then the
    generator/async-function families, the typed-array family,
    DataView/JSON, and only then WeakMap, WeakSet, WeakRef and
    FinalizationRegistry.  (The engine is assumed never to free an
    object.) *)
Theorem CreateIntrinsics_order
  (l : nat) (i0 g e0 tm hd rs : Value) (w : World) :
  (forall c h e, List.length h <= List.length (host c h e).1.2) ->
  heap w !! l = Some (Realm i0 g e0 tm hd rs) ->
  let t := List.length (heap w) in
  exists w' evs first final F,
    CreateIntrinsics (Ref l) w = Next (Ref t) w' /\
    log w' = log w ++ evs /\
    head evs = Some first /\
    ev_heap first
    = <[l := Realm (Ref t) g e0 tm hd rs]> (heap w)
      ++ [PlainObject (<["%Object.prototype%" := Ref (t + 1)]> ∅);
          ObjectValue (ordinary_slots Value_null) []] /\
    map ev_call evs
    = map (fun b => bootstrap b (Ref l)) bootstrap_sequence
      ++ [AddRestrictedFunctionProperties F (Ref l)] /\
    last evs = Some final /\
    field (ev_heap final) (Ref t) "%Function.prototype%" = Some F /\
    exists early late,
      bootstrap_sequence
      = early
        ++ [bootstrapSetPrototype; bootstrapSet;
            bootstrapMapPrototype; bootstrapMap]
        ++ late
        ++ [bootstrapWeakMapPrototype; bootstrapWeakMap;
            bootstrapWeakSetPrototype; bootstrapWeakSet;
            bootstrapWeakRefPrototype; bootstrapWeakRef;
            bootstrapFinalizationRegistryPrototype;
            bootstrapFinalizationRegistry] /\
      runs (map family early)
      = [FunctionObjectPrimitives; GlobalFunctions; ObjectConstructor;
         ErrorFamily; FunctionConstructor; IteratorFamily; PrimitiveWrappers;
         PromiseFamily; ProxyReflect; MathObject; DateRegExp] /\
      runs (map family late)
      = [GeneratorAsyncFunctions; TypedArrayFamily; DataViewJSON].
Proof.
  destruct w as [h e lg]. cbn [heap log].
  intros Hkeep Hl.
  pose proof (lookup_lt_Some _ _ _ Hl) as Hlt.
  unfold CreateIntrinsics.
  unfold bind at 1. rewrite new_eq.
  unfold bind at 1. erewrite set_field_old by (first [eassumption | reflexivity]).
  unfold bind at 1. rewrite OrdinaryObjectCreate_eq.
  unfold bind at 1.
  erewrite (set_field_before_last (<[l := _]> h))
    by (first [symmetry; apply length_insert | reflexivity]).
  rewrite length_app, length_insert. cbn [List.length].
  unfold bind, ret, perform. cbn [heap ext log].
  do 75 (host_step Hkeep).
  unfold get_field, field. cbn [heap].
  match goal with
  | |- context [?hh !! List.length h] =>
      destruct (hh !! List.length h) as [c|] eqn:Hc;
      [| apply lookup_ge_None in Hc;
         rewrite !length_app, length_insert in *; cbn [List.length] in *; lia]
  end.
  host_step Hkeep.
  do 5 eexists.
  split; [reflexivity |].
  split; [cbn [log]; rewrite <- !app_assoc; reflexivity |].
  cbn [app head].
  split; [reflexivity |].
  split; [reflexivity |].
  split; [reflexivity |].
  split; [reflexivity |].
  split; [cbn [ev_heap]; unfold field; rewrite Hc; reflexivity |].
  exists (firstn 45 bootstrap_sequence),
    (firstn 18 (skipn 49 bootstrap_sequence)).
  repeat split; reflexivity.
Qed.

Lemma logs_only_Q (P : Event Call Result -> Prop) (c : Call) :
  (forall h r, P {| ev_call := c; ev_heap := h; ev_resp := r |}) ->
  logs_only P (Q (perform host c)).
Proof.
  intros Hc. unfold Q. apply logs_only_bind.
  - apply logs_only_perform, Hc.
  - intros r. unfold ReturnIfAbrupt.
    destruct (isAbruptCompletion r);
      [apply logs_only_Return | apply logs_only_ret].
Qed.

(** Whatever the engine answers, every descriptor that
    [SetDefaultGlobalBindings] hands to DefinePropertyOrThrow has
    [Enumerable] false.  This is about the calls made: what the global
    object holds afterwards depends on how the calls were answered. *)
Lemma defined_descriptors_not_enumerable
  (realmRec : Value) (w : World) :
  exists evs,
    log (world_of (SetDefaultGlobalBindings realmRec w)) = log w ++ evs /\
    forall e O P desc,
      In e evs ->
      ev_call e = DefinePropertyOrThrow O P desc ->
      desc_Enumerable desc = Value_false.
Proof.
  pose (good := fun e : Event Call Result =>
                  match ev_call e with
                  | DefinePropertyOrThrow _ _ desc =>
                      desc_Enumerable desc = Value_false
                  | _ => True
                  end).
  assert (H : logs_only good (SetDefaultGlobalBindings realmRec)).
  { unfold SetDefaultGlobalBindings.
    apply logs_only_function.
    apply logs_only_bind; [apply logs_only_get_field | intros global].
    apply logs_only_bind.
    { apply logs_only_forEach. intros [name value].
      apply logs_only_bind; [| intros _; apply logs_only_ret].
      apply logs_only_Q. intros; reflexivity. }
    intros _.
    apply logs_only_bind; [apply logs_only_get_field | intros GlobalEnv].
    apply logs_only_bind; [apply logs_only_get_field | intros this].
    apply logs_only_bind; [apply logs_only_Q; intros; reflexivity | intros _].
    apply logs_only_bind; [| intros _; apply logs_only_Return].
    apply logs_only_forEach. intros name.
    apply logs_only_bind; [apply logs_only_get_field | intros Intrinsics].
    apply logs_only_bind; [apply logs_only_get_field | intros intrinsic].
    apply logs_only_bind; [| intros _; apply logs_only_ret].
    apply logs_only_Q. intros; reflexivity. }
  destruct (H w) as (evs & Hlog & Hall).
  exists evs. split; [exact Hlog |].
  intros e O P desc Hin Hcall.
  rewrite Forall_forall in Hall. specialize (Hall e).
  unfold good in Hall. rewrite Hcall in Hall.
  apply Hall. apply list_elem_of_In. exact Hin.
Qed.

(** *** The objects that [MakeBasicObject] and [OrdinaryObjectCreate] make *)

Lemma includes_cons (x : string) (l : list string) (s : string) :
  includes (x :: l) s = String.eqb s x || includes l s.
Proof. reflexivity. Qed.

Lemma forEach_set_slots (h : list Cell) (l : list string)
  (slots : gmap string Value) (e : Ext) (lg : list (Event Call Result)) :
  forEach l (fun s => set_field (Ref (List.length h)) s Value_undefined)
    {| heap := h ++ [ObjectValue slots []]; ext := e; log := lg |}
  = Next tt
      {| heap :=
           h ++ [ObjectValue
                   (fold_left (fun m s => <[s := Value_undefined]> m) l slots)
                   []];
         ext := e; log := lg |}.
Proof.
  revert slots. induction l as [|x rest IH]; intros slots.
  - reflexivity.
  - cbn [forEach fold_left]. unfold bind, function.
    erewrite set_field_last by reflexivity. apply IH.
Qed.

Lemma lookup_fold_slots (l : list string) (slots : gmap string Value)
  (s : string) :
  fold_left (fun m k => <[k := Value_undefined]> m) l slots !! s
  = if includes l s then Some Value_undefined else slots !! s.
Proof.
  revert slots. induction l as [|x rest IH]; intros slots.
  - reflexivity.
  - cbn [fold_left]. rewrite IH, includes_cons.
    destruct (includes rest s); [rewrite orb_true_r; reflexivity |].
    rewrite orb_false_r.
    destruct (String.eqb_spec s x) as [-> | Hne].
    + apply lookup_insert_eq.
    + apply lookup_insert_ne. congruence.
Qed.

(** The slots that [MakeBasicObject] sets, in the order it sets them. *)
Definition basic_slots (internalSlotsList : list string)
  : gmap string Value :=
  let slots :=
    fold_left (fun m s => <[s := Value_undefined]> m) internalSlotsList ∅ in
  if includes internalSlotsList "Extensible"
  then <["Extensible" := Value_true]> slots
  else slots.

Lemma MakeBasicObject_eq (internalSlotsList : list string)
  (h : list Cell) (e : Ext) (lg : list (Event Call Result)) :
  MakeBasicObject internalSlotsList {| heap := h; ext := e; log := lg |}
  = Next (Ref (List.length h))
      {| heap := h ++ [ObjectValue (basic_slots internalSlotsList) []];
         ext := e; log := lg |}.
Proof.
  unfold MakeBasicObject, new_ObjectValue, basic_slots.
  unfold bind at 1. rewrite new_eq.
  unfold bind at 1. rewrite forEach_set_slots.
  unfold bind at 1.
  destruct (includes internalSlotsList "Extensible").
  - erewrite set_field_last by reflexivity. reflexivity.
  - reflexivity.
Qed.

Lemma lookup_basic_slots (internalSlotsList : list string) (s : string) :
  basic_slots internalSlotsList !! s
  = if includes internalSlotsList s
    then Some (if String.eqb s "Extensible" then Value_true
               else Value_undefined)
    else None.
Proof.
  unfold basic_slots.
  destruct (includes internalSlotsList "Extensible") eqn:Hext.
  - destruct (String.eqb_spec s "Extensible") as [-> | Hne].
    + rewrite lookup_insert_eq, Hext. reflexivity.
    + rewrite lookup_insert_ne by congruence.
      rewrite lookup_fold_slots, lookup_empty. reflexivity.
  - rewrite lookup_fold_slots, lookup_empty.
    destruct (String.eqb_spec s "Extensible") as [-> | Hne];
      [rewrite Hext |]; reflexivity.
Qed.

(** [MakeBasicObject] makes no call and changes no object.  It returns a
    new object, at an address the heap did not have, with no own property,
    whose slots are exactly the names of [internalSlotsList]: [Extensible]
    is [Value.true] when it is listed, every other listed slot is
    [Value.undefined] (also one listed twice), and a name that is not
    listed is not set. *)
Theorem MakeBasicObject_slots
  (internalSlotsList : list string) (w : World) :
  exists w' slots,
    MakeBasicObject internalSlotsList w
    = Next (Ref (List.length (heap w))) w' /\
    heap w' = heap w ++ [ObjectValue slots []] /\
    ext w' = ext w /\ log w' = log w /\
    forall s,
      slots !! s
      = if includes internalSlotsList s
        then Some (if String.eqb s "Extensible" then Value_true
                   else Value_undefined)
        else None.
Proof.
  destruct w as [h e lg]. rewrite MakeBasicObject_eq.
  do 2 eexists. repeat split. apply lookup_basic_slots.
Qed.

(** [OrdinaryObjectCreate(proto, additionalInternalSlotsList)] makes no
    call and changes no object.  It returns a new object with no own
    property whose [Prototype] is [proto] and whose [Extensible] is
    [Value.true]; every additional slot is [Value.undefined], except that
    an additional slot named [Prototype] or [Extensible] does not change
    these two; no other slot is set.  Leaving the list out is the same as
    giving the empty list. *)
Theorem OrdinaryObjectCreate_slots
  (proto : Value) (additionalInternalSlotsList : option (list string))
  (w : World) :
  exists w' slots,
    OrdinaryObjectCreate proto additionalInternalSlotsList w
    = Next (Ref (List.length (heap w))) w' /\
    heap w' = heap w ++ [ObjectValue slots []] /\
    ext w' = ext w /\ log w' = log w /\
    (forall s,
       slots !! s
       = if String.eqb s "Prototype" then Some proto
         else if String.eqb s "Extensible" then Some Value_true
         else if includes (default [] additionalInternalSlotsList) s
              then Some Value_undefined
              else None) /\
    OrdinaryObjectCreate proto additionalInternalSlotsList w
    = OrdinaryObjectCreate proto
        (Some (default [] additionalInternalSlotsList)) w.
Proof.
  destruct w as [h e lg].
  assert (Hsame :
    OrdinaryObjectCreate proto additionalInternalSlotsList
      {| heap := h; ext := e; log := lg |}
    = OrdinaryObjectCreate proto
        (Some (default [] additionalInternalSlotsList))
        {| heap := h; ext := e; log := lg |}).
  { destruct additionalInternalSlotsList as [more|]; [reflexivity |].
    unfold OrdinaryObjectCreate. cbn [default]. rewrite app_nil_r.
    reflexivity. }
  set (more := default [] additionalInternalSlotsList) in *.
  assert (Hrun :
    OrdinaryObjectCreate proto (Some more)
      {| heap := h; ext := e; log := lg |}
    = Next (Ref (List.length h))
        {| heap :=
             h ++ [ObjectValue
                     (<["Prototype" := proto]>
                        (basic_slots (["Prototype"; "Extensible"] ++ more)))
                     []];
           ext := e; log := lg |}).
  { unfold OrdinaryObjectCreate, X.
    unfold bind at 1. unfold bind at 1. unfold bind at 1.
    rewrite MakeBasicObject_eq.
    unfold ret at 1. cbn [isAbruptCompletion unwrap]. unfold ret at 1.
    unfold bind at 1.
    erewrite set_field_last by reflexivity.
    reflexivity. }
  rewrite Hsame, Hrun.
  do 2 eexists.
  split; [reflexivity |]. split; [reflexivity |].
  split; [reflexivity |]. split; [reflexivity |].
  split; [| reflexivity].
  intros s.
  destruct (String.eqb_spec s "Prototype") as [-> | Hp].
  { apply lookup_insert_eq. }
  rewrite lookup_insert_ne by congruence.
  rewrite lookup_basic_slots.
  change (["Prototype"; "Extensible"] ++ more)
    with ("Prototype" :: "Extensible" :: more).
  rewrite !includes_cons.
  apply String.eqb_neq in Hp. rewrite Hp. cbn [orb].
  destruct (String.eqb s "Extensible"); reflexivity.
Qed.

(** *** [SetRealmGlobalObject] before the intrinsics exist *)

(** The intrinsics are consulted only to make a global object.  When
    [globalObj] is given, [SetRealmGlobalObject] needs nothing of the
    realm's [Intrinsics], which may still be [undefined] as [new Realm()]
    leaves it: it returns the realm, whose [GlobalObject] is [globalObj] and
    whose [GlobalEnv] is a new environment with the [this] value (the
    global object when [thisValue] is [Value.undefined]).  When [globalObj]
    is [Value.undefined] and the [Intrinsics] are still [undefined], reading
    [%Object.prototype%] is a JavaScript TypeError, raised before anything
    is changed. *)
Theorem SetRealmGlobalObject_without_intrinsics
  (l : nat) (intrinsics globalObj thisValue : Value)
  (g0 e0 tm hd rs : Value) (w : World) :
  heap w !! l = Some (Realm intrinsics g0 e0 tm hd rs) ->
  (strict_equal globalObj Value_undefined = true ->
   intrinsics = js_undefined ->
   SetRealmGlobalObject (Ref l) globalObj thisValue w = Thrown w) /\
  (strict_equal globalObj Value_undefined = false ->
   exists w' env,
     SetRealmGlobalObject (Ref l) globalObj thisValue w = Next (Ref l) w' /\
     log w' = log w /\
     heap w !! env = None /\
     heap w' !! l = Some (Realm intrinsics globalObj (Ref env) tm hd rs) /\
     field (heap w') (Ref env) "GlobalThisValue"
     = Some (if strict_equal thisValue Value_undefined then globalObj
             else thisValue) /\
     forall k c, heap w !! k = Some c -> k <> l -> heap w' !! k = Some c).
Proof.
  destruct w as [h e lg]. cbn [heap log]. intros Hl.
  pose proof (lookup_lt_Some _ _ _ Hl) as Hlt.
  assert (Hi : field h (Ref l) "Intrinsics" = Some intrinsics)
    by (unfold field; rewrite Hl; reflexivity).
  split.
  - intros Hg ->.
    unfold SetRealmGlobalObject. unfold bind at 1. unfold get_field at 1.
    cbn [heap]. rewrite Hi, Hg.
    reflexivity.
  - intros Hg.
    unfold SetRealmGlobalObject, bind, ret, get_field.
    cbn [heap]. rewrite Hi. cbv beta iota. rewrite Hg. cbv beta iota.
    erewrite set_field_at by (first [eassumption | reflexivity]).
    rewrite NewGlobalEnvironment_eq.
    erewrite set_field_old
      by (first [apply list_lookup_insert_eq; exact Hlt | reflexivity]).
    rewrite list_insert_insert_eq, !length_insert.
    exists {| heap :=
                <[l := Realm intrinsics globalObj (Ref (List.length h + 2))
                         tm hd rs]> h
                ++ [ObjectEnvironmentRecord globalObj Value_false Value_null;
                    DeclarativeEnvironmentRecord [] Value_null;
                    GlobalEnvironmentRecord (Ref (List.length h))
                      (if strict_equal thisValue Value_undefined
                       then globalObj else thisValue)
                      (Ref (List.length h + 1)) (Ref (List.length h + 3))
                      Value_null;
                    ArrayObject []];
              ext := e; log := lg |}, (List.length h + 2).
    cbn [heap log].
    split; [reflexivity |]. split; [reflexivity |].
    split; [apply lookup_ge_None; lia |].
    split.
    { rewrite lookup_app_l by (rewrite length_insert; lia).
      apply list_lookup_insert_eq. exact Hlt. }
    split.
    { unfold field.
      rewrite lookup_app_r by (rewrite length_insert; lia).
      rewrite length_insert.
      replace (List.length h + 2 - List.length h) with 2 by lia.
      reflexivity. }
    intros k c Hk Hne.
    pose proof (lookup_lt_Some _ _ _ Hk) as Hklt.
    rewrite lookup_app_l by (rewrite length_insert; lia).
    rewrite list_lookup_insert_ne by congruence. exact Hk.
Qed.

(** *** [CreateRealm] *)

(** The object at [l] is a Realm Record. *)
Definition is_Realm (h : list Cell) (l : nat) : Prop :=
  match h !! l with
  | Some (Realm _ _ _ _ _ _) => True
  | _ => False
  end.

(** The calls [cs] one after the other, then [k]. *)
Definition perform_all_then {A} (cs : list Call) (k : Stmt A) : Stmt A :=
  fold_right (fun c rest => do perform host c in rest) k cs.

Lemma perform_all_then_run {A} (Inv : list Cell -> Prop)
  (cs : list Call) (k : Stmt A) :
  (forall c h e, Inv h -> Inv (host c h e).1.2) ->
  forall w,
    Inv (heap w) ->
    exists w1 evs,
      perform_all_then cs k w = k w1 /\
      log w1 = log w ++ evs /\
      map ev_call evs = cs /\
      Inv (heap w1).
Proof.
  intros Hhost. induction cs as [|c rest IH]; intros w Hinv.
  - exists w, []. rewrite app_nil_r. repeat split. exact Hinv.
  - cbn [perform_all_then fold_right]. unfold bind at 1. unfold perform.
    pose proof (Hhost c (heap w) (ext w) Hinv) as Hnext.
    destruct (host c (heap w) (ext w)) as [[r h1] e1]. cbn [fst snd] in Hnext.
    match goal with
    | |- context [fold_right _ k rest ?w1] =>
        destruct (IH w1 Hnext) as (w2 & evs & E & L & C & I2)
    end.
    exists w2. eexists. split; [exact E |].
    split; [rewrite L; cbn [log]; rewrite <- app_assoc; reflexivity |].
    split; [cbn [app map ev_call]; rewrite C; reflexivity | exact I2].
Qed.

Lemma CreateIntrinsics_unfold (realmRec : Value) (w : World) :
  CreateIntrinsics realmRec w
  = (let* intrinsics := new (PlainObject ∅) in
     do set_field realmRec "Intrinsics" intrinsics in
     let* proto := OrdinaryObjectCreate Value_null None in
     do set_field intrinsics "%Object.prototype%" proto in
     perform_all_then
       (map (fun b => bootstrap b realmRec) bootstrap_sequence)
       (let* F := get_field intrinsics "%Function.prototype%" in
        do perform host (AddRestrictedFunctionProperties F realmRec) in
        ret intrinsics)) w.
Proof. reflexivity. Qed.

(** [CreateRealm()], with an engine that never frees an object and leaves
    a Realm Record a Realm Record: it returns a new realm record (at an
    address the heap did not have), after the 76 calls of
    [CreateIntrinsics] on that record and no other call.  In the end the
    realm's [GlobalObject] and [GlobalEnv] are [Value.undefined] and its
    [TemplateMap] is a new empty list, the newest object of the heap. *)
Theorem CreateRealm_makes_a_new_realm (w : World) :
  (forall c h e, List.length h <= List.length (host c h e).1.2) ->
  (forall c h e l, is_Realm h l -> is_Realm (host c h e).1.2 l) ->
  let l := List.length (heap w) in
  exists w' evs F Intrinsics HostDefined randomState TemplateMap,
    CreateRealm w = Next (Ref l) w' /\
    log w' = log w ++ evs /\
    map ev_call evs
    = map (fun b => bootstrap b (Ref l)) bootstrap_sequence
      ++ [AddRestrictedFunctionProperties F (Ref l)] /\
    heap w' !! l
    = Some (Realm Intrinsics Value_undefined Value_undefined
              (Ref TemplateMap) HostDefined randomState) /\
    heap w' !! TemplateMap = Some (ArrayObject []) /\
    S TemplateMap = List.length (heap w').
Proof.
  destruct w as [h e lg]. cbn [heap log]. intros Hkeep Hrealm.
  unfold CreateRealm, new_Realm.
  unfold bind at 1. rewrite new_eq.
  unfold bind at 1. rewrite CreateIntrinsics_unfold.
  unfold bind at 1. rewrite new_eq.
  unfold bind at 1.
  erewrite set_field_before_last by reflexivity.
  unfold bind at 1. rewrite OrdinaryObjectCreate_eq.
  unfold bind at 1.
  erewrite (set_field_before_last (h ++ [_]))
    by (first [rewrite !length_app; reflexivity | reflexivity]).
  set (l := List.length h).
  match goal with
  | |- context [perform_all_then ?cs ?k ?w0] =>
      destruct (perform_all_then_run
                  (fun hh => is_Realm hh l /\ l + 3 <= List.length hh)
                  cs k) with (w := w0)
        as (w1 & evs & E & L & C & [R1 Len1])
  end.
  { intros c hh ee [R Len]. split; [apply Hrealm, R |].
    pose proof (Hkeep c hh ee). lia. }
  { cbn [heap]. split.
    - unfold is_Realm. rewrite <- !app_assoc. cbn [app].
      rewrite list_lookup_middle by reflexivity. exact I.
    - rewrite !length_app. cbn [List.length]. subst l. lia. }
  rewrite E. clear E.
  destruct w1 as [h1 e1 lg1]. cbn [heap log] in *.
  unfold bind at 1. unfold get_field at 1. unfold field. cbn [heap].
  rewrite !length_app. cbn [List.length]. fold l.
  destruct (h1 !! (l + 1)) as [table|] eqn:Htable;
    [| apply lookup_ge_None in Htable; lia].
  unfold bind at 1. unfold perform at 1. cbn [heap ext log].
  match goal with
  | |- context [host ?c h1 e1] =>
      pose proof (Hkeep c h1 e1) as Len2;
      pose proof (Hrealm c h1 e1 l R1) as R2;
      destruct (host c h1 e1) as [[r h2] e2]
  end.
  cbn [fst snd] in Len2, R2.
  unfold ret at 1.
  unfold is_Realm in R2.
  destruct (h2 !! l) as [[| |i g0 ev0 tm hd rs| | | |]|] eqn:Hl2;
    try contradiction.
  pose proof (lookup_lt_Some _ _ _ Hl2) as Hlt2.
  unfold bind at 1.
  erewrite set_field_at by (first [eassumption | reflexivity]).
  unfold bind at 1.
  erewrite set_field_at
    by (first [apply list_lookup_insert_eq; exact Hlt2 | reflexivity]).
  rewrite list_insert_insert_eq.
  unfold bind at 1. rewrite new_eq.
  unfold bind at 1.
  erewrite set_field_old
    by (first [apply list_lookup_insert_eq; exact Hlt2 | reflexivity]).
  rewrite list_insert_insert_eq, length_insert.
  unfold ret.
  do 2 eexists. exists (cell_field table "%Function.prototype%").
  exists i, hd, rs, (List.length h2).
  split; [reflexivity |].
  cbn [heap log].
  split; [rewrite L, <- app_assoc; reflexivity |].
  split; [rewrite map_app, C; reflexivity |].
  split.
  { rewrite lookup_app_l by (rewrite length_insert; lia).
    apply list_lookup_insert_eq. exact Hlt2. }
  split.
  { rewrite lookup_app_r by (rewrite length_insert; lia).
    rewrite length_insert, Nat.sub_diag. reflexivity. }
  rewrite length_app, length_insert. cbn [List.length]. lia.
Qed.

End Construction.

(** *** The definitions that [SetDefaultGlobalBindings] makes *)

Section DefaultBindings.
Context {Ext : Type}.
Variable host : Host Call Result Ext.
Variable realmRec global : Value.

(** The call that defines a value property. *)
Definition defines_value (nv : string * Value) (e : Event Call Result)
  : Prop :=
  ev_call e
  = DefinePropertyOrThrow global (NewValue (fst nv))
      (Descriptor (snd nv) Value_false Value_false Value_false).

(** The call that defines [globalThis], with the [GlobalThisValue] that
    the realm's global environment has when the call is made. *)
Definition defines_globalThis (e : Event Call Result) : Prop :=
  exists GlobalEnv GlobalThisValue,
    field (ev_heap e) realmRec "GlobalEnv" = Some GlobalEnv /\
    field (ev_heap e) GlobalEnv "GlobalThisValue" = Some GlobalThisValue /\
    ev_call e
    = DefinePropertyOrThrow global (NewValue "globalThis")
        (Descriptor GlobalThisValue Value_true Value_false Value_true).

(** The call that defines the global [name], with the intrinsic [%name%]
    that the realm has when the call is made. *)
Definition defines_intrinsic (name : string) (e : Event Call Result) : Prop :=
  exists Intrinsics intrinsic,
    field (ev_heap e) realmRec "Intrinsics" = Some Intrinsics /\
    field (ev_heap e) Intrinsics
      (String.append "%" (String.append name "%")) = Some intrinsic /\
    ev_call e
    = DefinePropertyOrThrow global (NewValue name)
        (Descriptor intrinsic Value_true Value_false Value_true).

(** When [SetDefaultGlobalBindings] returns something that is not an abrupt
    completion, that is the realm's global object, and the calls made are
    exactly these 55 definitions on it, in order: [Infinity], [NaN] and
    [undefined] with their values, not writable, not enumerable, not
    configurable; [globalThis]; and every name of [global_names] with the
    intrinsic [%name%], writable and configurable, not enumerable. *)
Theorem SetDefaultGlobalBindings_definitions
  (w : World Call Result Ext) (r : Result) :
  field (heap w) realmRec "GlobalObject" = Some global ->
  value_of (SetDefaultGlobalBindings host realmRec w) = Some r ->
  isAbruptCompletion r = false ->
  exists values this names,
    r = Plain global /\
    log (world_of (SetDefaultGlobalBindings host realmRec w))
    = log w ++ values ++ [this] ++ names /\
    Forall2 defines_value value_properties values /\
    defines_globalThis this /\
    Forall2 defines_intrinsic global_names names.
Proof.
  intros Hg Hrun Hr.
  remember (SetDefaultGlobalBindings host realmRec w) as out eqn:E.
  symmetry in E. revert Hrun. revert E.
  unfold SetDefaultGlobalBindings, function.
  unfold bind at 1. unfold get_field at 1. rewrite Hg.
  match goal with
  | |- context [forEach value_properties ?cb] =>
      assert (Hvalues : forall w0 w1,
                forEach value_properties cb w0 = Next tt w1 ->
                exists evs, log w1 = log w0 ++ evs /\
                            Forall2 defines_value value_properties evs)
  end.
  { apply forEach_one_event. intros [name value] w0. right.
    unfold bind, Q, bind, perform.
    destruct (host _ (heap w0) (ext w0)) as [[x h'] e'].
    unfold ReturnIfAbrupt.
    destruct (isAbruptCompletion x); do 2 eexists;
      (split; [first [left; reflexivity | right; eexists; reflexivity]
              | split; reflexivity]). }
  match goal with
  | |- context [forEach global_names ?cb] =>
      assert (Hnames : forall w0 w1,
                forEach global_names cb w0 = Next tt w1 ->
                exists evs, log w1 = log w0 ++ evs /\
                            Forall2 defines_intrinsic global_names evs)
  end.
  { apply forEach_one_event. intros name w0.
    unfold bind, get_field.
    destruct (field (heap w0) realmRec "Intrinsics") as [I|] eqn:HI;
      [| left; eexists; reflexivity].
    destruct (field (heap w0) I _) as [v|] eqn:Hv;
      [| left; eexists; reflexivity].
    right. unfold Q, bind, perform.
    destruct (host _ (heap w0) (ext w0)) as [[y h'] e'].
    unfold ReturnIfAbrupt.
    destruct (isAbruptCompletion y); do 2 eexists;
      (split; [first [left; reflexivity | right; eexists; reflexivity]
              | split; [reflexivity |]]);
      exists I, v; cbn [ev_heap ev_call]; repeat split; assumption. }
  unfold bind at 1.
  match goal with
  | |- context [forEach value_properties ?cb w] =>
      destruct (forEach_does_not_return value_properties cb w)
        as [[w1 E1] | [w1 E1]];
      rewrite E1; [| intros <-; discriminate];
      apply Hvalues in E1 as (values & L1 & F1)
  end.
  unfold bind at 1. unfold get_field at 1.
  destruct (field (heap w1) realmRec "GlobalEnv") as [env|] eqn:Henv;
    [| intros <-; discriminate].
  unfold bind at 1. unfold get_field at 1.
  destruct (field (heap w1) env "GlobalThisValue") as [this|] eqn:Hthis;
    [| intros <-; discriminate].
  unfold bind at 1. unfold Q at 1. unfold bind at 1. unfold perform at 1.
  destruct (host _ (heap w1) (ext w1)) as [[x h2] e2].
  unfold ReturnIfAbrupt at 1.
  destruct (isAbruptCompletion x) eqn:Hx.
  { unfold Return. intros <-. cbn [value_of]. intros [= <-]. congruence. }
  unfold ret at 1. unfold bind at 1.
  match goal with
  | |- context [forEach global_names ?cb ?w2] =>
      destruct (forEach_does_not_return global_names cb w2)
        as [[w3 E3] | [w3 E3]];
      rewrite E3; [| intros <-; discriminate];
      apply Hnames in E3 as (names & L3 & F3)
  end.
  unfold Return. intros <-. cbn [value_of world_of]. intros [= <-].
  exists values. eexists. exists names.
  split; [reflexivity |].
  split; [rewrite L3; cbn [log]; rewrite L1, <- !app_assoc; reflexivity |].
  split; [exact F1 |].
  split; [| exact F3].
  exists env, this. cbn [ev_heap ev_call]. repeat split; assumption.
Qed.
End DefaultBindings.

(** *** A small engine to run the realm code against

    Each bootstrap routine makes one ordinary object per intrinsic it is
    responsible for and enters it in the realm's intrinsics record;
    [DefinePropertyOrThrow] follows the ordinary-object rules: a new
    property needs an extensible object, an existing one must be
    configurable, anything else is a TypeError. *)

Definition intrinsics_of (b : BootstrapRoutine) : list string :=
  match b with
  | bootstrapFunctionPrototype => ["%Function.prototype%"]
  | bootstrapObjectPrototype => []
  | bootstrapThrowTypeError => ["%ThrowTypeError%"]
  | bootstrapEval => ["%eval%"]
  | bootstrapIsFinite => ["%isFinite%"]
  | bootstrapIsNaN => ["%isNaN%"]
  | bootstrapParseFloat => ["%parseFloat%"]
  | bootstrapParseInt => ["%parseInt%"]
  | bootstrapURIHandling => ["%decodeURI%"; "%decodeURIComponent%"; "%encodeURI%"; "%encodeURIComponent%"]
  | bootstrapObject => ["%Object%"]
  | bootstrapErrorPrototype => ["%Error.prototype%"]
  | bootstrapError => ["%Error%"]
  | bootstrapNativeError => ["%EvalError%"; "%RangeError%"; "%ReferenceError%"; "%SyntaxError%"; "%TypeError%"; "%URIError%"]
  | bootstrapAggregateErrorPrototype => ["%AggregateError.prototype%"]
  | bootstrapAggregateError => ["%AggregateError%"]
  | bootstrapFunction => ["%Function%"]
  | bootstrapIteratorPrototype => ["%Iterator.prototype%"]
  | bootstrapAsyncIteratorPrototype => ["%AsyncIterator.prototype%"]
  | bootstrapArrayIteratorPrototype => ["%ArrayIterator.prototype%"]
  | bootstrapMapIteratorPrototype => ["%MapIterator.prototype%"]
  | bootstrapSetIteratorPrototype => ["%SetIterator.prototype%"]
  | bootstrapStringIteratorPrototype => ["%StringIterator.prototype%"]
  | bootstrapRegExpStringIteratorPrototype => ["%RegExpStringIterator.prototype%"]
  | bootstrapForInIteratorPrototype => ["%ForInIterator.prototype%"]
  | bootstrapStringPrototype => ["%String.prototype%"]
  | bootstrapString => ["%String%"]
  | bootstrapArrayPrototype => ["%Array.prototype%"]
  | bootstrapArray => ["%Array%"]
  | bootstrapBooleanPrototype => ["%Boolean.prototype%"]
  | bootstrapBoolean => ["%Boolean%"]
  | bootstrapNumberPrototype => ["%Number.prototype%"]
  | bootstrapNumber => ["%Number%"]
  | bootstrapBigIntPrototype => ["%BigInt.prototype%"]
  | bootstrapBigInt => ["%BigInt%"]
  | bootstrapSymbolPrototype => ["%Symbol.prototype%"]
  | bootstrapSymbol => ["%Symbol%"]
  | bootstrapPromisePrototype => ["%Promise.prototype%"]
  | bootstrapPromise => ["%Promise%"]
  | bootstrapProxy => ["%Proxy%"]
  | bootstrapReflect => ["%Reflect%"]
  | bootstrapMath => ["%Math%"]
  | bootstrapDatePrototype => ["%Date.prototype%"]
  | bootstrapDate => ["%Date%"]
  | bootstrapRegExpPrototype => ["%RegExp.prototype%"]
  | bootstrapRegExp => ["%RegExp%"]
  | bootstrapSetPrototype => ["%Set.prototype%"]
  | bootstrapSet => ["%Set%"]
  | bootstrapMapPrototype => ["%Map.prototype%"]
  | bootstrapMap => ["%Map%"]
  | bootstrapGeneratorFunctionPrototypePrototype => ["%GeneratorFunction.prototype.prototype%"]
  | bootstrapGeneratorFunctionPrototype => ["%GeneratorFunction.prototype%"]
  | bootstrapGeneratorFunction => ["%GeneratorFunction%"]
  | bootstrapAsyncFunctionPrototype => ["%AsyncFunction.prototype%"]
  | bootstrapAsyncFunction => ["%AsyncFunction%"]
  | bootstrapAsyncGeneratorFunctionPrototypePrototype => ["%AsyncGeneratorFunction.prototype.prototype%"]
  | bootstrapAsyncGeneratorFunctionPrototype => ["%AsyncGeneratorFunction.prototype%"]
  | bootstrapAsyncGeneratorFunction => ["%AsyncGeneratorFunction%"]
  | bootstrapAsyncFromSyncIteratorPrototype => ["%AsyncFromSyncIterator.prototype%"]
  | bootstrapArrayBufferPrototype => ["%ArrayBuffer.prototype%"]
  | bootstrapArrayBuffer => ["%ArrayBuffer%"]
  | bootstrapTypedArrayPrototype => ["%TypedArray.prototype%"]
  | bootstrapTypedArray => ["%TypedArray%"]
  | bootstrapTypedArrayPrototypes => []
  | bootstrapTypedArrayConstructors => ["%Int8Array%"; "%Uint8Array%"; "%Uint8ClampedArray%"; "%Int16Array%"; "%Uint16Array%"; "%Int32Array%"; "%Uint32Array%"; "%Float32Array%"; "%Float64Array%"; "%BigInt64Array%"; "%BigUint64Array%"]
  | bootstrapDataViewPrototype => ["%DataView.prototype%"]
  | bootstrapDataView => ["%DataView%"]
  | bootstrapJSON => ["%JSON%"]
  | bootstrapWeakMapPrototype => ["%WeakMap.prototype%"]
  | bootstrapWeakMap => ["%WeakMap%"]
  | bootstrapWeakSetPrototype => ["%WeakSet.prototype%"]
  | bootstrapWeakSet => ["%WeakSet%"]
  | bootstrapWeakRefPrototype => ["%WeakRef.prototype%"]
  | bootstrapWeakRef => ["%WeakRef%"]
  | bootstrapFinalizationRegistryPrototype => ["%FinalizationRegistry.prototype%"]
  | bootstrapFinalizationRegistry => ["%FinalizationRegistry%"]
  end.

Definition install (table : nat) (h : list Cell) (name : string) : list Cell :=
  match h !! table with
  | Some (PlainObject t) =>
      let proto := default Value_null (t !! "%Object.prototype%") in
      <[table := PlainObject (<[name := Ref (List.length h)]> t)]>
        (h ++ [ObjectValue (ordinary_slots proto) []])
  | _ => h
  end.

Fixpoint find_property (P : Value) (props : list (Value * PropertyDescriptor))
  : option PropertyDescriptor :=
  match props with
  | [] => None
  | (k, d) :: rest => if Value_eq_dec P k then Some d else find_property P rest
  end.

Fixpoint replace_property (P : Value) (d : PropertyDescriptor)
  (props : list (Value * PropertyDescriptor))
  : list (Value * PropertyDescriptor) :=
  match props with
  | [] => []
  | (k, d0) :: rest =>
      if Value_eq_dec P k then (k, d) :: rest
      else (k, d0) :: replace_property P d rest
  end.

Definition TypeError : Result :=
  Completion throw (StringValue "TypeError") js_undefined.

Definition demo_define (h : list Cell) (O P : Value) (desc : PropertyDescriptor)
  : Result * list Cell :=
  match O with
  | Ref l =>
      match h !! l with
      | Some (ObjectValue slots props) =>
          match find_property P props with
          | Some old =>
              if strict_equal (desc_Configurable old) Value_true
              then (Completion normal Value_true js_undefined,
                    <[l := ObjectValue slots (replace_property P desc props)]> h)
              else (TypeError, h)
          | None =>
              if strict_equal (cell_field (ObjectValue slots props) "Extensible")
                   Value_true
              then (Completion normal Value_true js_undefined,
                    <[l := ObjectValue slots (props ++ [(P, desc)])]> h)
              else (TypeError, h)
          end
      | _ => (TypeError, h)
      end
  | _ => (TypeError, h)
  end.

Definition demo_host : Host Call Result unit :=
  fun c h e =>
    match c with
    | bootstrap b realmRec =>
        match field h realmRec "Intrinsics" with
        | Some (Ref table) =>
            (Plain js_undefined, fold_left (install table) (intrinsics_of b) h, e)
        | _ => (Plain js_undefined, h, e)
        end
    | AddRestrictedFunctionProperties F realm => (Plain js_undefined, h, e)
    | DefinePropertyOrThrow obj P desc =>
        let '(r, h') := demo_define h obj P desc in (r, h', e)
    end.

Definition empty_world : World Call Result unit :=
  {| heap := []; ext := tt; log := [] |}.

(** The world after [CreateRealm()]: the realm is at address 0, its
    intrinsics record at 1, [%Object.prototype%] at 2. *)
Definition realm_world : World Call Result unit :=
  world_of (CreateRealm demo_host empty_world).

(** The intrinsics record of that realm. *)
Definition realm_table : gmap string Value :=
  match heap realm_world !! 1 with
  | Some (PlainObject t) => t
  | _ => ∅
  end.

(** The world after [SetRealmGlobalObject(realm, undefined, undefined)]:
    the global object is at address 95. *)
Definition ready_world : World Call Result unit :=
  world_of (SetRealmGlobalObject (Ref 0) Value_undefined Value_undefined
              realm_world).

(** A global object that the embedder brings along, with an [Array] of
    its own that cannot be reconfigured. *)
Definition host_Array : PropertyDescriptor :=
  Descriptor (StringValue "the embedder's Array")
    Value_false Value_false Value_false.

Definition host_global : Cell :=
  ObjectValue (ordinary_slots (Ref 2)) [(StringValue "Array", host_Array)].

(** The world after [SetRealmGlobalObject(realm, that object, undefined)]. *)
Definition host_global_world : World Call Result unit :=
  world_of (SetRealmGlobalObject (Ref 0) (Ref 95) Value_undefined
              {| heap := heap realm_world ++ [host_global]; ext := tt;
                 log := [] |}).

Lemma install_keeps_objects (table : nat) (h : list Cell) (name : string) :
  List.length h <= List.length (install table h name).
Proof.
  unfold install. destruct (h !! table) as [[]|]; try lia.
  rewrite length_insert, length_app. lia.
Qed.

Lemma demo_host_keeps_objects (c : Call) (h : list Cell) (e : unit) :
  List.length h <= List.length (demo_host c h e).1.2.
Proof.
  destruct c as [b realmRec | F realm | obj P desc]; cbn [demo_host].
  - destruct (field h realmRec "Intrinsics") as [[]|]; cbn [fst snd]; try lia.
    generalize (intrinsics_of b). intros names. revert h.
    induction names as [|n names IH]; intros h; cbn [fold_left]; [lia |].
    etransitivity; [apply (install_keeps_objects l h n) | apply IH].
  - cbn [fst snd]. lia.
  - unfold demo_define.
    destruct obj; cbn [fst snd]; try lia.
    destruct (h !! l) as [[]|]; cbn [fst snd]; try lia.
    destruct (find_property P properties).
    + destruct (strict_equal _ _); cbn [fst snd];
        rewrite ?length_insert; lia.
    + destruct (strict_equal _ _); cbn [fst snd];
        rewrite ?length_insert; lia.
Qed.

Lemma install_keeps_realms (table : nat) (h : list Cell) (name : string)
  (l : nat) :
  is_Realm h l -> is_Realm (install table h name) l.
Proof.
  unfold is_Realm, install. intros Hl.
  destruct (h !! l) as [c|] eqn:Hc; [| contradiction].
  pose proof (lookup_lt_Some _ _ _ Hc) as Hlt.
  destruct (h !! table) as [[]|] eqn:Ht; try (rewrite Hc; exact Hl).
  destruct (Nat.eq_dec table l) as [-> | Hne].
  - rewrite Hc in Ht. injection Ht as ->. contradiction.
  - rewrite list_lookup_insert_ne by exact Hne.
    rewrite lookup_app_l by exact Hlt. rewrite Hc. exact Hl.
Qed.

Lemma demo_host_keeps_realms (c : Call) (h : list Cell) (e : unit) (l : nat) :
  is_Realm h l -> is_Realm (demo_host c h e).1.2 l.
Proof.
  intros Hl.
  destruct c as [b realmRec | F realm | obj P desc]; cbn [demo_host].
  - destruct (field h realmRec "Intrinsics") as [[]|]; cbn [fst snd];
      try exact Hl.
    generalize (intrinsics_of b). intros names. revert h Hl.
    induction names as [|n names IH]; intros h Hl; cbn [fold_left];
      [exact Hl |].
    apply IH, install_keeps_realms, Hl.
  - exact Hl.
  - unfold demo_define.
    destruct obj; cbn [fst snd]; try exact Hl.
    destruct (h !! l0) as [[]|] eqn:Ho; cbn [fst snd]; try exact Hl.
    assert (Hne : l0 <> l).
    { intros ->. unfold is_Realm in Hl. rewrite Ho in Hl. exact Hl. }
    destruct (find_property P properties);
      destruct (strict_equal _ _); cbn [fst snd]; try exact Hl;
      unfold is_Realm; rewrite list_lookup_insert_ne by exact Hne; exact Hl.
Qed.

(** The theorem on [CreateRealm] on the small engine, from the empty
    heap. *)
Lemma CreateRealm_makes_a_new_realm_witness :
  exists w' evs F Intrinsics HostDefined randomState TemplateMap,
    CreateRealm demo_host empty_world = Next (Ref 0) w' /\
    log w' = [] ++ evs /\
    map ev_call evs
    = map (fun b => bootstrap b (Ref 0)) bootstrap_sequence
      ++ [AddRestrictedFunctionProperties F (Ref 0)] /\
    heap w' !! 0
    = Some (Realm Intrinsics Value_undefined Value_undefined
              (Ref TemplateMap) HostDefined randomState) /\
    heap w' !! TemplateMap = Some (ArrayObject []) /\
    S TemplateMap = List.length (heap w').
Proof.
  apply (CreateRealm_makes_a_new_realm demo_host empty_world).
  - exact demo_host_keeps_objects.
  - exact demo_host_keeps_realms.
Defined.

(** A realm record as [new Realm()] leaves it, and an object that an
    embedder brings as the global object. *)
Definition new_realm_world : World Call Result unit :=
  {| heap := [Realm js_undefined js_undefined js_undefined js_undefined
                js_undefined js_undefined;
              ObjectValue (ordinary_slots Value_null) []];
     ext := tt; log := [] |}.

(** The theorem on a realm without intrinsics, without and with a global
    object given. *)
Lemma SetRealmGlobalObject_without_intrinsics_witness :
  ((strict_equal Value_undefined Value_undefined = true ->
    js_undefined = js_undefined ->
    SetRealmGlobalObject (Ref 0) Value_undefined Value_undefined
      new_realm_world
    = Thrown new_realm_world) /\
   (strict_equal Value_undefined Value_undefined = false ->
    exists w' env,
      SetRealmGlobalObject (Ref 0) Value_undefined Value_undefined
        new_realm_world
      = Next (Ref 0) w' /\
      log w' = log new_realm_world /\
      heap new_realm_world !! env = None /\
      heap w' !! 0
      = Some (Realm js_undefined Value_undefined (Ref env) js_undefined
                js_undefined js_undefined) /\
      field (heap w') (Ref env) "GlobalThisValue"
      = Some (if strict_equal Value_undefined Value_undefined
              then Value_undefined else Value_undefined) /\
      forall k c,
        heap new_realm_world !! k = Some c -> k <> 0 ->
        heap w' !! k = Some c)) /\
  ((strict_equal (Ref 1) Value_undefined = true ->
    js_undefined = js_undefined ->
    SetRealmGlobalObject (Ref 0) (Ref 1) Value_undefined new_realm_world
    = Thrown new_realm_world) /\
   (strict_equal (Ref 1) Value_undefined = false ->
    exists w' env,
      SetRealmGlobalObject (Ref 0) (Ref 1) Value_undefined new_realm_world
      = Next (Ref 0) w' /\
      log w' = log new_realm_world /\
      heap new_realm_world !! env = None /\
      heap w' !! 0
      = Some (Realm js_undefined (Ref 1) (Ref env) js_undefined
                js_undefined js_undefined) /\
      field (heap w') (Ref env) "GlobalThisValue"
      = Some (if strict_equal Value_undefined Value_undefined
              then Ref 1 else Value_undefined) /\
      forall k c,
        heap new_realm_world !! k = Some c -> k <> 0 ->
        heap w' !! k = Some c)).
Proof.
  split.
  - apply (SetRealmGlobalObject_without_intrinsics
             0 js_undefined Value_undefined Value_undefined
             js_undefined js_undefined js_undefined js_undefined js_undefined
             new_realm_world).
    reflexivity.
  - apply (SetRealmGlobalObject_without_intrinsics
             0 js_undefined (Ref 1) Value_undefined
             js_undefined js_undefined js_undefined js_undefined js_undefined
             new_realm_world).
    reflexivity.
Defined.

(** On that realm: without a global object the call throws; with the
    embedder's object it returns the realm, and [this] is that object. *)
Example new_realm_needs_a_global_object :
  SetRealmGlobalObject (Ref 0) Value_undefined Value_undefined new_realm_world
  = Thrown new_realm_world /\
  value_of (SetRealmGlobalObject (Ref 0) (Ref 1) Value_undefined
              new_realm_world)
  = Some (Ref 0) /\
  field (heap (world_of (SetRealmGlobalObject (Ref 0) (Ref 1) Value_undefined
                           new_realm_world))) (Ref 4) "GlobalThisValue"
  = Some (Ref 1).
Proof. repeat split. Qed.

(** The construction order theorem on the small engine, for a realm record
    just made. *)
Lemma CreateIntrinsics_order_witness :
  exists w' evs first final F,
    CreateIntrinsics demo_host (Ref 0)
      (world_of (new_Realm empty_world)) = Next (Ref 1) w' /\
    log w' = [] ++ evs /\
    head evs = Some first /\
    ev_heap first
    = <[0 := Realm (Ref 1) js_undefined js_undefined js_undefined
               js_undefined js_undefined]>
        (heap (world_of (new_Realm empty_world)))
      ++ [PlainObject (<["%Object.prototype%" := Ref (1 + 1)]> ∅);
          ObjectValue (ordinary_slots Value_null) []] /\
    map ev_call evs
    = map (fun b => bootstrap b (Ref 0)) bootstrap_sequence
      ++ [AddRestrictedFunctionProperties F (Ref 0)] /\
    last evs = Some final /\
    field (ev_heap final) (Ref 1) "%Function.prototype%" = Some F /\
    exists early late,
      bootstrap_sequence
      = early
        ++ [bootstrapSetPrototype; bootstrapSet;
            bootstrapMapPrototype; bootstrapMap]
        ++ late
        ++ [bootstrapWeakMapPrototype; bootstrapWeakMap;
            bootstrapWeakSetPrototype; bootstrapWeakSet;
            bootstrapWeakRefPrototype; bootstrapWeakRef;
            bootstrapFinalizationRegistryPrototype;
            bootstrapFinalizationRegistry] /\
      runs (map family early)
      = [FunctionObjectPrimitives; GlobalFunctions; ObjectConstructor;
         ErrorFamily; FunctionConstructor; IteratorFamily; PrimitiveWrappers;
         PromiseFamily; ProxyReflect; MathObject; DateRegExp] /\
      runs (map family late)
      = [GeneratorAsyncFunctions; TypedArrayFamily; DataViewJSON].
Proof.
  apply (CreateIntrinsics_order demo_host 0
           js_undefined js_undefined js_undefined js_undefined js_undefined
           js_undefined (world_of (new_Realm empty_world))).
  - exact demo_host_keeps_objects.
  - reflexivity.
Defined.

(** C5 as documented fails: the documentation puts the collection types
    (with WeakMap) before the generator families, the typed arrays and
    DataView/JSON, but [bootstrapWeakMapPrototype] is called after
    [bootstrapJSON], so the families do not come in the documented order. *)
Lemma WeakMap_is_built_after_JSON :
  exists i j,
    i < j /\
    map ev_call (log realm_world) !! i
    = Some (bootstrap bootstrapJSON (Ref 0)) /\
    map ev_call (log realm_world) !! j
    = Some (bootstrap bootstrapWeakMapPrototype (Ref 0)) /\
    rank (family bootstrapWeakMapPrototype) < rank (family bootstrapJSON) /\
    runs (map family bootstrap_sequence) <> documented_order.
Proof.
  exists 66, 67.
  split; [lia |].
  split; [vm_compute; reflexivity |].
  split; [vm_compute; reflexivity |].
  split; [vm_compute; lia |].
  vm_compute. discriminate.
Qed.

(** The world after [SetDefaultGlobalBindings(realm)] on the realm with a
    global object of its own, and on the realm with the embedder's. *)
Definition bound_world : World Call Result unit :=
  world_of (SetDefaultGlobalBindings demo_host (Ref 0) ready_world).

Definition bound_host_world : World Call Result unit :=
  world_of (SetDefaultGlobalBindings demo_host (Ref 0) host_global_world).

(** On the small engine, with a global object of the realm's own, every
    default binding is there afterwards: the three value properties
    read-only and fixed, [globalThis] and the 51 named globals writable and
    configurable with the realm's intrinsic as value, none enumerable. *)
Example default_bindings_on_a_new_global :
  value_of (SetDefaultGlobalBindings demo_host (Ref 0) ready_world)
  = Some (Plain (Ref 95)) /\
  List.length (own_properties (heap bound_world) 95) = 55 /\
  Forall (fun nv : string * Value =>
            find_property (StringValue (fst nv))
              (own_properties (heap bound_world) 95)
            = Some (Descriptor (snd nv) Value_false Value_false Value_false))
    value_properties /\
  find_property (StringValue "globalThis")
    (own_properties (heap bound_world) 95)
  = Some (Descriptor (Ref 95) Value_true Value_false Value_true) /\
  Forall (fun name : string =>
            exists intrinsic,
              field (heap bound_world) (Ref 1)
                (String.append "%" (String.append name "%"))
              = Some intrinsic /\
              find_property (StringValue name)
                (own_properties (heap bound_world) 95)
              = Some (Descriptor intrinsic Value_true Value_false Value_true))
    global_names.
Proof.
  split; [vm_compute; reflexivity |].
  split; [vm_compute; reflexivity |].
  split; [repeat (constructor; [vm_compute; reflexivity |]); constructor |].
  split; [vm_compute; reflexivity |].
  repeat (constructor;
          [eexists; split; [vm_compute; reflexivity | vm_compute; reflexivity]
          |]).
  constructor.
Qed.

(** The theorem on the definitions at the new global object of the small
    engine. *)
Lemma SetDefaultGlobalBindings_definitions_witness :
  exists values this names,
    Plain (Ref 95) = Plain (Ref 95) /\
    log (world_of (SetDefaultGlobalBindings demo_host (Ref 0) ready_world))
    = log ready_world ++ values ++ [this] ++ names /\
    Forall2 (defines_value (Ref 95)) value_properties values /\
    defines_globalThis (Ref 0) (Ref 95) this /\
    Forall2 (defines_intrinsic (Ref 0) (Ref 95)) global_names names.
Proof.
  apply (SetDefaultGlobalBindings_definitions demo_host (Ref 0) (Ref 95)
           ready_world (Plain (Ref 95))).
  - vm_compute. reflexivity.
  - vm_compute. reflexivity.
  - reflexivity.
Defined.

(** Whatever the engine answers, [SetDefaultGlobalBindings] ends in one of
    three ways: with a JavaScript exception (a field of [undefined] was
    read); with the abrupt completion that the definition of [globalThis]
    gave, that call being the last one made; or with the global object.
    The abrupt completion of any other definition is returned from the
    [forEach] callback it stands in, and dropped there. *)
Lemma SetDefaultGlobalBindings_result
  {Ext : Type} (host : Host Call Result Ext) (realmRec : Value)
  (w : World Call Result Ext) :
  (exists w', SetDefaultGlobalBindings host realmRec w = Thrown w') \/
  (exists global w',
     field (heap w) realmRec "GlobalObject" = Some global /\
     SetDefaultGlobalBindings host realmRec w = Next (Plain global) w') \/
  (exists r w' global this h,
     SetDefaultGlobalBindings host realmRec w = Next r w' /\
     isAbruptCompletion r = true /\
     last (log w')
     = Some {| ev_call :=
                 DefinePropertyOrThrow global (NewValue "globalThis")
                   (Descriptor this Value_true Value_false Value_true);
               ev_heap := h; ev_resp := r |}).
Proof.
  remember (SetDefaultGlobalBindings host realmRec w) as out eqn:E.
  symmetry in E. revert E.
  unfold SetDefaultGlobalBindings, function.
  unfold bind at 1. unfold get_field at 1.
  destruct (field (heap w) realmRec "GlobalObject") as [global|] eqn:Hg;
    [| intros <-; left; eexists; reflexivity].
  unfold bind at 1.
  match goal with
  | |- context [forEach ?l ?cb w] =>
      destruct (forEach_does_not_return l cb w) as [[w1 E] | [w1 E]];
      rewrite E; [| intros <-; left; eexists; reflexivity]
  end.
  unfold bind at 1. unfold get_field at 1.
  destruct (field (heap w1) realmRec "GlobalEnv") as [env|];
    [| intros <-; left; eexists; reflexivity].
  unfold bind at 1. unfold get_field at 1.
  destruct (field (heap w1) env "GlobalThisValue") as [this|];
    [| intros <-; left; eexists; reflexivity].
  unfold bind at 1. unfold Q at 1. unfold bind at 1. unfold perform at 1.
  destruct (host _ (heap w1) (ext w1)) as [[r h2] e2].
  unfold ReturnIfAbrupt at 1.
  destruct (isAbruptCompletion r) eqn:Hr.
  { unfold Return. intros <-. right. right. exists r. do 4 eexists.
    split; [reflexivity |]. split; [exact Hr |].
    cbn [log]. apply last_snoc. }
  unfold ret at 1. unfold bind at 1.
  match goal with
  | |- context [forEach ?l ?cb ?w2] =>
      destruct (forEach_does_not_return l cb w2) as [[w3 E3] | [w3 E3]];
      rewrite E3; [| intros <-; left; eexists; reflexivity]
  end.
  unfold Return. intros <-.
  right. left. exists global. eexists. split; reflexivity.
Qed.

(** C7 (the code where a definition fails).  The embedder's global object
    has an [Array] of its own that cannot be reconfigured.  The definition
    of [Array] answers with a TypeError (it is the fifteenth call), yet
    [SetDefaultGlobalBindings] returns the global object as if all were
    well, and [Array] is still the embedder's: not writable, not
    configurable, not the realm's [%Array%]. *)
Example embedder_Array_survives_default_bindings :
  value_of (SetDefaultGlobalBindings demo_host (Ref 0) host_global_world)
  = Some (Plain (Ref 95)) /\
  field (heap host_global_world) (Ref 0) "GlobalObject" = Some (Ref 95) /\
  field (heap host_global_world) (Ref 1) "%Array%" = Some (Ref 37) /\
  map ev_call (log bound_host_world) !! 14
  = Some (DefinePropertyOrThrow (Ref 95) (StringValue "Array")
            (Descriptor (Ref 37) Value_true Value_false Value_true)) /\
  map ev_resp (log bound_host_world) !! 14 = Some TypeError /\
  find_property (StringValue "Array")
    (own_properties (heap bound_host_world) 95)
  = Some host_Array /\
  desc_Writable host_Array = Value_false /\
  desc_Configurable host_Array = Value_false /\
  desc_Value host_Array <> Ref 37.
Proof.
  split; [vm_compute; reflexivity |].
  split; [vm_compute; reflexivity |].
  split; [vm_compute; reflexivity |].
  split; [vm_compute; reflexivity |].
  split; [vm_compute; reflexivity |].
  split; [vm_compute; reflexivity |].
  split; [reflexivity |]. split; [reflexivity |]. discriminate.
Qed.






(** The global environment theorem on the small engine, for the realm that
    [CreateRealm()] made, with no global object and no [this] given. *)
Lemma SetRealmGlobalObject_builds_global_environment_witness :
  exists w' objRec dclRec env varNames,
    SetRealmGlobalObject (Ref 0) Value_undefined Value_undefined realm_world
    = Next (Ref 0) w' /\
    log w' = log realm_world /\
    (strict_equal Value_undefined Value_undefined = true ->
     heap realm_world !! List.length (heap realm_world) = None /\
     heap w' !! List.length (heap realm_world)
     = Some (ObjectValue (ordinary_slots (Ref 2)) [])) /\
    heap w' !! 0
    = Some (Realm (Ref 1)
              (if strict_equal Value_undefined Value_undefined
               then Ref (List.length (heap realm_world))
               else Value_undefined)
              (Ref env) (Ref 94) js_undefined js_undefined) /\
    heap w' !! env
    = Some (GlobalEnvironmentRecord (Ref objRec)
              (if strict_equal Value_undefined Value_undefined
               then (if strict_equal Value_undefined Value_undefined
                     then Ref (List.length (heap realm_world))
                     else Value_undefined)
               else Value_undefined)
              (Ref dclRec) (Ref varNames) Value_null) /\
    heap w' !! objRec
    = Some (ObjectEnvironmentRecord
              (if strict_equal Value_undefined Value_undefined
               then Ref (List.length (heap realm_world))
               else Value_undefined)
              Value_false Value_null) /\
    heap w' !! dclRec = Some (DeclarativeEnvironmentRecord [] Value_null) /\
    heap w' !! varNames = Some (ArrayObject []) /\
    heap realm_world !! objRec = None /\
    heap realm_world !! dclRec = None /\
    heap realm_world !! env = None /\
    heap realm_world !! varNames = None.
Proof.
  apply (SetRealmGlobalObject_builds_global_environment
           0 (Ref 1) (Ref 2) Value_undefined Value_undefined
           Value_undefined Value_undefined (Ref 94) js_undefined js_undefined
           realm_world).
  - vm_compute. reflexivity.
  - vm_compute. reflexivity.
Defined.

End RealmRecord.

(** ** The worker: one evaluation session *)

Module Worker.

(** The functions that the worker wraps with [new Value(...)] for the
    engine to call: [print], and one per console method.  Their bodies
    ([closure_body] below) run when the engine calls them, which it does
    while it runs itself, during a call that the worker made. *)
Inductive Closure : Type :=
| print_closure
| console_closure (method : string).

(** What the worker posts to the page. *)
Inductive Message : Type :=
| console (method : string) (values : list Result)
| unhandledRejection (value : Result).

(** The data of an ['evaluate'] message: [state.get('mode')],
    [state.get('features')] and [code]. *)
Record EvaluateRequest := {
  mode : Value;
  features : list Value;
  code : Value;
}.

Record MessageData := {
  type : string;
  value : EvaluateRequest;
}.

(** What the worker imports from the engine, and the worker globals it
    uses.  The objects of the engine are opaque to the worker: reading or
    writing a property of one is a call too. *)
Inductive Call : Type :=
| console_log (data : MessageData)
| new_Agent (features : list Value)
| setSurroundingAgent (agent : Result)
| new_ManagedRealm
| scope (realm : Result)
| new_Value (f : Closure)
| GetProperty (o : Result) (name : string)
| SetProperty (o : Result) (name : string) (v : Result)
| CreateDataProperty (obj : Result) (P : Value) (V : Result)
| OrdinaryObjectCreate (proto : Result)
| intrinsic (agent : Result) (name : string)
| postMessage (m : Message)
| inspect (v : Result)
| evaluateScript (realm : Result) (code : Value) (specifier : string)
| createSourceTextModule (realm : Result) (specifier : string) (code : Value)
| Link (module : Result)
| Evaluate (module : Result).

(** What happens between the start of a call into the engine and its
    return, in order: the engine calls the tracker,
    [promiseRejectionTracker(promise, operation)]; the engine calls one of
    the worker's closures; the closure, while it runs, makes a call of its
    own, which returns [r]; the closure returns ([None]: it ends with an
    exception).  A promise is the address of its object. *)
Inductive During : Type :=
| tracker_called (promise : nat) (operation : string)
| closure_called (f : Closure) (args : list Value)
| closure_made (c : Call) (r : Result)
| closure_returned (r : option Result).

(** The answer to a call: what the call returns, and what happened during
    the call. *)
Definition Answer : Type := Result * list During.

(** The worker's own globals, [console.log] and [postMessage].  The engine
    does not run in them. *)
Definition worker_global (c : Call) : bool :=
  match c with
  | console_log _ | postMessage _ => true
  | _ => false
  end.

(** The calls of the reporting loop into the engine: reading a slot of an
    object and formatting a value. *)
Definition reads_only (c : Call) : bool :=
  match c with
  | GetProperty _ _ | inspect _ => true
  | _ => false
  end.

(** How a loop over the set ended: the set has no further entry, or the
    fuel of the model ran out first. *)
Inductive Ended : Type := done | out_of_fuel.

(** [promises.add(promise)] and [promises.delete(promise)] on a
    JavaScript [Set], kept in insertion order. *)
Definition Set_add (promise : nat) (promises : list nat) : list nat :=
  if existsb (Nat.eqb promise) promises then promises
  else promises ++ [promise].

Definition Set_delete (promise : nat) (promises : list nat) : list nat :=
  List.filter (fun p => negb (Nat.eqb promise p)) promises.

Definition promiseRejectionTracker
  (promises : list nat) (promise : nat) (operation : string) : list nat :=
  if String.eqb operation "reject" then Set_add promise promises
  else if String.eqb operation "handle" then Set_delete promise promises
  else promises.

(** The tracker applied to a sequence of calls. *)
Definition track (promises : list nat) (calls : list (nat * string))
  : list nat :=
  fold_left (fun ps c => promiseRejectionTracker ps (fst c) (snd c))
    calls promises.

(** The calls of the tracker, and the messages that closures posted, among
    what happened during a call. *)
Definition tracker_calls (during : list During) : list (nat * string) :=
  flat_map (fun d => match d with
                     | tracker_called promise operation =>
                         [(promise, operation)]
                     | _ => []
                     end) during.

Definition closure_posts (during : list During) : list Message :=
  flat_map (fun d => match d with
                     | closure_made (postMessage m) _ => [m]
                     | _ => []
                     end) during.

(** What the events of a run of a closure are, seen from the call during
    which the closure ran. *)
Definition during_of (evs : list (Event Call Answer)) : list During :=
  flat_map (fun e => snd (ev_resp e)
                     ++ [closure_made (ev_call e) (fst (ev_resp e))]) evs.

(** *** The functions behind [print] and [console]

    The worker wraps them with [new Value(...)]; the engine calls them with
    the list of the arguments.  They call [inspect] and [postMessage]
    as the listener does, but at the time when the engine calls them:
    [host] is what answers then.  [Type(a)] and [a.stringValue()]
    belong to the engine's values, which are not among the sources: the
    two are functions of the value, left open here. *)
Section Closures.
Context {EngineState : Type}.
#[local] Abbreviation Stmt := (Stmt Call Answer (EngineState * list nat)).

Variable host : Host Call Answer (EngineState * list nat).
Variable Type_of : Value -> string.
Variable stringValue : Value -> string.

(** A call, for what it returns. *)
Definition call_with (c : Call) : Stmt Result :=
  let* a := perform host c in ret (fst a).

#[local] Abbreviation call := call_with.

(** [array.map((x, index) => ...)] *)
Fixpoint array_map {A B} (array : list A) (callback : A -> nat -> Stmt B)
  (index : nat) : Stmt (list B) :=
  match array with
  | [] => ret []
  | x :: rest =>
      let* y := callback x index in
      let* ys := array_map rest callback (S index) in
      ret (y :: ys)
  end.

Definition print_body (args : list Value) : Stmt Result :=
  function (
    let* values := array_map args (fun a _ => call (inspect (Plain a))) 0 in
    do call (postMessage (console "log" values)) in
    Return (Plain Value_undefined)).

Definition console_body (method : string) (args : list Value) : Stmt Result :=
  function (
    let* values :=
      array_map args (fun a i =>
        if Nat.eqb i 0 && String.eqb (Type_of a) "String"
        then ret (Plain (js_string (stringValue a)))
        else call (inspect (Plain a))) 0 in
    do call (postMessage (console method values)) in
    Return (Plain Value_undefined)).

(** The function that [new Value(f)] wraps. *)
Definition closure_body (f : Closure) : list Value -> Stmt Result :=
  match f with
  | print_closure => print_body
  | console_closure method => console_body method
  end.
End Closures.

Section Session.
Context {EngineState : Type}.
#[local] Abbreviation Stmt := (Stmt Call Answer (EngineState * list nat)).
#[local] Abbreviation World := (World Call Answer (EngineState * list nat)).
#[local] Abbreviation Host := (Host Call Answer (EngineState * list nat)).

Variable Type_of : Value -> string.
Variable stringValue : Value -> string.

(** What the engine does with a call, from the heap and the state that it
    has when the call is made: it returns, with a new heap and state; or
    it calls the tracker (the one that the worker gives to the realm of
    the session) and goes on; or it calls a closure of the worker
    with arguments, leaving its heap and state as [h] and [s] for the time
    being, answers by [inner] the calls that the closure makes, and goes
    on by [next] from what the closure returned ([None]: an exception) and
    from the heap and state that the calls of the closure left.  The
    worker's [promises] set belongs to the closure of the tracker: the
    engine reaches it only by calling the tracker. *)
Inductive Activity : Type :=
| returns (result : Result) (h : list Cell) (s : EngineState)
| calls_tracker (promise : nat) (operation : string) (next : Activity)
| calls_closure (f : Closure) (args : list Value)
    (h : list Cell) (s : EngineState)
    (inner : Call -> list Cell -> EngineState -> Activity)
    (next : option Result -> list Cell -> EngineState -> Activity).

(** The engine itself. *)
Definition Engine : Type := Call -> list Cell -> EngineState -> Activity.

(** The engine at work, together with the tracker and the closures that it
    calls: a tracker call is applied to [promises] when it is made; a
    closure runs its body when it is called, in the world as it is then.
    A call to a worker global is not answered by the engine: it returns
    [undefined] and nothing happens during it. *)
Fixpoint run_activity (a : Activity) (promises : list nat)
  : Answer * list Cell * (EngineState * list nat) :=
  match a with
  | returns result h s => ((result, []), h, (s, promises))
  | calls_tracker promise operation next =>
      let '((result, during), h, st) :=
        run_activity next (promiseRejectionTracker promises promise operation)
      in
      ((result, tracker_called promise operation :: during), h, st)
  | calls_closure f args h s inner next =>
      let host : Host := fun c h st =>
        if worker_global c then ((Plain js_undefined, []), h, st)
        else run_activity (inner c h (fst st)) (snd st) in
      let o := closure_body host Type_of stringValue f args
                 {| heap := h; ext := (s, promises); log := [] |} in
      let r := match o with
               | Next r _ | Returned r _ => Some r
               | Thrown _ => None
               end in
      let w := world_of o in
      let '((result, during), h', st') :=
        run_activity (next r (heap w) (fst (ext w))) (snd (ext w)) in
      ((result,
        closure_called f args :: during_of (log w)
          ++ closure_returned r :: during),
       h', st')
  end.

(** What answers the calls of the worker, given the engine: the worker's
    own globals apart, the engine at work. *)
Definition host_of (answers : Engine) : Host :=
  fun c h st =>
    if worker_global c then ((Plain js_undefined, []), h, st)
    else run_activity (answers c h (fst st)) (snd st).

Variable engine : Engine.

(** Which objects of the engine have which methods.  The classes of the
    engine are not among the sources; an object has the methods of its
    class. *)
Variable has_method : Value -> string -> bool.

(** What answers the calls of the listener. *)
Definition session_host : Host := host_of engine.

#[local] Abbreviation call := (call_with session_host).

(** [const promises = new Set()] and reading the set. *)
Definition new_Set : Stmt unit :=
  fun w => Next tt {| heap := heap w; ext := (fst (ext w), []);
                      log := log w |}.

Definition get_promises : Stmt (list nat) :=
  fun w => Next (snd (ext w)) w.

(** [o.name] for what a call returned.  A Completion Record has the fields
    [Type], [Value] and [Target]; the property of an engine object is
    asked of the engine, and is a value. *)
Definition CompletionType_string (t : CompletionType) : string :=
  match t with
  | normal => "normal"
  | break => "break"
  | continue => "continue"
  | return_ => "return"
  | throw => "throw"
  end.

Definition get_property (o : Result) (name : string) : Stmt Value :=
  match o with
  | Completion t v target =>
      if String.eqb name "Type" then ret (js_string (CompletionType_string t))
      else if String.eqb name "Value" then ret v
      else if String.eqb name "Target" then ret target
      else ret js_undefined
  | Plain js_undefined => throwTypeError
  | Plain _ => let* r := call (GetProperty o name) in ret (unwrap r)
  end.

(** Whether [o.name] is a function.  [undefined] has no property at all;
    a Completion Record, a JavaScript string and the primitive values of
    the engine have none of the methods that the worker calls; for an
    object, [has_method] knows. *)
Definition callable (o : Result) (name : string) : bool :=
  match o with
  | Plain (Ref l) => has_method (Ref l) name
  | _ => false
  end.

(** [o.name(...)], the call itself being [c]: a TypeError of JavaScript
    when [o.name] is no function. *)
Definition invoke (o : Result) (name : string) (c : Call) : Stmt Result :=
  if callable o name then call c else throwTypeError.

(** Modelled from the spec: [Throw(value)] of the engine's interface, which
    is not among the sources: "a Throw completion carrying the promise's
    rejection value". *)
Definition Throw (v : Value) : Result := Completion throw v js_undefined.

(** The evaluation proper: [let result; if (...) {...} else {...}]. *)
Definition run_code (realm : Result) (req : EvaluateRequest) : Stmt Result :=
  if strict_equal_string (mode req) "script" then
    call (evaluateScript realm (code req) "code.js")
  else
    let* result := call (createSourceTextModule realm "code.mjs" (code req)) in
    if negb (isAbruptCompletion result) then
      let module := result in
      do call (SetProperty realm "moduleEntry" module) in
      let* result := invoke module "Link" (Link module) in
      if negb (isAbruptCompletion result) then
        let* result := invoke module "Evaluate" (Evaluate module) in
        let* PromiseState := get_property result "PromiseState" in
        if strict_equal_string PromiseState "rejected" then
          let* PromiseResult := get_property result "PromiseResult" in
          ret (Throw PromiseResult)
        else ret result
      else ret result
    else ret result.

(** The entries that the iterator of the set has passed and that are
    still in the set after the tracker calls [calls]: an entry that was
    handled is gone (when it is rejected again, it is a new entry, at the
    end of the set). *)
Definition still_seen (seen : list nat) (calls : list (nat * string))
  : list nat :=
  fold_left
    (fun seen c =>
       if String.eqb (snd c) "handle" then Set_delete (fst c) seen else seen)
    calls seen.

(** [for (const promise of promises) { ... }] on the Set.  The iterator of
    a JavaScript Set walks the entries in insertion order and looks at the
    Set as it is at each turn: an entry added during the loop gets its
    turn, an entry deleted before its turn gets none.  [seen] are the
    entries that the iterator has passed and that are still in the Set;
    they are the first entries of the Set, so the next entry is the one
    at index [length seen].  The body hands back the tracker calls that
    the engine made during the turn.  The loop need not end: the model
    runs at most [fuel] turns. *)
Fixpoint for_of_promises (fuel : nat) (seen : list nat)
  (body : nat -> Stmt (list (nat * string))) : Stmt Ended :=
  match fuel with
  | 0 => ret out_of_fuel
  | S fuel' =>
      let* promises := get_promises in
      match promises !! List.length seen with
      | None => ret done
      | Some promise =>
          let* calls := body promise in
          for_of_promises fuel' (still_seen (seen ++ [promise]) calls) body
      end
  end.

(** The body of the loop that reports what is left in [promises]. *)
Definition report (promise : nat) : Stmt (list (nat * string)) :=
  let* read :=
    perform session_host (GetProperty (Plain (Ref promise)) "PromiseResult") in
  let PromiseResult := unwrap (fst read) in
  let* text := perform session_host (inspect (Plain PromiseResult)) in
  do call (postMessage (unhandledRejection (fst text))) in
  ret (tracker_calls (snd read) ++ tracker_calls (snd text)).

(** The listener: [addEventListener('message', ({ data }) => { ... })]. *)
Definition onmessage (fuel : nat) (data : MessageData) : Stmt Ended :=
  do call (console_log data) in
  if String.eqb (type data) "evaluate" then
    let req := value data in
    let* agent := call (new_Agent (features req)) in
    do call (setSurroundingAgent agent) in
    do new_Set in
    let* realm := call new_ManagedRealm in
    do call (scope realm) in
    let* print := call (new_Value print_closure) in
    let* GlobalObject := get_property realm "GlobalObject" in
    do call (CreateDataProperty (Plain GlobalObject) (NewValue "print")
               print) in
    let* proto := call (intrinsic agent "%Object.prototype%") in
    let* console_ := call (OrdinaryObjectCreate proto) in
    let* GlobalObject := get_property realm "GlobalObject" in
    do call (CreateDataProperty (Plain GlobalObject) (NewValue "console")
               console_) in
    do forEach ["log"; "warn"; "debug"; "error"; "clear"] (fun method =>
         let* fn := call (new_Value (console_closure method)) in
         do call (CreateDataProperty console_ (NewValue method) fn) in
         ret tt) in
    do call (postMessage (console "clear" [])) in
    let* result := run_code realm req in
    do (if isAbruptCompletion result then
          let* text := call (inspect result) in
          do call (postMessage (console "error" [text])) in
          ret tt
        else ret tt) in
    for_of_promises fuel [] report
  else ret done.

(** The calls of the tracker that the engine made during a run of the
    worker. *)
Definition tracked (evs : list (Event Call Answer)) : list (nat * string) :=
  flat_map (fun e => tracker_calls (snd (ev_resp e))) evs.

(** The messages that the listener posted in a run, and the messages that
    the closures posted during the calls of that run. *)
Definition posted (evs : list (Event Call Answer)) : list Message :=
  flat_map (fun e => match ev_call e with
                     | postMessage m => [m]
                     | _ => []
                     end) evs.

Definition posted_by_closures (evs : list (Event Call Answer))
  : list Message :=
  flat_map (fun e => closure_posts (snd (ev_resp e))) evs.

Definition is_console (m : Message) : Prop :=
  match m with
  | console _ _ => True
  | unhandledRejection _ => False
  end.

(** An event that is not the report of an unhandled rejection. *)
Definition quiet (e : Event Call Answer) : Prop :=
  match ev_call e with
  | postMessage (unhandledRejection _) => False
  | _ => True
  end.

(** An event during which nothing happened: the engine called neither the
    tracker nor a closure. *)
Definition silent (e : Event Call Answer) : Prop := snd (ev_resp e) = [].

(** An event that posts nothing. *)
Definition no_post (e : Event Call Answer) : Prop :=
  match ev_call e with
  | postMessage _ => False
  | _ => True
  end.

(** The events of the reporting loop over [promises]: for each promise in
    turn its [PromiseResult] is read, formatted with [inspect], and posted
    as an [unhandledRejection] message. *)
Inductive Reports : list nat -> list (Event Call Answer) -> Prop :=
| Reports_nil : Reports [] []
| Reports_cons (p : nat) (ps : list nat) (e1 e2 e3 : Event Call Answer)
    (evs : list (Event Call Answer)) :
    ev_call e1 = GetProperty (Plain (Ref p)) "PromiseResult" ->
    ev_call e2 = inspect (Plain (unwrap (fst (ev_resp e1)))) ->
    ev_call e3 = postMessage (unhandledRejection (fst (ev_resp e2))) ->
    Reports ps evs ->
    Reports (p :: ps) (e1 :: e2 :: e3 :: evs).

(** [m] runs to its end from every world, returns a value that satisfies
    [post], reports no unhandled rejection, and leaves in [promises] what
    the tracker makes of the calls it received meanwhile; the closures
    that ran meanwhile posted console messages only. *)
Definition steps {A} (m : Stmt A) (post : A -> Prop) : Prop :=
  forall w, exists a w' evs,
    m w = Next a w' /\ post a /\
    log w' = log w ++ evs /\
    snd (ext w') = track (snd (ext w)) (tracked evs) /\
    Forall quiet evs /\
    Forall is_console (posted_by_closures evs).

(** Where a run with no fuel for the loop stops, a run with [fuel] goes on
    with the loop. *)
Definition resume (fuel : nat)
  (o : Outcome Call Answer (EngineState * list nat) Ended)
  : Outcome Call Answer (EngineState * list nat) Ended :=
  match o with
  | Next out_of_fuel w => for_of_promises fuel [] report w
  | _ => o
  end.

(** A host whose answers tell what it did to [promises], and during whose
    answers the closures posted console messages only. *)
Definition follows_tracker (host : Host) : Prop :=
  forall c h st,
    snd (snd (host c h st))
    = track (snd st) (tracker_calls (snd (fst (fst (host c h st))))) /\
    Forall is_console (closure_posts (snd (fst (fst (host c h st))))).

(** What [createSourceTextModule] returns is an abrupt completion or a
    module: an object with the methods [Link] and [Evaluate]. *)
Definition makes_modules : Prop :=
  forall realm specifier code h st,
    let x := fst (fst (fst (session_host
               (createSourceTextModule realm specifier code) h st))) in
    isAbruptCompletion x = true \/
    (callable x "Link" = true /\ callable x "Evaluate" = true).

(** While the engine reads a slot of an object or formats a value it runs
    no ECMAScript code: it calls neither the tracker nor a closure. *)
Definition reads_quietly : Prop :=
  forall c h s,
    reads_only c = true ->
    exists result h' s', engine c h s = returns result h' s'.

(** *** What happened during a call *)

Lemma tracker_calls_app (a b : list During) :
  tracker_calls (a ++ b) = tracker_calls a ++ tracker_calls b.
Proof. unfold tracker_calls. apply flat_map_app. Qed.

Lemma closure_posts_app (a b : list During) :
  closure_posts (a ++ b) = closure_posts a ++ closure_posts b.
Proof. unfold closure_posts. apply flat_map_app. Qed.

Lemma track_app (ps : list nat) (a b : list (nat * string)) :
  track ps (a ++ b) = track (track ps a) b.
Proof. unfold track. apply fold_left_app. Qed.

Lemma tracked_app (a b : list (Event Call Answer)) :
  tracked (a ++ b) = tracked a ++ tracked b.
Proof. unfold tracked. apply flat_map_app. Qed.

Lemma posted_app (a b : list (Event Call Answer)) :
  posted (a ++ b) = posted a ++ posted b.
Proof. unfold posted. apply flat_map_app. Qed.

Lemma posted_by_closures_app (a b : list (Event Call Answer)) :
  posted_by_closures (a ++ b) = posted_by_closures a ++ posted_by_closures b.
Proof. unfold posted_by_closures. apply flat_map_app. Qed.

(** The tracker calls during the run of a closure are those made during
    the calls of the closure.  When the closure posts console messages
    only, and so do the closures called during its calls, console
    messages are all that is posted during its run. *)
Lemma tracker_calls_during_of (evs : list (Event Call Answer)) :
  tracker_calls (during_of evs) = tracked evs.
Proof.
  induction evs as [|e evs IH]; [reflexivity |].
  cbn [during_of tracked flat_map]. fold (during_of evs). fold (tracked evs).
  rewrite !tracker_calls_app, IH. cbn [tracker_calls flat_map].
  rewrite app_nil_r. reflexivity.
Qed.

Lemma closure_posts_during_of (evs : list (Event Call Answer)) :
  Forall quiet evs ->
  Forall is_console (posted_by_closures evs) ->
  Forall is_console (closure_posts (during_of evs)).
Proof.
  induction evs as [|e evs IH]; intros Hq Hc; [constructor |].
  cbn [during_of posted_by_closures flat_map] in *.
  fold (during_of evs). fold (posted_by_closures evs) in Hc.
  apply Forall_app in Hc as [Hc1 Hc2].
  apply Forall_cons in Hq as [Hq1 Hq2].
  rewrite !closure_posts_app.
  apply Forall_app. split; [apply Forall_app; split |].
  - exact Hc1.
  - unfold quiet in Hq1. destruct e as [c hh [r d]].
    cbn [ev_call ev_resp fst snd closure_posts flat_map] in *.
    destruct c; try (constructor; fail).
    match goal with m : Message |- _ => destruct m end;
      [repeat constructor | contradiction].
  - apply IH; assumption.
Qed.

(** *** The tracked set *)

Lemma Set_add_In (p q : nat) (ps : list nat) :
  In q (Set_add p ps) <-> q = p \/ In q ps.
Proof.
  unfold Set_add. destruct (existsb (Nat.eqb p) ps) eqn:E.
  - apply existsb_exists in E as (x & Hx & Hpx).
    apply Nat.eqb_eq in Hpx. subst x. intuition congruence.
  - rewrite in_app_iff. cbn [In]. intuition congruence.
Qed.

Lemma Set_delete_In (p q : nat) (ps : list nat) :
  In q (Set_delete p ps) <-> q <> p /\ In q ps.
Proof.
  unfold Set_delete. rewrite filter_In.
  destruct (Nat.eqb_spec p q); cbn [negb]; intuition congruence.
Qed.






(** *** Calls *)

#[local] Abbreviation calls evs := (map ev_call evs).
#[local] Abbreviation returned evs :=
  (map (fun e : Event Call Answer => fst (ev_resp e)) evs).

Lemma call_eq (host : Host) (c : Call) (h : list Cell)
  (st : EngineState * list nat) (lg : list (Event Call Answer)) :
  call_with host c {| heap := h; ext := st; log := lg |}
  = let '(a, h', st') := host c h st in
    Next (fst a)
      {| heap := h'; ext := st';
         log := lg ++ [{| ev_call := c; ev_heap := h; ev_resp := a |}] |}.
Proof.
  unfold call_with, bind, perform, ret. cbn [heap ext log].
  destruct (host c h st) as [[a h'] st']. reflexivity.
Qed.

Lemma perform_eq (host : Host) (c : Call) (h : list Cell)
  (st : EngineState * list nat) (lg : list (Event Call Answer)) :
  perform host c {| heap := h; ext := st; log := lg |}
  = let '(a, h', st') := host c h st in
    Next a
      {| heap := h'; ext := st';
         log := lg ++ [{| ev_call := c; ev_heap := h; ev_resp := a |}] |}.
Proof.
  unfold perform. cbn [heap ext log].
  destruct (host c h st) as [[a h'] st']. reflexivity.
Qed.

Ltac answer_step host :=
  match goal with
  | |- context [host ?c ?h ?st] =>
      let a := fresh "x" in
      let t := fresh "t" in
      let h' := fresh "h" in
      let st' := fresh "st" in
      destruct (host c h st) as [[[a t] h'] st'] eqn:?;
      cbn [heap ext log fst snd]
  end.

Ltac call_step_with host := rewrite call_eq; answer_step host; cbv beta iota.

Ltac call_step := call_step_with session_host.

Lemma get_PromiseState_of_completion (t : CompletionType) (v target : Value) :
  get_property (Completion t v target) "PromiseState" = ret js_undefined.
Proof. reflexivity. Qed.

Lemma get_property_of_object (v : Value) (name : string) :
  v <> js_undefined ->
  get_property (Plain v) name
  = (let* r := call (GetProperty (Plain v) name) in ret (unwrap r)).
Proof. intros Hv. destruct v; try reflexivity. congruence. Qed.

(** *** The evaluation proper *)

(** C8. In module mode the worker first creates the source-text module.
    If that is abrupt, nothing else is called and it is the result.
    Otherwise the module is noted as the realm's entry and [Link()] is
    called; if that is abrupt, [Evaluate()] is not called and the abrupt
    completion is the result.  Otherwise [Evaluate()] is called.  A
    completion it returns is the result.  Of an object it returns, the
    worker reads [PromiseState]; when that is ['rejected'] it reads
    [PromiseResult] and the result is the Throw completion of that value;
    otherwise the result is the object.  Where JavaScript raises a
    TypeError the run ends with it and nothing more is called: when what
    was created has no [Link], or no [Evaluate], and when [Evaluate()]
    returns [undefined]. *)
Theorem module_mode_transitions
  (realm : Result) (req : EvaluateRequest) (w : World) :
  strict_equal_string (mode req) "script" = false ->
  exists evs x1,
    log (world_of (run_code realm req w)) = log w ++ evs /\
    head (calls evs)
    = Some (createSourceTextModule realm "code.mjs" (code req)) /\
    head (returned evs) = Some x1 /\
    (isAbruptCompletion x1 = true ->
     List.length evs = 1 /\
     run_code realm req w = Next x1 (world_of (run_code realm req w))) /\
    (isAbruptCompletion x1 = false ->
     calls evs !! 1 = Some (SetProperty realm "moduleEntry" x1) /\
     (callable x1 "Link" = false ->
      List.length evs = 2 /\
      run_code realm req w = Thrown (world_of (run_code realm req w))) /\
     (callable x1 "Link" = true ->
      exists x3,
        firstn 3 (calls evs)
        = [createSourceTextModule realm "code.mjs" (code req);
           SetProperty realm "moduleEntry" x1;
           Link x1] /\
        returned evs !! 2 = Some x3 /\
        (isAbruptCompletion x3 = true ->
         List.length evs = 3 /\
         run_code realm req w = Next x3 (world_of (run_code realm req w))) /\
        (isAbruptCompletion x3 = false ->
         (callable x1 "Evaluate" = false ->
          List.length evs = 3 /\
          run_code realm req w = Thrown (world_of (run_code realm req w))) /\
         (callable x1 "Evaluate" = true ->
          exists x4,
            calls evs !! 3 = Some (Evaluate x1) /\
            returned evs !! 3 = Some x4 /\
            (isCompletion x4 = true ->
             List.length evs = 4 /\
             run_code realm req w
             = Next x4 (world_of (run_code realm req w))) /\
            (x4 = Plain js_undefined ->
             List.length evs = 4 /\
             run_code realm req w
             = Thrown (world_of (run_code realm req w))) /\
            (isCompletion x4 = false ->
             x4 <> Plain js_undefined ->
             exists state,
               calls evs !! 4 = Some (GetProperty x4 "PromiseState") /\
               returned evs !! 4 = Some state /\
               (unwrap state = js_string "rejected" ->
                exists reason,
                  skipn 5 (calls evs) = [GetProperty x4 "PromiseResult"] /\
                  skipn 5 (returned evs) = [reason] /\
                  run_code realm req w
                  = Next (Throw (unwrap reason))
                      (world_of (run_code realm req w))) /\
               (strict_equal_string (unwrap state) "rejected" = false ->
                List.length evs = 5 /\
                run_code realm req w
                = Next x4 (world_of (run_code realm req w)))))))).
Proof.
  intros Hmode. destruct w as [h st lg].
  unfold run_code. rewrite Hmode. unfold bind, ret, invoke, throwTypeError.
  call_step.
  destruct (isAbruptCompletion x) eqn:A1; cbn [negb]; cbv beta iota.
  { do 2 eexists. split; [reflexivity |].
    split; [reflexivity |]. split; [reflexivity |].
    split; [intros _; split; reflexivity | intros; cbn in *; congruence]. }
  call_step.
  destruct (callable x "Link") eqn:HL; cbv beta iota.
  2:{ do 2 eexists.
      split; [cbn [world_of log]; rewrite <- !app_assoc; reflexivity |].
      split; [reflexivity |]. split; [reflexivity |].
      split; [intros; cbn in *; congruence |]. intros _.
      split; [reflexivity |].
      split; [intros _; split; reflexivity | intros; cbn in *; congruence]. }
  call_step.
  destruct (isAbruptCompletion x1) eqn:A3; cbn [negb]; cbv beta iota.
  { do 2 eexists.
    split; [cbn [world_of log]; rewrite <- !app_assoc; reflexivity |].
    split; [reflexivity |]. split; [reflexivity |].
    split; [intros; cbn in *; congruence |]. intros _.
    split; [reflexivity |].
    split; [intros; cbn in *; congruence |]. intros _.
    eexists. split; [reflexivity |]. split; [reflexivity |].
    split; [intros _; split; reflexivity | intros; cbn in *; congruence]. }
  destruct (callable x "Evaluate") eqn:HE; cbv beta iota.
  2:{ do 2 eexists.
      split; [cbn [world_of log]; rewrite <- !app_assoc; reflexivity |].
      split; [reflexivity |]. split; [reflexivity |].
      split; [intros; cbn in *; congruence |]. intros _.
      split; [reflexivity |].
      split; [intros; cbn in *; congruence |]. intros _.
      eexists. split; [reflexivity |]. split; [reflexivity |].
      split; [intros; cbn in *; congruence |]. intros _.
      split; [intros _; split; reflexivity | intros; cbn in *; congruence]. }
  call_step.
  destruct x2 as [v | ty v target].
  2:{ rewrite get_PromiseState_of_completion. unfold ret. cbv beta iota.
      replace (strict_equal_string js_undefined "rejected") with false
        by reflexivity.
      cbv beta iota.
      do 2 eexists.
      split; [cbn [world_of log]; rewrite <- !app_assoc; reflexivity |].
      split; [reflexivity |]. split; [reflexivity |].
      split; [intros; cbn in *; congruence |]. intros _.
      split; [reflexivity |].
      split; [intros; cbn in *; congruence |]. intros _.
      eexists. split; [reflexivity |]. split; [reflexivity |].
      split; [intros; cbn in *; congruence |]. intros _.
      split; [intros; cbn in *; congruence |]. intros _.
      eexists. split; [reflexivity |]. split; [reflexivity |].
      split; [intros _; split; reflexivity |].
      split; [intros; discriminate | intros; cbn in *; congruence]. }
  destruct (Value_eq_dec v js_undefined) as [-> | Hv].
  { cbn [get_property throwTypeError].
    do 2 eexists.
    split; [cbn [world_of log]; rewrite <- !app_assoc; reflexivity |].
    split; [reflexivity |]. split; [reflexivity |].
    split; [intros; cbn in *; congruence |]. intros _.
    split; [reflexivity |].
    split; [intros; cbn in *; congruence |]. intros _.
    eexists. split; [reflexivity |]. split; [reflexivity |].
    split; [intros; cbn in *; congruence |]. intros _.
    split; [intros; cbn in *; congruence |]. intros _.
    eexists. split; [reflexivity |]. split; [reflexivity |].
    split; [intros; cbn in *; congruence |].
    split; [intros _; split; reflexivity |].
    intros _ Hu. cbn in Hu. congruence. }
  rewrite (get_property_of_object v "PromiseState" Hv).
  unfold bind, ret. call_step.
  destruct (strict_equal_string (unwrap x2) "rejected") eqn:Hrej; cbv beta iota.
  - rewrite (get_property_of_object v "PromiseResult" Hv).
    unfold bind, ret. call_step.
    do 2 eexists.
    split; [cbn [world_of log]; rewrite <- !app_assoc; reflexivity |].
    split; [reflexivity |]. split; [reflexivity |].
    split; [intros; cbn in *; congruence |]. intros _.
    split; [reflexivity |].
    split; [intros; cbn in *; congruence |]. intros _.
    eexists. split; [reflexivity |]. split; [reflexivity |].
    split; [intros; cbn in *; congruence |]. intros _.
    split; [intros; cbn in *; congruence |]. intros _.
    eexists. split; [reflexivity |]. split; [reflexivity |].
    split; [intros; cbn in *; congruence |].
    split; [intros; cbn in *; congruence |]. intros _ _.
    eexists. split; [reflexivity |]. split; [reflexivity |].
    split.
    + intros _. eexists. split; [reflexivity |]. split; reflexivity.
    + intros Hn. cbn in Hn. congruence.
  - do 2 eexists.
    split; [cbn [world_of log]; rewrite <- !app_assoc; reflexivity |].
    split; [reflexivity |]. split; [reflexivity |].
    split; [intros; cbn in *; congruence |]. intros _.
    split; [reflexivity |].
    split; [intros; cbn in *; congruence |]. intros _.
    eexists. split; [reflexivity |]. split; [reflexivity |].
    split; [intros; cbn in *; congruence |]. intros _.
    split; [intros; cbn in *; congruence |]. intros _.
    eexists. split; [reflexivity |]. split; [reflexivity |].
    split; [intros; cbn in *; congruence |].
    split; [intros; cbn in *; congruence |]. intros _ _.
    eexists. split; [reflexivity |]. split; [reflexivity |].
    split.
    + intros Hs. cbn in Hs. rewrite Hs in Hrej. discriminate.
    + intros _. split; reflexivity.
Qed.

(** *** Runs that follow the tracker *)

Lemma steps_ret {A} (a : A) (post : A -> Prop) : post a -> steps (ret a) post.
Proof.
  intros Ha w. exists a, w, [].
  cbn [tracked posted_by_closures flat_map track fold_left].
  rewrite app_nil_r. repeat split; [exact Ha | constructor | constructor].
Qed.

Lemma steps_bind {A B} (m : Stmt A) (k : A -> Stmt B)
  (mid : A -> Prop) (post : B -> Prop) :
  steps m mid -> (forall a, mid a -> steps (k a) post) -> steps (bind m k) post.
Proof.
  intros Hm Hk w. unfold bind.
  destruct (Hm w) as (a & w1 & evs1 & -> & Ha & L1 & T1 & Q1 & C1).
  destruct (Hk a Ha w1) as (b & w2 & evs2 & -> & Hb & L2 & T2 & Q2 & C2).
  exists b, w2, (evs1 ++ evs2).
  split; [reflexivity |]. split; [exact Hb |].
  split; [rewrite L2, L1, app_assoc; reflexivity |].
  split; [rewrite T2, T1, tracked_app, track_app; reflexivity |].
  split; [apply Forall_app; split; assumption |].
  rewrite posted_by_closures_app. apply Forall_app. split; assumption.
Qed.

Lemma steps_call (host : Host) (c : Call) (post : Result -> Prop) :
  follows_tracker host ->
  quiet {| ev_call := c; ev_heap := []; ev_resp := (Plain js_undefined, []) |} ->
  (forall h st, post (fst (fst (fst (host c h st))))) ->
  steps (call_with host c) post.
Proof.
  intros Hhost Hq Hpost [h st lg]. rewrite call_eq.
  pose proof (Hpost h st) as Hp. destruct (Hhost c h st) as [T C].
  destruct (host c h st) as [[[r t] h'] st']. cbn [fst snd] in *.
  do 3 eexists. split; [reflexivity |]. split; [exact Hp |].
  split; [reflexivity |].
  cbn [ext snd tracked posted_by_closures flat_map ev_call ev_resp].
  rewrite !app_nil_r.
  split; [exact T |].
  split; [| exact C].
  repeat constructor. unfold quiet in *. cbn [ev_call] in *. exact Hq.
Qed.

Lemma steps_array_map {A B} (array : list A) (callback : A -> nat -> Stmt B) :
  (forall x i, steps (callback x i) (fun _ => True)) ->
  forall index, steps (array_map array callback index) (fun _ => True).
Proof.
  intros Hcb. induction array as [|x rest IH]; intros index; cbn [array_map].
  - apply steps_ret. exact I.
  - eapply steps_bind; [apply Hcb |]. intros y _.
    eapply steps_bind; [apply IH |]. intros ys _.
    apply steps_ret. exact I.
Qed.

(** A function that ends with [return v]. *)
Lemma steps_function_Return {A B} (m : Stmt A) (k : A -> Stmt B) (v : Result) :
  steps m (fun _ => True) ->
  (forall a, steps (k a) (fun _ => True)) ->
  steps (function (bind m (fun a => bind (k a) (fun _ => Return v))))
    (fun r => r = v).
Proof.
  intros Hm Hk w. unfold function, bind, Return.
  destruct (Hm w) as (a & w1 & evs1 & -> & _ & L1 & T1 & Q1 & C1).
  destruct (Hk a w1) as (b & w2 & evs2 & -> & _ & L2 & T2 & Q2 & C2).
  exists v, w2, (evs1 ++ evs2).
  split; [reflexivity |]. split; [reflexivity |].
  split; [rewrite L2, L1, app_assoc; reflexivity |].
  split; [rewrite T2, T1, tracked_app, track_app; reflexivity |].
  split; [apply Forall_app; split; assumption |].
  rewrite posted_by_closures_app. apply Forall_app. split; assumption.
Qed.

(** A closure runs to its end and returns [Value.undefined]; what it posts
    is a console message. *)
Lemma closure_body_steps (host : Host) (f : Closure) (args : list Value) :
  follows_tracker host ->
  steps (closure_body host Type_of stringValue f args)
    (fun r => r = Plain Value_undefined).
Proof.
  intros Hhost. destruct f as [| method]; cbn [closure_body].
  - unfold print_body. apply steps_function_Return.
    + apply steps_array_map. intros a _.
      apply steps_call; [exact Hhost | exact I | intros; exact I].
    + intros values.
      apply steps_call; [exact Hhost | exact I | intros; exact I].
  - unfold console_body. apply steps_function_Return.
    + apply steps_array_map. intros a i.
      destruct (Nat.eqb i 0 && String.eqb (Type_of a) "String").
      * apply steps_ret. exact I.
      * apply steps_call; [exact Hhost | exact I | intros; exact I].
    + intros values.
      apply steps_call; [exact Hhost | exact I | intros; exact I].
Qed.

(** The engine at work follows the tracker. *)
Lemma run_activity_follows (a : Activity) :
  forall promises,
    snd (snd (run_activity a promises))
    = track promises (tracker_calls (snd (fst (fst (run_activity a promises)))))
    /\ Forall is_console
         (closure_posts (snd (fst (fst (run_activity a promises))))).
Proof.
  induction a as [result h s | promise operation next IH
                 | f args h s inner IHinner next IHnext];
    intros promises.
  - cbn. split; [reflexivity | constructor].
  - cbn [run_activity].
    destruct (IH (promiseRejectionTracker promises promise operation))
      as [T C].
    destruct (run_activity next _) as [[[result during] h] st].
    cbn [fst snd] in *. split; [exact T | exact C].
  - cbn [run_activity]. cbv zeta.
    match goal with
    | |- context [closure_body ?host _ _ f args ?w] =>
        assert (Hhost : follows_tracker host);
        [| destruct (closure_body_steps host f args Hhost w)
             as (r & w2 & evs & E & -> & L & T & Qs & Cs); rewrite E ]
    end.
    { intros c h0 st. destruct (worker_global c).
      - cbn. split; [reflexivity | constructor].
      - apply IHinner. }
    cbn [world_of]. cbn [log ext snd app] in L, T.
    destruct (IHnext (Some (Plain Value_undefined)) (heap w2) (fst (ext w2))
                (snd (ext w2))) as [T2 C2].
    destruct (run_activity _ (snd (ext w2))) as [[[result during] h'] st'].
    cbn [fst snd] in *.
    rewrite L.
    split.
    + cbn [tracker_calls flat_map app].
      fold (tracker_calls (during_of evs ++ closure_returned
                             (Some (Plain Value_undefined)) :: during)).
      rewrite tracker_calls_app, tracker_calls_during_of.
      cbn [tracker_calls flat_map app]. fold (tracker_calls during).
      rewrite track_app, <- T. exact T2.
    + cbn [closure_posts flat_map app].
      fold (closure_posts (during_of evs ++ closure_returned
                             (Some (Plain Value_undefined)) :: during)).
      rewrite closure_posts_app. apply Forall_app. split.
      * apply closure_posts_during_of; assumption.
      * cbn [closure_posts flat_map app]. exact C2.
Qed.

Lemma host_of_follows (answers : Engine) : follows_tracker (host_of answers).
Proof.
  intros c h st. unfold host_of. destruct (worker_global c).
  - cbn. split; [reflexivity | constructor].
  - apply run_activity_follows.
Qed.

Lemma session_host_follows : follows_tracker session_host.
Proof. apply host_of_follows. Qed.

(** A worker global returns [undefined], and nothing happens during it. *)
Lemma worker_global_answer (c : Call) (h : list Cell)
  (st : EngineState * list nat) :
  worker_global c = true ->
  session_host c h st = ((Plain js_undefined, []), h, st).
Proof. intros Hc. unfold session_host, host_of. rewrite Hc. reflexivity. Qed.

(** With an engine that reads quietly, nothing happens during a read. *)
Lemma reads_answer (c : Call) (h : list Cell) (st : EngineState * list nat) :
  reads_quietly ->
  reads_only c = true ->
  exists result h' s',
    session_host c h st = ((result, []), h', (s', snd st)).
Proof.
  intros Hreads Hc. destruct (Hreads c h (fst st) Hc) as (r & h' & s' & E).
  exists r, h', s'. unfold session_host, host_of. rewrite E.
  destruct c; try discriminate; reflexivity.
Qed.

(** *** The session *)

Ltac follow_step K :=
  rewrite call_eq;
  match goal with
  | |- context [session_host ?c ?h ?st] =>
      let a := fresh "x" in
      let t := fresh "t" in
      let h' := fresh "h" in
      let st' := fresh "st" in
      let T := fresh "Htrack" in
      pose proof (session_host_follows c h st) as [T K];
      destruct (session_host c h st) as [[[a t] h'] st'];
      cbn [fst snd] in T, K
  end;
  cbn [heap ext log fst snd]; cbv beta iota.

Ltac easy_call :=
  apply steps_call with (post := fun _ => True);
  [apply session_host_follows | exact I | intros; exact I].

Lemma steps_get_property (o : Result) (name : string) :
  o <> Plain js_undefined ->
  steps (get_property o name) (fun _ => True).
Proof.
  intros Ho. destruct o as [v | t v target].
  - rewrite get_property_of_object by congruence.
    eapply steps_bind; [easy_call |].
    intros r _. apply steps_ret. exact I.
  - cbn [get_property].
    repeat match goal with
      | |- context [String.eqb ?a ?b] => destruct (String.eqb a b)
      end; apply steps_ret; exact I.
Qed.


Lemma steps_run_code (realm : Result) (req : EvaluateRequest) :
  makes_modules ->
  (forall m h st,
     fst (fst (fst (session_host (Evaluate m) h st))) <> Plain js_undefined) ->
  steps (run_code realm req) (fun _ => True).
Proof.
  intros Hmod Hev. unfold run_code.
  destruct (strict_equal_string (mode req) "script"); [easy_call |].
  eapply steps_bind;
    [apply steps_call
       with (post := fun x => isAbruptCompletion x = true \/
                              (callable x "Link" = true /\
                               callable x "Evaluate" = true));
     [apply session_host_follows | exact I | intros; apply Hmod] |].
  intros result Hresult.
  destruct (isAbruptCompletion result) eqn:Hab; cbn [negb];
    [apply steps_ret; exact I |].
  destruct Hresult as [Habrupt | [HL HE]]; [congruence |].
  eapply steps_bind; [easy_call | intros _ _].
  unfold invoke. rewrite HL, HE.
  eapply steps_bind; [easy_call | intros linked _].
  destruct (isAbruptCompletion linked); cbn [negb];
    [apply steps_ret; exact I |].
  eapply steps_bind;
    [apply steps_call with (post := fun r => r <> Plain js_undefined);
     [apply session_host_follows | exact I | intros; apply Hev] |].
  intros evaluated Hne.
  eapply steps_bind; [apply steps_get_property; exact Hne |].
  intros state _.
  destruct (strict_equal_string state "rejected").
  - eapply steps_bind; [apply steps_get_property; exact Hne |].
    intros reason _. apply steps_ret. exact I.
  - apply steps_ret. exact I.
Qed.

(** One turn of the loop, with an engine that reads quietly: three calls,
    during which nothing happens, and the set is as it was. *)
Lemma report_turn (p : nat) (w : World) :
  reads_quietly ->
  exists w' e1 e2 e3,
    report p w = Next [] w' /\
    log w' = log w ++ [e1; e2; e3] /\
    snd (ext w') = snd (ext w) /\
    ev_call e1 = GetProperty (Plain (Ref p)) "PromiseResult" /\
    ev_call e2 = inspect (Plain (unwrap (fst (ev_resp e1)))) /\
    ev_call e3 = postMessage (unhandledRejection (fst (ev_resp e2))) /\
    Forall silent [e1; e2; e3].
Proof.
  intros Hreads. destruct w as [h st lg].
  unfold report.
  unfold bind at 1. rewrite perform_eq.
  destruct (reads_answer (GetProperty (Plain (Ref p)) "PromiseResult") h st
              Hreads eq_refl) as (r1 & h1 & s1 & ->).
  cbn [fst snd]. cbv beta iota zeta.
  unfold bind at 1. rewrite perform_eq.
  destruct (reads_answer (inspect (Plain (unwrap r1))) h1 (s1, snd st)
              Hreads eq_refl) as (r2 & h2 & s2 & ->).
  cbn [fst snd]. cbv beta iota.
  unfold bind at 1. rewrite call_eq.
  rewrite worker_global_answer by reflexivity.
  cbv beta iota. unfold ret.
  do 4 eexists.
  split; [reflexivity |].
  split; [cbn [log]; rewrite <- !app_assoc; reflexivity |].
  split; [reflexivity |].
  split; [reflexivity |]. split; [reflexivity |]. split; [reflexivity |].
  repeat constructor.
Qed.

(** The loop, with an engine that reads quietly and fuel for one turn more
    than the entries that are left: it reports these, in their order, and
    ends because the set has no further entry. *)
Lemma report_loop (rest : list nat) :
  reads_quietly ->
  forall (seen : list nat) (w : World),
    snd (ext w) = seen ++ rest ->
    exists w' loop,
      (forall fuel,
         List.length rest < fuel ->
         for_of_promises fuel seen report w = Next done w') /\
      log w' = log w ++ loop /\
      snd (ext w') = snd (ext w) /\
      Forall silent loop /\
      Reports rest loop.
Proof.
  intros Hreads. induction rest as [|p rest IH]; intros seen w Hset.
  - exists w, []. rewrite app_nil_r in *.
    split.
    { intros fuel Hfuel. destruct fuel as [|fuel]; [cbn in Hfuel; lia |].
      cbn [for_of_promises]. unfold bind, get_promises. rewrite Hset.
      rewrite (lookup_ge_None_2 seen (List.length seen)) by lia.
      reflexivity. }
    repeat split; constructor.
  - destruct (report_turn p w Hreads)
      as (w1 & e1 & e2 & e3 & E & L & T & C1 & C2 & C3 & S1).
    destruct (IH (seen ++ [p]) w1) as (w' & loop & F & L' & T' & S' & R).
    { rewrite T, Hset, <- app_assoc. reflexivity. }
    exists w', ([e1; e2; e3] ++ loop).
    split.
    { intros fuel Hfuel. destruct fuel as [|fuel]; [cbn in Hfuel; lia |].
      cbn [for_of_promises]. unfold bind at 1. unfold get_promises at 1.
      rewrite Hset.
      rewrite (list_lookup_middle seen rest p (List.length seen) eq_refl).
      unfold bind at 1. rewrite E.
      cbn [still_seen fold_left].
      apply F. cbn [List.length] in Hfuel. lia. }
    split; [rewrite L', L, <- app_assoc; reflexivity |].
    split; [rewrite T', T; reflexivity |].
    split; [apply Forall_app; split; assumption |].
    cbn [app]. econstructor; eassumption.
Qed.

Lemma silent_tracked (evs : list (Event Call Answer)) :
  Forall silent evs -> tracked evs = [] /\ posted_by_closures evs = [].
Proof.
  induction 1 as [|e evs He _ [IH1 IH2]]; [split; reflexivity |].
  unfold silent in He. destruct e as [c h [r d]].
  cbn [ev_resp snd] in He. subst d.
  cbn [tracked posted_by_closures flat_map ev_resp snd].
  fold (tracked evs). fold (posted_by_closures evs).
  rewrite IH1, IH2. split; reflexivity.
Qed.

Lemma bind_resume {A} (fuel : nat) (m : Stmt A) (k k0 : A -> Stmt Ended) :
  (forall a w, k a w = resume fuel (k0 a w)) ->
  forall w, bind m k w = resume fuel (bind m k0 w).
Proof.
  intros H w. unfold bind. destruct (m w); [apply H | reflexivity | reflexivity].
Qed.

(** A run with [fuel] is the run with no fuel, gone on with the loop. *)
Lemma onmessage_resume (fuel : nat) (data : MessageData) (w : World) :
  onmessage fuel data w = resume fuel (onmessage 0 data w).
Proof.
  unfold onmessage. apply bind_resume. intros _ w1.
  destruct (String.eqb (type data) "evaluate"); [| reflexivity].
  cbv zeta.
  repeat (apply bind_resume; intros).
  reflexivity.
Qed.


(** *** The tracker, operation by operation *)

Lemma Set_delete_absent (p : nat) (ps : list nat) :
  ~ In p ps -> Set_delete p ps = ps.
Proof.
  unfold Set_delete. induction ps as [|q ps IH]; intros Hp; [reflexivity |].
  cbn [List.filter].
  destruct (Nat.eqb_spec p q) as [-> | Hne]; cbn [negb].
  - exfalso. apply Hp. left. reflexivity.
  - rewrite IH; [reflexivity |]. intros Hin. apply Hp. right. exact Hin.
Qed.

Lemma Set_add_present (p : nat) (ps : list nat) :
  In p ps -> Set_add p ps = ps.
Proof.
  intros Hin. unfold Set_add.
  replace (existsb (Nat.eqb p) ps) with true; [reflexivity |].
  symmetry. apply existsb_exists. exists p. split; [exact Hin |].
  apply Nat.eqb_refl.
Qed.

(** The tracker on one promise.  ['reject'] and ['handle'] are idempotent;
    after ['reject'] the promise is in the set and after ['handle'] it is
    not.  A promise that is rejected again while it is in the set keeps its
    place; a ['handle'] for a promise that is not in the set changes
    nothing; and ['reject'] followed by ['handle'] of a promise that was not
    in the set gives the set back as it was. *)
Theorem tracker_round_trip (promises : list nat) (promise : nat) :
  let reject := fun ps => promiseRejectionTracker ps promise "reject" in
  let handle := fun ps => promiseRejectionTracker ps promise "handle" in
  reject (reject promises) = reject promises /\
  handle (handle promises) = handle promises /\
  In promise (reject promises) /\
  ~ In promise (handle promises) /\
  (In promise promises -> reject promises = promises) /\
  (~ In promise promises ->
   handle promises = promises /\ handle (reject promises) = promises).
Proof.
  cbv zeta. unfold promiseRejectionTracker.
  change (String.eqb "reject" "reject") with true.
  change (String.eqb "handle" "reject") with false.
  change (String.eqb "handle" "handle") with true.
  cbv beta iota.
  assert (Hin : In promise (Set_add promise promises))
    by (apply Set_add_In; left; reflexivity).
  assert (Hout : ~ In promise (Set_delete promise promises))
    by (rewrite Set_delete_In; intros [Hne _]; congruence).
  split; [apply Set_add_present, Hin |].
  split; [apply Set_delete_absent, Hout |].
  split; [exact Hin |].
  split; [exact Hout |].
  split; [apply Set_add_present |].
  intros Hp. split; [apply Set_delete_absent, Hp |].
  unfold Set_add.
  replace (existsb (Nat.eqb promise) promises) with false.
  - unfold Set_delete. rewrite List.filter_app. cbn [List.filter].
    rewrite Nat.eqb_refl. cbn [negb]. rewrite app_nil_r.
    apply Set_delete_absent, Hp.
  - symmetry. apply not_true_is_false. intros Hex.
    apply existsb_exists in Hex as (x & Hx & Hpx).
    apply Nat.eqb_eq in Hpx. subst x. exact (Hp Hx).
Qed.


(** *** A message that is no evaluation request *)

(** A message whose type is not ['evaluate'] is logged and nothing else:
    one call, [console.log], no agent or realm is made, nothing is posted,
    and [promises] stays as it is. *)
Theorem other_messages_are_ignored
  (fuel : nat) (data : MessageData) (w : World) :
  type data <> "evaluate" ->
  exists e w',
    onmessage fuel data w = Next done w' /\
    log w' = log w ++ [e] /\
    ev_call e = console_log data /\
    snd (ext w') = snd (ext w).
Proof.
  intros Htype. destruct w as [h st lg].
  unfold onmessage. apply String.eqb_neq in Htype. rewrite Htype.
  unfold bind. rewrite call_eq, worker_global_answer by reflexivity.
  do 2 eexists. repeat split.
Qed.

(** *** Script mode *)

(** In script mode the evaluation is one call,
    [realm.evaluateScript(code, { specifier: 'code.js' })], and what it
    returns is the result as it is: no module is created, and no
    [PromiseState] is read of what the script evaluates to. *)
Theorem script_mode_is_one_call
  (realm : Result) (req : EvaluateRequest) (w : World) :
  strict_equal_string (mode req) "script" = true ->
  exists e,
    log (world_of (run_code realm req w)) = log w ++ [e] /\
    ev_call e = evaluateScript realm (code req) "code.js" /\
    run_code realm req w
    = Next (fst (ev_resp e)) (world_of (run_code realm req w)).
Proof.
  intros Hmode. destruct w as [h st lg].
  unfold run_code. rewrite Hmode. call_step.
  eexists. repeat split.
Qed.

(** *** What a session posts *)

Lemma no_post_posted (evs : list (Event Call Answer)) :
  Forall no_post evs -> posted evs = [].
Proof.
  induction 1 as [|e evs He _ IH]; [reflexivity |].
  cbn [posted flat_map]. fold (posted evs). rewrite IH.
  unfold no_post in He. destruct (ev_call e); try reflexivity. contradiction.
Qed.

Lemma logs_only_weaken {A} (P R : Event Call Answer -> Prop) (m : Stmt A) :
  (forall e, P e -> R e) -> logs_only P m -> logs_only R m.
Proof.
  intros HPR Hm w. destruct (Hm w) as (evs & L & F).
  exists evs. split; [exact L |].
  eapply Forall_impl; [exact F | exact HPR].
Qed.

Lemma logs_only_call (P : Event Call Answer -> Prop) (c : Call) :
  (forall h r, P {| ev_call := c; ev_heap := h; ev_resp := r |}) ->
  logs_only P (call c).
Proof.
  intros Hc. unfold call_with. apply logs_only_bind.
  - apply logs_only_perform, Hc.
  - intros a. apply logs_only_ret.
Qed.

Lemma logs_only_get_property (P : Event Call Answer -> Prop)
  (o : Result) (name : string) :
  (forall h r, P {| ev_call := GetProperty o name; ev_heap := h;
                    ev_resp := r |}) ->
  logs_only P (get_property o name).
Proof.
  intros Hc. destruct o as [v | t v target].
  - destruct v; cbn [get_property];
      first [ apply logs_only_silent; reflexivity
            | apply logs_only_bind;
              [apply logs_only_call, Hc | intros r; apply logs_only_ret] ].
  - cbn [get_property].
    repeat match goal with
      | |- context [String.eqb ?a ?b] => destruct (String.eqb a b)
      end; apply logs_only_ret.
Qed.

Ltac quiet_call :=
  apply logs_only_call; intros; exact I.

(** The listener posts nothing while it has the code evaluated. *)
Lemma run_code_posts_nothing (realm : Result) (req : EvaluateRequest) :
  logs_only no_post (run_code realm req).
Proof.
  unfold run_code.
  destruct (strict_equal_string (mode req) "script"); [quiet_call |].
  apply logs_only_bind; [quiet_call | intros result].
  destruct (isAbruptCompletion result); cbn [negb]; [apply logs_only_ret |].
  apply logs_only_bind; [quiet_call | intros _].
  unfold invoke.
  apply logs_only_bind;
    [destruct (callable result "Link");
     [quiet_call | apply logs_only_silent; reflexivity] | intros linked].
  destruct (isAbruptCompletion linked); cbn [negb]; [apply logs_only_ret |].
  apply logs_only_bind;
    [destruct (callable result "Evaluate");
     [quiet_call | apply logs_only_silent; reflexivity] | intros evaluated].
  apply logs_only_bind;
    [apply logs_only_get_property; intros; exact I | intros state].
  destruct (strict_equal_string state "rejected"); [| apply logs_only_ret].
  apply logs_only_bind;
    [apply logs_only_get_property; intros; exact I | intros reason].
  apply logs_only_ret.
Qed.

(** The reporting loop posts one [unhandledRejection] per promise, with
    the text that [inspect] gave for it, and nothing else. *)
Lemma Reports_posted (promises : list nat) (loop : list (Event Call Answer)) :
  Reports promises loop ->
  exists texts,
    posted loop = map unhandledRejection texts /\
    List.length texts = List.length promises.
Proof.
  induction 1 as [|p ps e1 e2 e3 evs H1 H2 H3 _ (texts & Hp & Hlen)].
  - exists []. split; reflexivity.
  - exists (fst (ev_resp e2) :: texts).
    cbn [posted flat_map]. rewrite H1, H2, H3. cbn [app map List.length].
    fold (posted evs). rewrite Hp, Hlen. split; reflexivity.
Qed.

(** What the listener does once the globals are in place: the evaluation,
    the report of an abrupt result, the report of the rejections left. *)
Definition evaluate_and_report
  (fuel : nat) (realm : Result) (req : EvaluateRequest) : Stmt Ended :=
  let* result := run_code realm req in
  do (if isAbruptCompletion result then
        let* text := call (inspect result) in
        do call (postMessage (console "error" [text])) in
        ret tt
      else ret tt) in
  for_of_promises fuel [] report.

(** The calls that put the globals in place, given what the engine
    answered. *)
Definition setup_calls (data : MessageData)
  (agent realm print global1 proto console_ global2 : Result)
  (fn_log fn_warn fn_debug fn_error fn_clear : Result) : list Call :=
  [console_log data;
   new_Agent (features (value data));
   setSurroundingAgent agent;
   new_ManagedRealm;
   scope realm;
   new_Value print_closure;
   GetProperty realm "GlobalObject";
   CreateDataProperty (Plain (unwrap global1)) (NewValue "print") print;
   intrinsic agent "%Object.prototype%";
   OrdinaryObjectCreate proto;
   GetProperty realm "GlobalObject";
   CreateDataProperty (Plain (unwrap global2)) (NewValue "console") console_;
   new_Value (console_closure "log");
   CreateDataProperty console_ (NewValue "log") fn_log;
   new_Value (console_closure "warn");
   CreateDataProperty console_ (NewValue "warn") fn_warn;
   new_Value (console_closure "debug");
   CreateDataProperty console_ (NewValue "debug") fn_debug;
   new_Value (console_closure "error");
   CreateDataProperty console_ (NewValue "error") fn_error;
   new_Value (console_closure "clear");
   CreateDataProperty console_ (NewValue "clear") fn_clear;
   postMessage (console "clear" [])].

Lemma setup_run (fuel : nat) (data : MessageData) (w : World) :
  type data = "evaluate" ->
  (forall h st, exists v,
     fst (fst (fst (session_host new_ManagedRealm h st))) = Plain v /\
     v <> js_undefined) ->
  exists before w1 agent realm print global1 proto console_ global2
         fn_log fn_warn fn_debug fn_error fn_clear,
    onmessage fuel data w = evaluate_and_report fuel realm (value data) w1 /\
    log w1 = log w ++ before /\
    calls before
    = setup_calls data agent realm print global1 proto console_ global2
        fn_log fn_warn fn_debug fn_error fn_clear /\
    (exists a0 a2 a4 a7 a11 a13 a15 a17 a19 a21 a22,
       returned before
       = [a0; agent; a2; realm; a4; print; global1; a7; proto; console_;
          global2; a11; fn_log; a13; fn_warn; a15; fn_debug; a17; fn_error;
          a19; fn_clear; a21; a22]) /\
    isCompletion realm = false /\ realm <> Plain js_undefined /\
    Forall is_console (posted_by_closures before).
Proof.
  intros Htype Hobj. destruct w as [h st lg].
  unfold onmessage. rewrite Htype, String.eqb_refl.
  unfold bind at 1. follow_step K0.
  unfold bind at 1. follow_step K1.
  unfold bind at 1. follow_step K2.
  unfold bind at 1. unfold new_Set at 1. cbn [heap ext log fst snd].
  cbv beta iota.
  unfold bind at 1.
  match goal with
  | |- context [call_with session_host new_ManagedRealm
                  {| heap := ?hh; ext := ?ss; log := _ |}] =>
      destruct (Hobj hh ss) as (v & Hv & Hne)
  end.
  follow_step K3. cbn [fst snd] in Hv. subst x2.
  unfold bind at 1. follow_step K4.
  unfold bind at 1. follow_step K5.
  unfold bind at 1. rewrite (get_property_of_object v "GlobalObject" Hne).
  unfold bind at 1. follow_step K6. unfold ret at 1.
  unfold bind at 1. follow_step K7.
  unfold bind at 1. follow_step K8.
  unfold bind at 1. follow_step K9.
  unfold bind at 1.
  unfold bind at 1. follow_step K10. unfold ret at 1.
  unfold bind at 1. follow_step K11.
  unfold bind at 1. cbn [forEach].
  unfold bind at 1; unfold function at 1.
  unfold bind at 1; follow_step K12.
  unfold bind at 1; follow_step K13.
  unfold ret at 1.
  unfold bind at 1; unfold function at 1.
  unfold bind at 1; follow_step K14.
  unfold bind at 1; follow_step K15.
  unfold ret at 1.
  unfold bind at 1; unfold function at 1.
  unfold bind at 1; follow_step K16.
  unfold bind at 1; follow_step K17.
  unfold ret at 1.
  unfold bind at 1; unfold function at 1.
  unfold bind at 1; follow_step K18.
  unfold bind at 1; follow_step K19.
  unfold ret at 1.
  unfold bind at 1; unfold function at 1.
  unfold bind at 1; follow_step K20.
  unfold bind at 1; follow_step K21.
  unfold ret at 1.
  unfold ret at 1.
  unfold bind at 1. follow_step K22.
  eexists _, _, _, (Plain v), _, _, _, _, _, _, _, _, _, _.
  split; [reflexivity |].
  split; [cbn [log]; rewrite <- !app_assoc; reflexivity |].
  split; [reflexivity |].
  split; [do 11 eexists; reflexivity |].
  split; [reflexivity |].
  split; [congruence |].
  cbn [app posted_by_closures flat_map ev_resp snd].
  repeat (apply Forall_app; split; [assumption |]). constructor.
Qed.

Lemma posted_calls (evs : list (Event Call Answer)) :
  posted evs
  = flat_map (fun c => match c with postMessage m => [m] | _ => [] end)
      (calls evs).
Proof.
  induction evs as [|e evs IH]; [reflexivity |].
  cbn [posted flat_map map]. fold (posted evs). rewrite IH. reflexivity.
Qed.

Lemma logs_only_loop (fuel : nat) :
  forall seen, logs_only (fun _ => True) (for_of_promises fuel seen report).
Proof.
  induction fuel as [|fuel IH]; intros seen; cbn [for_of_promises];
    [apply logs_only_ret |].
  apply logs_only_bind; [apply logs_only_silent; reflexivity |].
  intros promises.
  destruct (promises !! List.length seen) as [p |]; [| apply logs_only_ret].
  apply logs_only_bind; [| intros calls; apply IH].
  unfold report.
  apply logs_only_bind; [apply logs_only_perform; intros; exact I |].
  intros read.
  apply logs_only_bind; [apply logs_only_perform; intros; exact I |].
  intros text.
  apply logs_only_bind; [quiet_call | intros _].
  apply logs_only_ret.
Qed.

(** Whatever happens next, the first call after the globals are in place
    is the one that evaluates the code. *)
Lemma evaluate_and_report_starts
  (fuel : nat) (realm : Result) (req : EvaluateRequest) (w1 : World) :
  exists e rest,
    log (world_of (evaluate_and_report fuel realm req w1))
    = log w1 ++ e :: rest /\
    ev_call e
    = (if strict_equal_string (mode req) "script"
       then evaluateScript realm (code req) "code.js"
       else createSourceTextModule realm "code.mjs" (code req)).
Proof.
  unfold evaluate_and_report.
  match goal with
  | |- context [bind (run_code realm req) ?K] =>
      assert (HK : forall result, logs_only (fun _ => True) (K result))
  end.
  { intros result.
    apply logs_only_bind.
    { destruct (isAbruptCompletion result); [| apply logs_only_ret].
      apply logs_only_bind; [quiet_call | intros text].
      apply logs_only_bind; [quiet_call | intros _].
      apply logs_only_ret. }
    intros _. apply logs_only_loop. }
  destruct w1 as [h st lg].
  unfold run_code.
  destruct (strict_equal_string (mode req) "script").
  - unfold bind at 1. call_step.
    match goal with
    | |- context [{| heap := ?hh; ext := ?ee; log := lg ++ [?ev] |}] =>
        destruct (HK (fst (ev_resp ev))
                    {| heap := hh; ext := ee; log := lg ++ [ev] |})
          as (evs & L & _)
    end.
    eexists _, evs.
    split;
      [etransitivity; [exact L |];
       cbn [log]; rewrite <- app_assoc; reflexivity
      | reflexivity].
  - match goal with
    | |- context [bind (bind (call ?c) ?k2) ?K] =>
        assert (Hk2 : forall x, logs_only (fun _ => True) (bind (k2 x) K))
    end.
    { intros result. apply logs_only_bind; [| exact HK].
      destruct (isAbruptCompletion result); cbn [negb];
        [apply logs_only_ret |].
      apply logs_only_bind; [quiet_call | intros _].
      unfold invoke.
      apply logs_only_bind;
        [destruct (callable result "Link");
         [quiet_call | apply logs_only_silent; reflexivity] | intros linked].
      destruct (isAbruptCompletion linked); cbn [negb];
        [apply logs_only_ret |].
      apply logs_only_bind;
        [destruct (callable result "Evaluate");
         [quiet_call | apply logs_only_silent; reflexivity]
        | intros evaluated].
      apply logs_only_bind;
        [apply logs_only_get_property; intros; exact I | intros state].
      destruct (strict_equal_string state "rejected"); [| apply logs_only_ret].
      apply logs_only_bind;
        [apply logs_only_get_property; intros; exact I | intros reason].
      apply logs_only_ret. }
    unfold bind at 1. unfold bind at 1. call_step.
    match goal with
    | |- context [{| heap := ?hh; ext := ?ee; log := lg ++ [?ev] |}] =>
        destruct (Hk2 (fst (ev_resp ev))
                    {| heap := hh; ext := ee; log := lg ++ [ev] |})
          as (evs & L & _)
    end.
    eexists _, evs.
    split;
      [etransitivity; [exact L |];
       cbn [log]; rewrite <- app_assoc; reflexivity
      | reflexivity].
Qed.

(** An ['evaluate'] session, with an engine whose realm constructor
    returns an object: the first 23 calls, before anything else happens,
    are those that put the globals in place, each with what the engine
    answered before.  The agent is made with the features of the request
    and becomes the surrounding agent; the realm is made and entered;
    [print] is defined on the realm's global object; a new ordinary object
    with prototype [%Object.prototype%] is defined on it as [console], and
    gets the five methods [log], [warn], [debug], [error] and [clear], in
    this order; the page is told to clear its console.  Only then the code
    is evaluated: the next call is [evaluateScript] in script mode, and
    [createSourceTextModule] otherwise. *)
Theorem session_setup (fuel : nat) (data : MessageData) (w : World) :
  type data = "evaluate" ->
  (forall h st, exists v,
     fst (fst (fst (session_host new_ManagedRealm h st))) = Plain v /\
     v <> js_undefined) ->
  exists before rest agent realm print global1 proto console_ global2
         fn_log fn_warn fn_debug fn_error fn_clear,
    log (world_of (onmessage fuel data w)) = log w ++ before ++ rest /\
    calls before
    = setup_calls data agent realm print global1 proto console_ global2
        fn_log fn_warn fn_debug fn_error fn_clear /\
    (exists a0 a2 a4 a7 a11 a13 a15 a17 a19 a21 a22,
       returned before
       = [a0; agent; a2; realm; a4; print; global1; a7; proto; console_;
          global2; a11; fn_log; a13; fn_warn; a15; fn_debug; a17; fn_error;
          a19; fn_clear; a21; a22]) /\
    head (calls rest)
    = Some (if strict_equal_string (mode (value data)) "script"
            then evaluateScript realm (code (value data)) "code.js"
            else createSourceTextModule realm "code.mjs"
                   (code (value data))).
Proof.
  intros Htype Hobj.
  destruct (setup_run fuel data w Htype Hobj)
    as (before & w1 & agent & realm & print & global1 & proto & console_
        & global2 & fn_log & fn_warn & fn_debug & fn_error & fn_clear
        & E & L & C & R & _).
  destruct (evaluate_and_report_starts fuel realm (value data) w1)
    as (e & rest & L1 & He).
  exists before, (e :: rest), agent, realm, print, global1, proto, console_,
    global2, fn_log, fn_warn, fn_debug, fn_error, fn_clear.
  split; [rewrite E, L1, L, <- app_assoc; reflexivity |].
  split; [exact C |].
  split; [exact R |].
  cbn [map head]. rewrite He. reflexivity.
Qed.

(** What a session posts.  An ['evaluate'] session, with an engine whose
    realm constructor returns an object, whose [createSourceTextModule]
    returns an abrupt completion or a module, whose [Evaluate()] never
    returns [undefined], and which calls neither the tracker nor a closure
    while it reads a slot or formats a value.  With fuel for one turn more
    than the promises left, the listener runs to its end.  It posts
    itself, in this order: one console message [clear], before the code is
    evaluated; nothing while the code is evaluated; then, exactly when the
    result of the evaluation is an abrupt completion, one console message
    [error] whose one value is what [inspect] gave for that result; then
    one [unhandledRejection] message for each promise left in [promises];
    and nothing else.  What the page receives besides is what [print] and
    the console methods post when the engine calls them: console messages
    only, and none once the code has been evaluated. *)
Theorem session_messages (data : MessageData) (w : World) :
  type data = "evaluate" ->
  (forall h st, exists v,
     fst (fst (fst (session_host new_ManagedRealm h st))) = Plain v /\
     v <> js_undefined) ->
  makes_modules ->
  (forall m h st,
     fst (fst (fst (session_host (Evaluate m) h st))) <> Plain js_undefined) ->
  reads_quietly ->
  exists w' realm result w1 w2 before run after errors texts,
    (forall fuel,
       List.length (snd (ext w')) < fuel ->
       onmessage fuel data w = Next done w') /\
    log w' = log w ++ before ++ run ++ after /\
    log w1 = log w ++ before /\
    returned before !! 3 = Some realm /\
    run_code realm (value data) w1 = Next result w2 /\
    log w2 = log w1 ++ run /\
    posted before = [console "clear" []] /\
    posted run = [] /\
    posted after = errors ++ map unhandledRejection texts /\
    (if isAbruptCompletion result
     then exists e,
            head after = Some e /\
            ev_call e = inspect result /\
            errors = [console "error" [fst (ev_resp e)]]
     else errors = []) /\
    List.length texts = List.length (snd (ext w')) /\
    Forall is_console (posted_by_closures (before ++ run)) /\
    posted_by_closures after = [].
Proof.
  intros Htype Hobj Hmod Hev Hreads.
  destruct (setup_run 0 data w Htype Hobj)
    as (before & w1 & agent & realm & print & global1 & proto & console_
        & global2 & fn_log & fn_warn & fn_debug & fn_error & fn_clear
        & E0 & L0 & C0 & (a0 & a2 & a4 & a7 & a11 & a13 & a15 & a17 & a19
                          & a21 & a22 & R0) & _ & _ & K0).
  destruct (steps_run_code realm (value data) Hmod Hev w1)
    as (result & w2 & run & E1 & _ & L1 & _ & _ & K1).
  destruct (run_code_posts_nothing realm (value data) w1)
    as (run' & L1' & F1).
  rewrite E1 in L1'. cbn [world_of] in L1'. rewrite L1 in L1'.
  apply app_inv_head in L1'. subst run'.
  assert (Pbefore : posted before = [console "clear" []])
    by (rewrite posted_calls, C0; reflexivity).
  assert (Hrealm : returned before !! 3 = Some realm)
    by (rewrite R0; reflexivity).
  assert (Kboth : Forall is_console (posted_by_closures (before ++ run)))
    by (rewrite posted_by_closures_app; apply Forall_app; split; assumption).
  assert (Hafter : exists w3 said errors,
            onmessage 0 data w = Next out_of_fuel w3 /\
            log w3 = log w2 ++ said /\
            posted said = errors /\
            Forall silent said /\
            (if isAbruptCompletion result
             then exists e,
                    head said = Some e /\
                    ev_call e = inspect result /\
                    errors = [console "error" [fst (ev_resp e)]]
             else said = [] /\ errors = [])).
  { rewrite E0. unfold evaluate_and_report.
    unfold bind at 1. rewrite E1.
    unfold bind at 1.
    destruct w2 as [h2 st2 lg2].
    destruct (isAbruptCompletion result) eqn:Hab.
    - unfold bind at 1. rewrite call_eq.
      destruct (reads_answer (inspect result) h2 st2 Hreads eq_refl)
        as (text & h3 & s3 & ->).
      cbv beta iota. cbn [fst].
      unfold bind at 1. rewrite call_eq.
      rewrite worker_global_answer by reflexivity.
      cbv beta iota. unfold ret at 1. cbn [for_of_promises]. unfold ret.
      eexists _, [_; _], _.
      split; [reflexivity |].
      split; [cbn [log]; rewrite <- !app_assoc; reflexivity |].
      split; [reflexivity |].
      split; [repeat constructor |].
      eexists. repeat split.
    - unfold ret at 1. cbn [for_of_promises]. unfold ret.
      eexists _, [], _.
      split; [reflexivity |].
      split; [cbn [log]; rewrite app_nil_r; reflexivity |].
      split; [reflexivity |].
      split; [constructor |].
      split; reflexivity. }
  destruct Hafter as (w3 & said & errors & E3 & L3 & P3 & S3 & Herr).
  destruct (report_loop (snd (ext w3)) Hreads [] w3 eq_refl)
    as (w' & loop & F & L' & T' & Sl & R).
  destruct (Reports_posted _ _ R) as (texts & Pl & Len).
  destruct (silent_tracked (said ++ loop)) as [_ Ksilent];
    [apply Forall_app; split; assumption |].
  exists w', realm, result, w1, w2, before, run, (said ++ loop), errors, texts.
  split.
  { intros fuel Hfuel. rewrite onmessage_resume, E3. cbn [resume].
    apply F. rewrite <- T'. exact Hfuel. }
  split; [rewrite L', L3, L1, L0, <- !app_assoc; reflexivity |].
  split; [exact L0 |].
  split; [exact Hrealm |].
  split; [exact E1 |].
  split; [exact L1 |].
  split; [exact Pbefore |].
  split; [apply no_post_posted, F1 |].
  split; [rewrite posted_app, P3, Pl; reflexivity |].
  split.
  { destruct (isAbruptCompletion result).
    - destruct Herr as (e & He & Hc & Hm). exists e.
      split; [| split; assumption].
      destruct said as [|e' said']; [discriminate | exact He].
    - apply Herr. }
  split; [rewrite Len, T'; reflexivity |].
  split; [exact Kboth | exact Ksilent].
Qed.

(** *** What [print] and the console methods do *)

Lemma inspect_all (host : Host) (args : list Value)
  (callback : Value -> nat -> Stmt Result) (index : nat) :
  (forall a j, index <= j -> callback a j = call_with host (inspect (Plain a))) ->
  forall w, exists w' evs,
    array_map args callback index w = Next (returned evs) w' /\
    log w' = log w ++ evs /\
    calls evs = map (fun a => inspect (Plain a)) args.
Proof.
  revert index. induction args as [|a rest IH]; intros index Hcb w.
  - exists w, []. rewrite app_nil_r. repeat split.
  - destruct w as [h st lg].
    cbn [array_map]. unfold bind at 1.
    rewrite (Hcb a index) by lia. call_step_with host.
    unfold bind at 1.
    match goal with
    | |- context [array_map rest callback (S index) ?W] =>
        destruct (IH (S index) (fun a j H => Hcb a j (Nat.lt_le_incl _ _ H)) W)
          as (w' & evs & E & L & C)
    end.
    rewrite E. unfold ret.
    exists w'.
    exists ({| ev_call := inspect (Plain a); ev_heap := h; ev_resp := (x, t) |}
            :: evs).
    split; [reflexivity |].
    split; [rewrite L; cbn [log]; rewrite <- app_assoc; reflexivity |].
    cbn [map ev_call]; rewrite C; reflexivity.
Qed.

(** [print(a1, ..., an)], whatever answers its calls: it calls [inspect]
    on each argument in turn, posts one console message of method [log]
    whose values are what [inspect] gave, in the order of the arguments
    ([print()] posts an empty list), and returns [Value.undefined]. *)
Theorem print_posts_what_inspect_gives
  (host : Host) (args : list Value) (w : World) :
  exists w' evs,
    closure_body host Type_of stringValue print_closure args w
    = Next (Plain Value_undefined) w' /\
    log w' = log w ++ evs /\
    calls evs
    = map (fun a => inspect (Plain a)) args
      ++ [postMessage
            (console "log" (firstn (List.length args) (returned evs)))].
Proof.
  cbn [closure_body]. unfold print_body, function.
  destruct (inspect_all host args
              (fun a _ => call_with host (inspect (Plain a))) 0
              (fun _ _ _ => eq_refl) w)
    as (w1 & evs & E & L & C).
  unfold bind at 1. rewrite E.
  destruct w1 as [h1 st1 lg1].
  unfold bind at 1. call_step_with host. unfold Return.
  assert (Hlen : List.length args = List.length evs).
  { apply (f_equal (@List.length _)) in C.
    rewrite !length_map in C. symmetry. exact C. }
  do 2 eexists.
  split; [reflexivity |].
  split; [cbn [log] in *; rewrite L, <- app_assoc; reflexivity |].
  rewrite !map_app, C. cbn [map ev_call ev_resp fst].
  rewrite take_app_length' by (rewrite length_map; exact Hlen).
  reflexivity.
Qed.

(** A console method called with arguments, whatever answers its calls,
    posts one console message of its own method.  A first argument that
    is a String goes into the message as its string value, and [inspect]
    is not called on it; every other argument, a String too, goes in as
    what [inspect] gives for it, in the order of the arguments.  The
    method returns [Value.undefined]. *)
Theorem console_method_posts_first_string_raw
  (host : Host) (method : string) (args : list Value) (w : World) :
  exists w' evs,
    closure_body host Type_of stringValue (console_closure method) args w
    = Next (Plain Value_undefined) w' /\
    log w' = log w ++ evs /\
    calls evs
    = match args with
      | a :: rest =>
          if String.eqb (Type_of a) "String"
          then map (fun a => inspect (Plain a)) rest
               ++ [postMessage
                     (console method
                        (Plain (js_string (stringValue a))
                         :: firstn (List.length rest) (returned evs)))]
          else map (fun a => inspect (Plain a)) args
               ++ [postMessage
                     (console method
                        (firstn (List.length args) (returned evs)))]
      | [] => [postMessage (console method [])]
      end.
Proof.
  cbn [closure_body]. unfold console_body, function.
  set (callback := fun (a : Value) (i : nat) =>
         if Nat.eqb i 0 && String.eqb (Type_of a) "String"
         then ret (Plain (js_string (stringValue a)))
         else call_with host (inspect (Plain a))).
  assert (Hlater : forall a j, 1 <= j ->
                     callback a j = call_with host (inspect (Plain a))).
  { intros a j Hj. unfold callback. destruct j; [lia | reflexivity]. }
  destruct args as [|a rest].
  - destruct w as [h st lg].
    cbn [array_map]. unfold bind, ret. call_step_with host. unfold Return.
    do 2 eexists. repeat split.
  - cbn [array_map]. unfold callback at 1. cbn [Nat.eqb andb].
    destruct (String.eqb (Type_of a) "String").
    + destruct (inspect_all host rest callback 1 Hlater w)
        as (w1 & evs & E & L & C).
      unfold bind, ret. rewrite E.
      destruct w1 as [h1 st1 lg1]. call_step_with host. unfold Return.
      assert (Hlen : List.length rest = List.length evs).
      { apply (f_equal (@List.length _)) in C.
        rewrite !length_map in C. symmetry. exact C. }
      do 2 eexists.
      split; [reflexivity |].
      split; [cbn [log] in *; rewrite L, <- app_assoc; reflexivity |].
      rewrite !map_app, C. cbn [map ev_call ev_resp fst].
      rewrite take_app_length' by (rewrite length_map; exact Hlen).
      reflexivity.
    + destruct w as [h st lg]. unfold bind, ret. call_step_with host.
      match goal with
      | |- context [array_map rest callback 1 ?W] =>
          destruct (inspect_all host rest callback 1 Hlater W)
            as (w1 & evs & E & L & C)
      end.
      rewrite E.
      destruct w1 as [h1 st1 lg1]. call_step_with host. unfold Return.
      assert (Hlen : List.length rest = List.length evs).
      { apply (f_equal (@List.length _)) in C.
        rewrite !length_map in C. symmetry. exact C. }
      do 2 eexists.
      split; [reflexivity |].
      split; [cbn [log] in *; rewrite L, <- !app_assoc; reflexivity |].
      cbn [app map ev_call ev_resp fst List.length firstn].
      rewrite !map_app, C. cbn [map ev_call ev_resp fst].
      rewrite take_app_length' by (rewrite length_map; exact Hlen).
      reflexivity.
Qed.

(** When the engine calls a closure during a call, what the closure did
    is part of what happened during that call: the calls that the closure
    made, each with what it returned, between the closure being called
    and its return; what the engine went on to do comes after. *)
Lemma run_activity_calls_closure
  (f : Closure) (args : list Value) (h : list Cell) (s : EngineState)
  (inner : Call -> list Cell -> EngineState -> Activity)
  (next : option Result -> list Cell -> EngineState -> Activity)
  (promises : list nat) :
  exists w' evs,
    closure_body (host_of inner) Type_of stringValue f args
      {| heap := h; ext := (s, promises); log := [] |}
    = Next (Plain Value_undefined) w' /\
    log w' = evs /\
    run_activity (calls_closure f args h s inner next) promises
    = (let '((result, during), h', st') :=
         run_activity (next (Some (Plain Value_undefined)) (heap w')
                         (fst (ext w'))) (snd (ext w')) in
       ((result,
         closure_called f args :: during_of evs
           ++ closure_returned (Some (Plain Value_undefined)) :: during),
        h', st')).
Proof.
  destruct (closure_body_steps (host_of inner) f args (host_of_follows inner)
              {| heap := h; ext := (s, promises); log := [] |})
    as (r & w' & evs & E & -> & L & _).
  exists w', evs. split; [exact E |]. split; [exact L |].
  cbn [run_activity]. cbv zeta. fold (host_of inner).
  rewrite E. cbn [world_of]. rewrite L. reflexivity.
Qed.

End Session.

(** *** A small engine to run the worker against

    Its one module evaluates to a promise, object 2, that is rejected with
    ["boom"].  During the evaluation the tracker hears of the rejection of
    promise 7, the code calls [print("hello")], and the tracker hears of
    the rejection of promise 8, of a later handler on 7, and of an
    operation it does not know. *)

(** [Type(a)] and [a.stringValue()] on the values of the small engine. *)
Definition demo_Type (a : Value) : string :=
  match a with
  | StringValue _ => "String"
  | NumberValue _ => "Number"
  | Value_undefined => "Undefined"
  | Value_null => "Null"
  | Value_true | Value_false => "Boolean"
  | _ => "Object"
  end.

Definition demo_stringValue (a : Value) : string :=
  match a with StringValue s => s | _ => "" end.

Definition demo_property (o : Result) (name : string) : Result :=
  match o, name with
  | Plain (Ref 2), "PromiseState" => Plain (js_string "rejected")
  | Plain (Ref 2), "PromiseResult" => Plain (StringValue "boom")
  | Plain (Ref 8), "PromiseResult" => Plain (StringValue "late")
  | _, _ => Plain Value_undefined
  end.

Definition demo_inspect (v : Result) : Result :=
  match v with
  | Plain (StringValue text) => Plain (js_string text)
  | Completion throw (StringValue text) _ =>
      Plain (js_string (String.append "Uncaught " text))
  | _ => Plain Value_undefined
  end.

(** The small engine while a closure runs: it reads and formats. *)
Definition demo_reads : Engine (EngineState := unit) :=
  fun c h s =>
    match c with
    | GetProperty o name => returns (demo_property o name) h s
    | inspect v => returns (demo_inspect v) h s
    | _ => returns (Plain Value_undefined) h s
    end.

Definition demo_engine : Engine (EngineState := unit) :=
  fun c h s =>
    match c with
    | new_ManagedRealm => returns (Plain (Ref 0)) h s
    | createSourceTextModule _ _ _ => returns (Plain (Ref 1)) h s
    | Link _ => returns (Completion normal Value_undefined js_undefined) h s
    | Evaluate _ =>
        calls_tracker 7 "reject"
          (calls_closure print_closure [StringValue "hello"] h s demo_reads
             (fun _ h s =>
                calls_tracker 8 "reject"
                  (calls_tracker 7 "handle"
                     (calls_tracker 9 "settle"
                        (returns (Plain (Ref 2)) h s)))))
    | GetProperty o name => returns (demo_property o name) h s
    | inspect v => returns (demo_inspect v) h s
    | _ => returns (Plain Value_undefined) h s
    end.

(** Object 1, the module, has the methods of a module. *)
Definition demo_has_method (o : Value) (name : string) : bool :=
  match o with
  | Ref 1 => String.eqb name "Link" || String.eqb name "Evaluate"
  | _ => false
  end.

Definition module_request : MessageData :=
  {| type := "evaluate";
     value := {| mode := js_string "module"; features := [];
                 code := js_string "await Promise.reject(1)" |} |}.

Definition start : World Call Answer (unit * list nat) :=
  {| heap := []; ext := (tt, []); log := [] |}.

#[local] Abbreviation demo_host :=
  (session_host demo_Type demo_stringValue demo_engine).
#[local] Abbreviation demo_run_code :=
  (run_code demo_Type demo_stringValue demo_engine demo_has_method).
#[local] Abbreviation demo_onmessage :=
  (onmessage demo_Type demo_stringValue demo_engine demo_has_method).
#[local] Abbreviation demo_callable := (callable demo_has_method).
#[local] Abbreviation calls evs := (map ev_call evs).
#[local] Abbreviation returned evs :=
  (map (fun e : Event Call Answer => fst (ev_resp e)) evs).

(** The module-mode theorem on the small engine. *)
Lemma module_mode_transitions_witness :
  exists evs x1,
    log (world_of (demo_run_code (Plain (Ref 0)) (value module_request)
                     start))
    = log start ++ evs /\
    head (calls evs)
    = Some (createSourceTextModule (Plain (Ref 0)) "code.mjs"
              (code (value module_request))) /\
    head (returned evs) = Some x1 /\
    (isAbruptCompletion x1 = true ->
     List.length evs = 1 /\
     demo_run_code (Plain (Ref 0)) (value module_request) start
     = Next x1 (world_of (demo_run_code (Plain (Ref 0))
                            (value module_request) start))) /\
    (isAbruptCompletion x1 = false ->
     calls evs !! 1 = Some (SetProperty (Plain (Ref 0)) "moduleEntry" x1) /\
     (demo_callable x1 "Link" = false ->
      List.length evs = 2 /\
      demo_run_code (Plain (Ref 0)) (value module_request) start
      = Thrown (world_of (demo_run_code (Plain (Ref 0))
                            (value module_request) start))) /\
     (demo_callable x1 "Link" = true ->
      exists x3,
        firstn 3 (calls evs)
        = [createSourceTextModule (Plain (Ref 0)) "code.mjs"
             (code (value module_request));
           SetProperty (Plain (Ref 0)) "moduleEntry" x1;
           Link x1] /\
        returned evs !! 2 = Some x3 /\
        (isAbruptCompletion x3 = true ->
         List.length evs = 3 /\
         demo_run_code (Plain (Ref 0)) (value module_request) start
         = Next x3 (world_of (demo_run_code (Plain (Ref 0))
                                (value module_request) start))) /\
        (isAbruptCompletion x3 = false ->
         (demo_callable x1 "Evaluate" = false ->
          List.length evs = 3 /\
          demo_run_code (Plain (Ref 0)) (value module_request) start
          = Thrown (world_of (demo_run_code (Plain (Ref 0))
                                (value module_request) start))) /\
         (demo_callable x1 "Evaluate" = true ->
          exists x4,
            calls evs !! 3 = Some (Evaluate x1) /\
            returned evs !! 3 = Some x4 /\
            (isCompletion x4 = true ->
             List.length evs = 4 /\
             demo_run_code (Plain (Ref 0)) (value module_request) start
             = Next x4 (world_of (demo_run_code (Plain (Ref 0))
                                    (value module_request) start))) /\
            (x4 = Plain js_undefined ->
             List.length evs = 4 /\
             demo_run_code (Plain (Ref 0)) (value module_request) start
             = Thrown (world_of (demo_run_code (Plain (Ref 0))
                                   (value module_request) start))) /\
            (isCompletion x4 = false ->
             x4 <> Plain js_undefined ->
             exists state,
               calls evs !! 4 = Some (GetProperty x4 "PromiseState") /\
               returned evs !! 4 = Some state /\
               (unwrap state = js_string "rejected" ->
                exists reason,
                  skipn 5 (calls evs) = [GetProperty x4 "PromiseResult"] /\
                  skipn 5 (returned evs) = [reason] /\
                  demo_run_code (Plain (Ref 0)) (value module_request) start
                  = Next (Throw (unwrap reason))
                      (world_of (demo_run_code (Plain (Ref 0))
                                   (value module_request) start))) /\
               (strict_equal_string (unwrap state) "rejected" = false ->
                List.length evs = 5 /\
                demo_run_code (Plain (Ref 0)) (value module_request) start
                = Next x4 (world_of (demo_run_code (Plain (Ref 0))
                                       (value module_request) start)))))))).
Proof.
  apply (module_mode_transitions demo_Type demo_stringValue demo_engine
           demo_has_method (Plain (Ref 0)) (value module_request) start).
  reflexivity.
Defined.

(** On the small engine the rejected module promise becomes the Throw
    completion of its reason. *)
Example rejected_module_promise_is_thrown :
  exists w',
    demo_run_code (Plain (Ref 0)) (value module_request) start
    = Next (Throw (StringValue "boom")) w' /\
    calls (log w')
    = [createSourceTextModule (Plain (Ref 0)) "code.mjs"
         (js_string "await Promise.reject(1)");
       SetProperty (Plain (Ref 0)) "moduleEntry" (Plain (Ref 1));
       Link (Plain (Ref 1));
       Evaluate (Plain (Ref 1));
       GetProperty (Plain (Ref 2)) "PromiseState";
       GetProperty (Plain (Ref 2)) "PromiseResult"].
Proof. eexists. split; [vm_compute; reflexivity | reflexivity]. Qed.

(** A module that is no object: when [createSourceTextModule] answers
    [undefined], [module.Link()] is a TypeError of JavaScript, and the
    listener stops there. *)
Definition no_module_engine : Engine (EngineState := unit) :=
  fun c h s =>
    match c with
    | createSourceTextModule _ _ _ => returns (Plain js_undefined) h s
    | _ => demo_engine c h s
    end.

Example Link_of_undefined_throws :
  exists w',
    run_code demo_Type demo_stringValue no_module_engine demo_has_method
      (Plain (Ref 0)) (value module_request) start
    = Thrown w' /\
    calls (log w')
    = [createSourceTextModule (Plain (Ref 0)) "code.mjs"
         (js_string "await Promise.reject(1)");
       SetProperty (Plain (Ref 0)) "moduleEntry" (Plain js_undefined)].
Proof. eexists. split; [vm_compute; reflexivity | reflexivity]. Qed.


(** On the small engine: promise 7 was handled, the operation on 9 is
    ignored, and promise 8 alone is left and reported, after the error of
    the evaluation itself.  The page has received besides what [print]
    posted when the code called it. *)
Example one_unhandled_rejection :
  snd (ext (world_of (demo_onmessage 2 module_request start))) = [8] /\
  posted (log (world_of (demo_onmessage 2 module_request start)))
  = [console "clear" [];
     console "error" [Plain (js_string "Uncaught boom")];
     unhandledRejection (Plain (js_string "late"))] /\
  posted_by_closures (log (world_of (demo_onmessage 2 module_request start)))
  = [console "log" [Plain (js_string "hello")]] /\
  value_of (demo_onmessage 2 module_request start) = Some done.
Proof. repeat split; vm_compute; reflexivity. Qed.

(** The loop walks the Set as it is.  On an engine as the small one, but
    whose [inspect] of ["late"] tells the tracker of the rejection of
    promise 9, the loop reports promise 8 and then promise 9, which
    entered the set during the first turn. *)
Definition late_engine : Engine (EngineState := unit) :=
  fun c h s =>
    match c with
    | inspect (Plain (StringValue "late")) =>
        calls_tracker 9 "reject" (returns (Plain (js_string "late")) h s)
    | GetProperty (Plain (Ref 9)) "PromiseResult" =>
        returns (Plain (StringValue "later")) h s
    | _ => demo_engine c h s
    end.

Example a_rejection_during_the_loop_is_reported :
  value_of (onmessage demo_Type demo_stringValue late_engine demo_has_method
              3 module_request start) = Some done /\
  snd (ext (world_of (onmessage demo_Type demo_stringValue late_engine
                        demo_has_method 3 module_request start)))
  = [8; 9] /\
  posted (log (world_of (onmessage demo_Type demo_stringValue late_engine
                           demo_has_method 3 module_request start)))
  = [console "clear" [];
     console "error" [Plain (js_string "Uncaught boom")];
     unhandledRejection (Plain (js_string "late"));
     unhandledRejection (Plain (js_string "later"))] /\
  value_of (onmessage demo_Type demo_stringValue late_engine demo_has_method
              2 module_request start) = Some out_of_fuel.
Proof. repeat split; vm_compute; reflexivity. Qed.

(** What happened during [Evaluate()] on the small engine. *)
Example during_Evaluate :
  snd (fst (fst (demo_host (Evaluate (Plain (Ref 1))) [] (tt, []))))
  = [tracker_called 7 "reject";
     closure_called print_closure [StringValue "hello"];
     closure_made (inspect (Plain (StringValue "hello")))
       (Plain (js_string "hello"));
     closure_made (postMessage (console "log" [Plain (js_string "hello")]))
       (Plain js_undefined);
     closure_returned (Some (Plain Value_undefined));
     tracker_called 8 "reject";
     tracker_called 7 "handle";
     tracker_called 9 "settle"].
Proof. vm_compute. reflexivity. Qed.

(** A message the worker does not know. *)
Definition ping : MessageData :=
  {| type := "ping"; value := value module_request |}.

(** The theorem on other messages at [ping]. *)
Lemma other_messages_are_ignored_witness :
  exists e w',
    demo_onmessage 1 ping start = Next done w' /\
    log w' = log start ++ [e] /\
    ev_call e = console_log ping /\
    snd (ext w') = snd (ext start).
Proof.
  apply (other_messages_are_ignored demo_Type demo_stringValue demo_engine
           demo_has_method 1 ping start).
  discriminate.
Defined.

(** A request to evaluate a script. *)
Definition script_request : MessageData :=
  {| type := "evaluate";
     value := {| mode := js_string "script"; features := [];
                 code := js_string "1 + 1" |} |}.

(** The script-mode theorem on the small engine. *)
Lemma script_mode_is_one_call_witness :
  exists e,
    log (world_of (demo_run_code (Plain (Ref 0)) (value script_request)
                     start))
    = log start ++ [e] /\
    ev_call e
    = evaluateScript (Plain (Ref 0)) (code (value script_request))
        "code.js" /\
    demo_run_code (Plain (Ref 0)) (value script_request) start
    = Next (fst (ev_resp e))
        (world_of (demo_run_code (Plain (Ref 0)) (value script_request)
                     start)).
Proof.
  apply (script_mode_is_one_call demo_Type demo_stringValue demo_engine
           demo_has_method (Plain (Ref 0)) (value script_request) start).
  reflexivity.
Defined.

(** The theorem on the setup on the small engine. *)
Lemma session_setup_witness :
  exists before rest agent realm print global1 proto console_ global2
         fn_log fn_warn fn_debug fn_error fn_clear,
    log (world_of (demo_onmessage 2 module_request start))
    = log start ++ before ++ rest /\
    calls before
    = setup_calls module_request agent realm print global1 proto console_
        global2 fn_log fn_warn fn_debug fn_error fn_clear /\
    (exists a0 a2 a4 a7 a11 a13 a15 a17 a19 a21 a22,
       returned before
       = [a0; agent; a2; realm; a4; print; global1; a7; proto; console_;
          global2; a11; fn_log; a13; fn_warn; a15; fn_debug; a17; fn_error;
          a19; fn_clear; a21; a22]) /\
    head (calls rest)
    = Some (if strict_equal_string (mode (value module_request)) "script"
            then evaluateScript realm (code (value module_request)) "code.js"
            else createSourceTextModule realm "code.mjs"
                   (code (value module_request))).
Proof.
  apply (session_setup demo_Type demo_stringValue demo_engine demo_has_method
           2 module_request start).
  - reflexivity.
  - intros h st. exists (Ref 0). split; [reflexivity | discriminate].
Defined.

(** The theorem on the messages of a session on the small engine. *)
Lemma session_messages_witness :
  exists w' realm result w1 w2 before run after errors texts,
    (forall fuel,
       List.length (snd (ext w')) < fuel ->
       demo_onmessage fuel module_request start = Next done w') /\
    log w' = log start ++ before ++ run ++ after /\
    log w1 = log start ++ before /\
    returned before !! 3 = Some realm /\
    demo_run_code realm (value module_request) w1 = Next result w2 /\
    log w2 = log w1 ++ run /\
    posted before = [console "clear" []] /\
    posted run = [] /\
    posted after = errors ++ map unhandledRejection texts /\
    (if isAbruptCompletion result
     then exists e,
            head after = Some e /\
            ev_call e = inspect result /\
            errors = [console "error" [fst (ev_resp e)]]
     else errors = []) /\
    List.length texts = List.length (snd (ext w')) /\
    Forall is_console (posted_by_closures (before ++ run)) /\
    posted_by_closures after = [].
Proof.
  apply (session_messages demo_Type demo_stringValue demo_engine
           demo_has_method module_request start).
  - reflexivity.
  - intros h st. exists (Ref 0). split; [reflexivity | discriminate].
  - intros realm specifier code h st. right. split; reflexivity.
  - intros m h st. vm_compute. discriminate.
  - intros c h s Hc. destruct c; try discriminate; do 3 eexists; reflexivity.
Defined.

(** On the small engine a script that evaluates normally, leaving no
    rejection, posts the [clear] message and nothing else. *)
Example quiet_script_posts_clear_only :
  posted (log (world_of (demo_onmessage 1 script_request start)))
  = [console "clear" []] /\
  posted_by_closures (log (world_of (demo_onmessage 1 script_request start)))
  = [].
Proof. split; vm_compute; reflexivity. Qed.

(** [console.warn("a", "b")] on the small engine: [inspect] is called on
    ["b"] only, and ["a"] goes into the message as its string value. *)
Example console_warn_of_two_strings :
  exists w',
    closure_body demo_host demo_Type demo_stringValue
      (console_closure "warn") [StringValue "a"; StringValue "b"] start
    = Next (Plain Value_undefined) w' /\
    calls (log w')
    = [inspect (Plain (StringValue "b"));
       postMessage
         (console "warn" [Plain (js_string "a"); Plain (js_string "b")])].
Proof. eexists. split; reflexivity. Qed.

Example print_of_two_strings :
  exists w',
    closure_body demo_host demo_Type demo_stringValue
      print_closure [StringValue "a"; StringValue "b"] start
    = Next (Plain Value_undefined) w' /\
    calls (log w')
    = [inspect (Plain (StringValue "a"));
       inspect (Plain (StringValue "b"));
       postMessage
         (console "log" [Plain (js_string "a"); Plain (js_string "b")])].
Proof. eexists. split; reflexivity. Qed.

End Worker.
